(** * InsertQueryBuilder: the multi-dialect INSERT compiler and its executor

    A shallow embedding of [src/query-builder/InsertQueryBuilder.ts].

    - JavaScript values are reduced to the four shapes the builder tells
      apart: [undefined], [null], a function (a raw SQL expression) and any
      other datum.
    - The SQL text is kept as a sequence of literal chunks and parameter
      placeholders, so that a placeholder is not confused with literal text:
      the placeholders that [createParameter] returns, and the named
      placeholders [:column] that the builder writes itself; [render] gives
      back the string that the source builds.
    - The builder mutates [this.expressionMap]; the methods are therefore
      state transformers over the builder, in a state-and-exception monad in
      which a thrown error keeps the mutations made so far.
    - [execute] additionally records, in order, every call it makes on the
      query runner; the value sets are the caller's own records, so what the
      entity updator writes into them is written into the builder's values. *)

From stdpp Require Import base strings list gmap pretty.

Open Scope string_scope.
Open Scope list_scope.
Open Scope nat_scope.

(** ** Values and records to insert *)

Inductive Value : Type :=
  | VUndefined
  | VNull
  | VFunction (sql : string)   (* [() => sql], a raw SQL expression *)
  | VData (payload : string).  (* any other value; bound as a parameter *)

#[global] Instance Value_eq_dec : EqDecision Value.
Proof. solve_decision. Defined.

Definition isUndefined (v : Value) : bool :=
  match v with VUndefined => true | _ => false end.

Definition isFunction (v : Value) : bool :=
  match v with VFunction _ => true | _ => false end.

(** [v !== undefined && v !== null] *)
Definition isProvided (v : Value) : bool :=
  match v with VUndefined | VNull => false | _ => true end.

(** An [ObjectLiteral]: property names with their values, in insertion
    order ([Object.keys] order). *)
Definition ObjectLiteral : Type := list (string * Value).

Definition Object_keys (o : ObjectLiteral) : list string := o.*1.

Fixpoint getProperty (o : ObjectLiteral) (key : string) : Value :=
  match o with
  | [] => VUndefined
  | (k, v) :: o' => if decide (k = key) then v else getProperty o' key
  end.

Fixpoint setProperty (o : ObjectLiteral) (key : string) (v : Value) : ObjectLiteral :=
  match o with
  | [] => [(key, v)]
  | (k, w) :: o' =>
      if decide (k = key) then (k, v) :: o' else (k, w) :: setProperty o' key v
  end.

(** JavaScript truthiness of a string. *)
Definition truthy (s : string) : bool := negb (String.eqb s "").

(** [haystack.indexOf(needle) !== -1] *)
Definition includes (needle : string) (haystack : list string) : bool :=
  bool_decide (needle ∈ haystack).

(** ** SQL text with parameter references *)

Inductive Piece : Type :=
  | Text (s : string)
  | Placeholder (index : nat)          (* [:orm_param_index], returned by [createParameter] *)
  | NamedPlaceholder (name : string).  (* [:name], written by the builder itself *)

Definition Sql : Type := list Piece.

Definition renderPiece (p : Piece) : string :=
  match p with
  | Text s => s
  | Placeholder n => ":orm_param_" +:+ pretty n
  | NamedPlaceholder name => ":" +:+ name
  end.

Definition render (q : Sql) : string :=
  foldr (λ p rest, renderPiece p +:+ rest) "" q.

(** The parameter placeholders of a text, of both kinds, in order of
    occurrence. *)
Fixpoint placeholders (q : Sql) : Sql :=
  match q with
  | [] => []
  | Text _ :: q' => placeholders q'
  | p :: q' => p :: placeholders q'
  end.

(** [pieces.join(separator)] *)
Fixpoint joinSql (separator : string) (pieces : list Sql) : Sql :=
  match pieces with
  | [] => []
  | [q] => q
  | q :: rest => q ++ Text separator :: joinSql separator rest
  end.

(** ** Errors and the builder monad *)

Inductive Error : Type :=
  | InsertValuesMissingError
  | ReturningStatementNotSupportedError
  | TypeORMError (message : string)
  | RuntimeError (message : string).  (* raised by a collaborator *)

#[global] Instance Error_eq_dec : EqDecision Error.
Proof. solve_decision. Defined.

Inductive Result (A : Type) : Type :=
  | Ok (a : A)
  | Throw (e : Error).
Arguments Ok {A} a.
Arguments Throw {A} e.

Definition M (St A : Type) : Type := St → Result A * St.

Definition ret {St A} (a : A) : M St A := λ s, (Ok a, s).

Definition throw {St A} (e : Error) : M St A := λ s, (Throw e, s).

Definition bind {St A B} (m : M St A) (k : A → M St B) : M St B :=
  λ s, match m s with
       | (Ok a, s') => k a s'
       | (Throw e, s') => (Throw e, s')
       end.

Definition get {St} : M St St := λ s, (Ok s, s).

Definition modify {St} (f : St → St) : M St unit := λ s, (Ok tt, f s).

Notation "'let*' x ':=' m 'in' k" := (bind m (λ x, k))
  (at level 10, x pattern, m at level 100, k at level 200).
Notation "m ';;' k" := (bind m (λ _, k))
  (at level 100, k at level 200, right associativity).

(** [list.forEach((x, index) => body)] where every iteration appends to one
    text: the appended chunks are returned in order. *)
Fixpoint forEachFrom {St A} (body : A → nat → M St Sql) (l : list A) (index : nat) : M St Sql :=
  match l with
  | [] => ret []
  | x :: l' =>
      let* chunk := body x index in
      let* rest := forEachFrom body l' (S index) in
      ret (chunk ++ rest)
  end.

Definition forEach {St A} (body : A → nat → M St Sql) (l : list A) : M St Sql :=
  forEachFrom body l 0.

(** [list.filter(predicate)] with a predicate that may throw. *)
Fixpoint filterM {St A} (predicate : A → M St bool) (l : list A) : M St (list A) :=
  match l with
  | [] => ret []
  | x :: l' =>
      let* keep := predicate x in
      let* rest := filterM predicate l' in
      ret (if keep then x :: rest else rest)
  end.

(** [list.some(predicate)] with a predicate that may throw. *)
Fixpoint someM {St A} (predicate : A → M St bool) (l : list A) : M St bool :=
  match l with
  | [] => ret false
  | x :: l' =>
      let* found := predicate x in
      if found then ret true else someM predicate l'
  end.

(** ** Schema metadata *)

Inductive GenerationStrategy : Type := Increment | Uuid | Rowid.

#[global] Instance GenerationStrategy_eq_dec : EqDecision GenerationStrategy.
Proof. solve_decision. Defined.

(** Modelled from the spec: the column descriptor (metadata/ColumnMetadata is
    not among the sources), with the flags the builder reads. *)
Module ColumnMetadata.
Record t : Type := {
  propertyPath : string;
  databaseName : string;
  isPrimary : bool;
  isGenerated : bool;
  generationStrategy : option GenerationStrategy;
  isInsert : bool;
  isVersion : bool;
  isDiscriminator : bool;
  default : Value;
  type : string;
  srid : option nat;
}.
End ColumnMetadata.

#[global] Instance ColumnMetadata_eq_dec : EqDecision ColumnMetadata.t.
Proof. solve_decision. Defined.

(** Modelled from the spec: ColumnMetadata.getEntityValue and setEntityValue
    (metadata/ColumnMetadata is not among the sources). A value set is a
    mapping from column to value, read and written under the column's
    property path; a column without an entry reads as [undefined]. *)
Definition getEntityValue (column : ColumnMetadata.t) (entity : ObjectLiteral) : Value :=
  getProperty entity (ColumnMetadata.propertyPath column).

Definition setEntityValue (column : ColumnMetadata.t) (entity : ObjectLiteral) (v : Value)
  : ObjectLiteral :=
  setProperty entity (ColumnMetadata.propertyPath column) v.

(** Modelled from the spec: the schema metadata of a table
    (metadata/EntityMetadata is not among the sources): its column
    descriptors and its discriminator constant. *)
Module EntityMetadata.
Record t : Type := {
  columns : list ColumnMetadata.t;
  discriminatorValue : Value;
}.
End EntityMetadata.

(** Modelled from the spec: the alias of the target table
    (query-builder/Alias is not among the sources), with or without schema
    metadata. *)
Module Alias.
Record t : Type := {
  tablePath : string;
  metadata : option EntityMetadata.t;
}.
Definition hasMetadata (a : t) : bool :=
  match metadata a with Some _ => true | None => false end.
End Alias.

(** ** Drivers *)

Inductive DriverKind : Type :=
  | MysqlDriver
  | AuroraDataApiDriver
  | PostgresDriver
  | CockroachDriver
  | SqlServerDriver
  | OracleDriver
  | AbstractSqliteDriver
  | SapDriver
  | OtherDriver.

#[global] Instance DriverKind_eq_dec : EqDecision DriverKind.
Proof. solve_decision. Defined.

Inductive UpsertType : Type := OnConflictDoUpdate | OnDuplicateKeyUpdate.

#[global] Instance UpsertType_eq_dec : EqDecision UpsertType.
Proof. solve_decision. Defined.

(** Modelled from the spec: the dialect profile. The driver classes are not
    among the sources; the part of the [Driver] interface that the builder
    consults is a record, with the methods as fields. *)
Module Driver.
Record t : Type := {
  kind : DriverKind;                               (* the class tested by [instanceof] *)
  supportedUpsertType : option UpsertType;
  isReturningSqlSupported : bool;
  isUUIDGenerationSupported : bool;
  preparePersistentValue : Value → ColumnMetadata.t → Value;
  normalizeDefault : ColumnMetadata.t → string;
  parametrizeValue : ColumnMetadata.t → Value → Value;
  spatialTypes : list string;
  legacySpatialSupport : bool;
  buildTableVariableDeclaration : string → list ColumnMetadata.t → string;
}.
End Driver.

(** [driver instanceof k] *)
Definition instanceOf (driver : Driver.t) (k : DriverKind) : bool :=
  bool_decide (Driver.kind driver = k).

(** ** The expression map *)

Inductive ValuesSet : Type :=
  | ValuesUndefined
  | ValuesObject (o : ObjectLiteral)
  | ValuesArray (l : list ObjectLiteral).

Inductive Returning : Type :=
  | ReturningString (s : string)
  | ReturningColumns (l : list string).

Inductive ConflictTarget : Type :=
  | ConflictUndefined
  | ConflictString (s : string)
  | ConflictColumns (l : list string).

Module OnUpdate.
Record t : Type := {
  conflict : ConflictTarget;
  columns : option (list string);
  overwrite : option (list string);
}.
End OnUpdate.

(** Modelled from the spec: the configuration that the builder reads and
    writes (query-builder/QueryExpressionMap is not among the sources); the
    fields are those that this builder uses. *)
Module QueryExpressionMap.
Record t : Type := {
  mainAlias : Alias.t;
  insertColumns : list string;
  valuesSet : ValuesSet;
  returning : Returning;
  updateEntity : bool;
  useTransaction : bool;
  callListeners : bool;
  onConflict : string;
  onIgnore : bool;
  onUpdate : option OnUpdate.t;
  extraReturningColumns : list ColumnMetadata.t;
  locallyGenerated : gmap nat ObjectLiteral;
  parameters : list Value;
}.

Definition with_into (a : Alias.t) (cols : list string) (m : t) : t :=
  {| mainAlias := a; insertColumns := cols; valuesSet := valuesSet m;
     returning := returning m; updateEntity := updateEntity m;
     useTransaction := useTransaction m; callListeners := callListeners m;
     onConflict := onConflict m; onIgnore := onIgnore m; onUpdate := onUpdate m;
     extraReturningColumns := extraReturningColumns m;
     locallyGenerated := locallyGenerated m; parameters := parameters m |}.

Definition with_valuesSet (v : ValuesSet) (m : t) : t :=
  {| mainAlias := mainAlias m; insertColumns := insertColumns m; valuesSet := v;
     returning := returning m; updateEntity := updateEntity m;
     useTransaction := useTransaction m; callListeners := callListeners m;
     onConflict := onConflict m; onIgnore := onIgnore m; onUpdate := onUpdate m;
     extraReturningColumns := extraReturningColumns m;
     locallyGenerated := locallyGenerated m; parameters := parameters m |}.

Definition with_returning (r : Returning) (m : t) : t :=
  {| mainAlias := mainAlias m; insertColumns := insertColumns m;
     valuesSet := valuesSet m;
     returning := r; updateEntity := updateEntity m;
     useTransaction := useTransaction m; callListeners := callListeners m;
     onConflict := onConflict m; onIgnore := onIgnore m; onUpdate := onUpdate m;
     extraReturningColumns := extraReturningColumns m;
     locallyGenerated := locallyGenerated m; parameters := parameters m |}.

Definition with_updateEntity (b : bool) (m : t) : t :=
  {| mainAlias := mainAlias m; insertColumns := insertColumns m;
     valuesSet := valuesSet m;
     returning := returning m; updateEntity := b;
     useTransaction := useTransaction m; callListeners := callListeners m;
     onConflict := onConflict m; onIgnore := onIgnore m; onUpdate := onUpdate m;
     extraReturningColumns := extraReturningColumns m;
     locallyGenerated := locallyGenerated m; parameters := parameters m |}.

Definition with_onConflict (s : string) (m : t) : t :=
  {| mainAlias := mainAlias m; insertColumns := insertColumns m;
     valuesSet := valuesSet m;
     returning := returning m; updateEntity := updateEntity m;
     useTransaction := useTransaction m; callListeners := callListeners m;
     onConflict := s; onIgnore := onIgnore m; onUpdate := onUpdate m;
     extraReturningColumns := extraReturningColumns m;
     locallyGenerated := locallyGenerated m; parameters := parameters m |}.

Definition with_onIgnore (b : bool) (m : t) : t :=
  {| mainAlias := mainAlias m; insertColumns := insertColumns m;
     valuesSet := valuesSet m;
     returning := returning m; updateEntity := updateEntity m;
     useTransaction := useTransaction m; callListeners := callListeners m;
     onConflict := onConflict m; onIgnore := b; onUpdate := onUpdate m;
     extraReturningColumns := extraReturningColumns m;
     locallyGenerated := locallyGenerated m; parameters := parameters m |}.

Definition with_onUpdate (u : option OnUpdate.t) (m : t) : t :=
  {| mainAlias := mainAlias m; insertColumns := insertColumns m;
     valuesSet := valuesSet m;
     returning := returning m; updateEntity := updateEntity m;
     useTransaction := useTransaction m; callListeners := callListeners m;
     onConflict := onConflict m; onIgnore := onIgnore m; onUpdate := u;
     extraReturningColumns := extraReturningColumns m;
     locallyGenerated := locallyGenerated m; parameters := parameters m |}.

Definition with_extraReturningColumns (l : list ColumnMetadata.t) (m : t) : t :=
  {| mainAlias := mainAlias m; insertColumns := insertColumns m;
     valuesSet := valuesSet m;
     returning := returning m; updateEntity := updateEntity m;
     useTransaction := useTransaction m; callListeners := callListeners m;
     onConflict := onConflict m; onIgnore := onIgnore m; onUpdate := onUpdate m;
     extraReturningColumns := l;
     locallyGenerated := locallyGenerated m; parameters := parameters m |}.

Definition with_locallyGenerated (g : gmap nat ObjectLiteral) (m : t) : t :=
  {| mainAlias := mainAlias m; insertColumns := insertColumns m;
     valuesSet := valuesSet m;
     returning := returning m; updateEntity := updateEntity m;
     useTransaction := useTransaction m; callListeners := callListeners m;
     onConflict := onConflict m; onIgnore := onIgnore m; onUpdate := onUpdate m;
     extraReturningColumns := extraReturningColumns m;
     locallyGenerated := g; parameters := parameters m |}.

Definition with_parameters (p : list Value) (m : t) : t :=
  {| mainAlias := mainAlias m; insertColumns := insertColumns m;
     valuesSet := valuesSet m;
     returning := returning m; updateEntity := updateEntity m;
     useTransaction := useTransaction m; callListeners := callListeners m;
     onConflict := onConflict m; onIgnore := onIgnore m; onUpdate := onUpdate m;
     extraReturningColumns := extraReturningColumns m;
     locallyGenerated := locallyGenerated m; parameters := p |}.
End QueryExpressionMap.

(** ** Query runner and results *)

(** Modelled from the spec: the raw engine result
    (query-runner/QueryResult is not among the sources). *)
Module QueryResult.
Record t : Type := { raw : string }.
End QueryResult.

(** Modelled from the spec: InsertResult (query-builder/result/InsertResult
    is not among the sources). An outcome holds the generated identifiers,
    the generated values and the raw engine result; [new InsertResult()] is
    the outcome with no identifiers, no generated values and no raw result. *)
Module InsertResult.
Record t : Type := {
  identifiers : list ObjectLiteral;
  generatedMaps : list ObjectLiteral;
  raw : option string;
}.
Definition new : t := {| identifiers := []; generatedMaps := []; raw := None |}.
Definition from (queryResult : QueryResult.t) : t :=
  {| identifiers := []; generatedMaps := [];
     raw := Some (QueryResult.raw queryResult) |}.
End InsertResult.

(** Modelled from the spec: the connection/transaction runner
    (query-runner/QueryRunner is not among the sources). It is opaque to the
    builder: each of its operations either completes or rejects with an
    error. *)
Module QueryRunner.
Record t : Type := {
  isTransactionActive : bool;
  startTransaction : Result unit;
  commitTransaction : Result unit;
  rollbackTransaction : Result unit;
  release : Result unit;
  query : Sql → list Value → Result QueryResult.t;
  (* [broadcaster.broadcast...Event(result, metadata, valueSet)]: the call
     throws, or it returns after adding to the broadcast result a completion
     that resolves or rejects once awaited *)
  broadcastBeforeInsertEvent : ObjectLiteral → Result (Result unit);
  broadcastAfterInsertEvent : ObjectLiteral → Result (Result unit);
}.
End QueryRunner.

(** Modelled from the spec: what [ReturningResultsEntityUpdator.insert] does
    (query-builder/ReturningResultsEntityUpdator is not among the sources).
    The call fills the outcome it is given with the generated identifiers and
    the generated values, merges generated values into the records it is
    given (the record of each index is rewritten in place), and its promise
    resolves or rejects. *)
Module EntityUpdate.
Record t : Type := {
  completion : Result unit;
  insertResult : InsertResult.t;
  entity : nat → ObjectLiteral → ObjectLiteral;
}.
End EntityUpdate.

(** A piece of the RETURNING/OUTPUT clause: literal text, or a value bound
    with [createParameter] (an output parameter of the Oracle driver). *)
Inductive ReturningPiece : Type :=
  | ReturningText (s : string)
  | ReturningParameter (value : Value).

(** Modelled from the spec: a UUID in its text form (util/RandomGenerator is
    not among the sources): five groups of hexadecimal digits, separated by
    hyphens. *)
Module Uuid.
Record t : Type := {
  timeLow : string;
  timeMid : string;
  timeHighAndVersion : string;
  clockSequence : string;
  node : string;
}.
Definition text (u : t) : string :=
  timeLow u +:+ "-" +:+ timeMid u +:+ "-" +:+ timeHighAndVersion u +:+ "-"
  +:+ clockSequence u +:+ "-" +:+ node u.
End Uuid.

(** ** The builder *)

(** Modelled from the spec: what the builder calls but does not define, the
    methods it inherits from [QueryBuilder] and the helpers around it. None
    of them is among the sources; each is a parameter of the model. *)
Module Inherited.
Record t : Type := {
  (* QueryBuilder *)
  createComment : string;
  getMainTableName : Alias.t → string;
  getTableName : string → string;
  escape : string → string;
  createFromAlias : string → Alias.t;
  (* the RETURNING/OUTPUT clause for the requested and the extra returning
     columns: its text, piece by piece, with the values that the method binds
     with [createParameter] at the places of their placeholders (the Oracle
     driver binds its output parameters) *)
  createReturningExpression :
    Driver.t → Alias.t → Returning → list ColumnMetadata.t → list ReturningPiece;
  (* RandomGenerator.uuid4: the value returned by the n-th call *)
  uuid4 : nat → Uuid.t;
  (* EntityMetadata.findColumnsWithPropertyPath *)
  findColumnsWithPropertyPath : EntityMetadata.t → string → list ColumnMetadata.t;
  (* ReturningResultsEntityUpdator, made of the runner and the expression
     map (line 88) *)
  getInsertionReturningColumns : Driver.t → Alias.t → list ColumnMetadata.t;
  updatorInsert :
    QueryRunner.t → QueryExpressionMap.t → InsertResult.t → list ObjectLiteral
    → EntityUpdate.t;
}.
End Inherited.

Record InsertQueryBuilder : Type := {
  driver : Driver.t;                      (* [this.connection.driver] *)
  createQueryRunner : QueryRunner.t;      (* [this.connection.createQueryRunner()] *)
  queryRunner : option QueryRunner.t;     (* [this.queryRunner] *)
  expressionMap : QueryExpressionMap.t;
  uuidsDrawn : nat;                       (* calls made to the random generator *)
  inherited : Inherited.t;
}.

Definition withExpressionMap (f : QueryExpressionMap.t → QueryExpressionMap.t)
  (this : InsertQueryBuilder) : InsertQueryBuilder :=
  {| driver := driver this; createQueryRunner := createQueryRunner this;
     queryRunner := queryRunner this; expressionMap := f (expressionMap this);
     uuidsDrawn := uuidsDrawn this; inherited := inherited this |}.

Definition withUuidsDrawn (n : nat) (this : InsertQueryBuilder) : InsertQueryBuilder :=
  {| driver := driver this; createQueryRunner := createQueryRunner this;
     queryRunner := queryRunner this; expressionMap := expressionMap this;
     uuidsDrawn := n; inherited := inherited this |}.

Inductive EntityTarget : Type :=
  | TargetSchema (name : string)   (* an [EntitySchema] with [options.name] *)
  | TargetOther (name : string).

Abbreviation Builder := (M InsertQueryBuilder).

(** [this.expressionMap.mainAlias!.metadata]: the getter throws when the alias
    has no metadata. *)
Definition getMetadata : Builder EntityMetadata.t :=
  λ this,
    match Alias.metadata (QueryExpressionMap.mainAlias (expressionMap this)) with
    | Some md => (Ok md, this)
    | None => (Throw (TypeORMError "Cannot get entity metadata for the given alias"), this)
    end.

(** Modelled from the spec: QueryBuilder.createParameter (QueryBuilder is not
    among the sources). The value is appended to the flat parameter array and
    the placeholder that refers to its position is returned. *)
Definition createParameter (value : Value) : Builder Sql :=
  λ this,
    let index := length (QueryExpressionMap.parameters (expressionMap this)) in
    (Ok [Placeholder index],
     withExpressionMap
       (λ m, QueryExpressionMap.with_parameters (QueryExpressionMap.parameters m ++ [value]) m)
       this).

(** ** Public methods that configure the builder *)

(** [values(values)] *)
Definition values (v : ValuesSet) : Builder unit :=
  modify (withExpressionMap (QueryExpressionMap.with_valuesSet v)).

(** [returning(returning)] *)
Definition returning (r : Returning) : Builder unit :=
  let* this := get in
  (* not all databases support returning/output cause *)
  if negb (Driver.isReturningSqlSupported (driver this))
  then throw ReturningStatementNotSupportedError
  else modify (withExpressionMap (QueryExpressionMap.with_returning r)).

(** [output(output)] *)
Definition output (o : Returning) : Builder unit := returning o.

(** [updateEntity(enabled)] *)
Definition updateEntity (enabled : bool) : Builder unit :=
  modify (withExpressionMap (QueryExpressionMap.with_updateEntity enabled)).

(** [onConflict(statement)] *)
Definition onConflict (statement : string) : Builder unit :=
  modify (withExpressionMap (QueryExpressionMap.with_onConflict statement)).

(** The argument of [orIgnore]: [string | boolean], [true] when omitted. *)
Inductive IgnoreStatement : Type :=
  | IgnoreString (s : string)
  | IgnoreBoolean (b : bool).

(** [!!statement] *)
Definition toBoolean (statement : IgnoreStatement) : bool :=
  match statement with
  | IgnoreString s => truthy s
  | IgnoreBoolean b => b
  end.

(** [orIgnore(statement = true)] *)
Definition orIgnore (statement : IgnoreStatement) : Builder unit :=
  modify (withExpressionMap (QueryExpressionMap.with_onIgnore (toBoolean statement))).

(** The two call shapes of [orUpdate]: the deprecated single object (possibly
    omitted) and the overwrite list with an optional conflict target. *)
Inductive OrUpdateArguments : Type :=
  | OrUpdateStatement (statement : option OnUpdate.t)
  | OrUpdateOverwrite (overwrite : list string) (conflictTarget : ConflictTarget).

(** [orUpdate(statementOrOverwrite, conflictTarget)] *)
Definition orUpdate (arguments : OrUpdateArguments) : Builder unit :=
  match arguments with
  | OrUpdateStatement statement =>
      modify (withExpressionMap (QueryExpressionMap.with_onUpdate (Some
        {| OnUpdate.conflict :=
             match statement with Some s => OnUpdate.conflict s | None => ConflictUndefined end;
           OnUpdate.columns := statement ≫= OnUpdate.columns;
           OnUpdate.overwrite := statement ≫= OnUpdate.overwrite |})))
  | OrUpdateOverwrite overwrite conflictTarget =>
      modify (withExpressionMap (QueryExpressionMap.with_onUpdate (Some
        {| OnUpdate.conflict := conflictTarget;
           OnUpdate.columns := None;
           OnUpdate.overwrite := Some overwrite |})))
  end.

(** ** Protected methods: value sets and column selection *)

(** [getValueSets()] *)
Definition getValueSets : Builder (list ObjectLiteral) :=
  let* this := get in
  match QueryExpressionMap.valuesSet (expressionMap this) with
  | ValuesArray l => ret l
  | ValuesObject o => ret [o]
  | ValuesUndefined => throw InsertValuesMissingError
  end.

(** [isOverridingAutoIncrementBehavior(column)] *)
Definition isOverridingAutoIncrementBehavior (column : ColumnMetadata.t) : Builder bool :=
  if ColumnMetadata.isPrimary column
     && ColumnMetadata.isGenerated column
     && bool_decide (ColumnMetadata.generationStrategy column = Some Increment)
  then
    let* valueSets := getValueSets in
    ret (existsb (λ valueSet, isProvided (getEntityValue column valueSet)) valueSets)
  else ret false.

(** [getInsertedColumns()] *)
Definition getInsertedColumns : Builder (list ColumnMetadata.t) :=
  let* this := get in
  let insertColumns := QueryExpressionMap.insertColumns (expressionMap this) in
  match Alias.metadata (QueryExpressionMap.mainAlias (expressionMap this)) with
  | None => ret []
  | Some metadata =>
      filterM (λ column,
        (* if user specified list of columns he wants to insert to, then we filter only them *)
        if 0 <? length insertColumns
        then ret (includes (ColumnMetadata.propertyPath column) insertColumns)
        (* skip columns the user doesn't want included by default *)
        else if negb (ColumnMetadata.isInsert column) then ret false
        (* all columns except the auto-increment one, with per-driver exceptions *)
        else if ColumnMetadata.isGenerated column
                && bool_decide (ColumnMetadata.generationStrategy column = Some Increment)
                && negb (instanceOf (driver this) OracleDriver)
                && negb (instanceOf (driver this) AbstractSqliteDriver)
                && negb (instanceOf (driver this) MysqlDriver)
                && negb (instanceOf (driver this) AuroraDataApiDriver)
        then
          if instanceOf (driver this) SqlServerDriver
          then isOverridingAutoIncrementBehavior column
          else ret false
        else ret true)
        (EntityMetadata.columns metadata)
  end.

(** [into(entityTarget, columns)] *)
Definition into (entityTarget : EntityTarget) (columns : option (list string)) : Builder unit :=
  let* this := get in
  let entityTarget :=
    match entityTarget with TargetSchema name => name | TargetOther name => name end in
  let mainAlias := Inherited.createFromAlias (inherited this) entityTarget in
  modify (withExpressionMap
            (QueryExpressionMap.with_into mainAlias (default [] columns))).

(** [createColumnNamesExpression()] *)
Definition createColumnNamesExpression : Builder string :=
  let* columns := getInsertedColumns in
  let* this := get in
  let escape := Inherited.escape (inherited this) in
  let insertColumns := QueryExpressionMap.insertColumns (expressionMap this) in
  let fromInsertColumns := String.concat ", " (escape <$> insertColumns) in
  if 0 <? length columns
  then ret (String.concat ", " ((λ column, escape (ColumnMetadata.databaseName column)) <$> columns))
  (* in the case if there are no insert columns specified and table without metadata used
     we get columns from the inserted value map, in the case if only one inserted map is specified *)
  else if negb (Alias.hasMetadata (QueryExpressionMap.mainAlias (expressionMap this)))
          && negb (0 <? length insertColumns)
  then
    let* valueSets := getValueSets in
    match valueSets with
    | [valueSet] => ret (String.concat ", " (escape <$> Object_keys valueSet))
    | _ => ret fromInsertColumns
    end
  (* get a table name and all column database names *)
  else ret fromInsertColumns.

(** ** Protected methods: the VALUES body *)

(** Modelled from the spec: [RandomGenerator.uuid4()] (util/RandomGenerator
    is not among the sources). Every call draws the next value of the
    generator. *)
Definition RandomGenerator_uuid4 : Builder Value :=
  λ this,
    (Ok (VData (Uuid.text (Inherited.uuid4 (inherited this) (uuidsDrawn this)))),
     withUuidsDrawn (S (uuidsDrawn this)) this).

(** [if (!(valueSetIndex in locallyGenerated)) locallyGenerated[valueSetIndex] = {};
     column.setEntityValue(locallyGenerated[valueSetIndex], value)] *)
Definition rememberLocallyGenerated (valueSetIndex : nat) (column : ColumnMetadata.t)
  (value : Value) : Builder unit :=
  modify (withExpressionMap (λ m,
    let generated := QueryExpressionMap.locallyGenerated m in
    QueryExpressionMap.with_locallyGenerated
      (<[valueSetIndex := setEntityValue column (default [] (generated !! valueSetIndex)) value]>
         generated)
      m)).

(** [column.getEntityValue(valueSet)], normalized by the driver unless it is a
    function (lines 493-506). *)
Definition persistentValue (driver : Driver.t) (column : ColumnMetadata.t)
  (valueSet : ObjectLiteral) : Value :=
  let value := getEntityValue column valueSet in
  if negb (isFunction value)
  then Driver.preparePersistentValue driver value column
  else value.

Definition isSpatial (driver : Driver.t) (column : ColumnMetadata.t) : bool :=
  includes (ColumnMetadata.type column) (Driver.spatialTypes driver).

(** The entry of one column in the tuple of one value set (lines 492-594 of
    the callback of [createValuesExpression]). *)
Definition columnValueExpression (valueSetsLength : nat) (valueSet : ObjectLiteral)
  (valueSetIndex : nat) (column : ColumnMetadata.t) : Builder Sql :=
  let* this := get in
  let driver := driver this in
  let value := persistentValue driver column valueSet in
  (* newly inserted entities always have a version equal to 1 (first version) *)
  if ColumnMetadata.isVersion column && isUndefined value then ret [Text "1"]
  else if ColumnMetadata.isDiscriminator column then
    let* metadata := getMetadata in
    createParameter (EntityMetadata.discriminatorValue metadata)
  (* generated uuid, the database cannot generate it and the user gave none *)
  else if ColumnMetadata.isGenerated column
          && bool_decide (ColumnMetadata.generationStrategy column = Some Uuid)
          && negb (Driver.isUUIDGenerationSupported driver)
          && isUndefined value
  then
    let* value := RandomGenerator_uuid4 in
    let* paramName := createParameter value in
    rememberLocallyGenerated valueSetIndex column value ;;
    ret paramName
  (* if value for this column was not provided then insert default value *)
  else if isUndefined value then
    if (instanceOf driver OracleDriver && (1 <? valueSetsLength))
       || instanceOf driver AbstractSqliteDriver
       || instanceOf driver SapDriver
    then
      if isProvided (ColumnMetadata.default column)
      then ret [Text (Driver.normalizeDefault driver column)]
      else ret [Text "NULL"]
    else ret [Text "DEFAULT"]
  else
    match value with
    (* support for SQL expressions in queries *)
    | VFunction sql => ret [Text sql]
    (* just any other regular value *)
    | _ =>
        let value :=
          if instanceOf driver SqlServerDriver
          then Driver.parametrizeValue driver column value
          else value in
        let* paramName := createParameter value in
        if (instanceOf driver MysqlDriver || instanceOf driver AuroraDataApiDriver)
           && isSpatial driver column
        then
          let geomFromText :=
            if Driver.legacySpatialSupport driver then "GeomFromText" else "ST_GeomFromText" in
          match ColumnMetadata.srid column with
          | Some srid =>
              ret (Text (geomFromText +:+ "(") :: paramName
                   ++ [Text (", " +:+ pretty srid +:+ ")")])
          | None => ret (Text (geomFromText +:+ "(") :: paramName ++ [Text ")"])
          end
        else if instanceOf driver PostgresDriver && isSpatial driver column
        then
          match ColumnMetadata.srid column with
          | Some srid =>
              ret (Text "ST_SetSRID(ST_GeomFromGeoJSON(" :: paramName
                   ++ [Text ("), " +:+ pretty srid +:+ ")::" +:+ ColumnMetadata.type column)])
          | None =>
              ret (Text "ST_GeomFromGeoJSON(" :: paramName
                   ++ [Text (")::" +:+ ColumnMetadata.type column)])
          end
        else if instanceOf driver SqlServerDriver && isSpatial driver column
        then
          ret (Text (ColumnMetadata.type column +:+ "::STGeomFromText(") :: paramName
               ++ [Text (", " +:+ from_option pretty "0" (ColumnMetadata.srid column) +:+ ")")])
        else ret paramName
    end.

(** The callback of the inner [columns.forEach] of [createValuesExpression],
    for tables with metadata. *)
Definition columnCallback (valueSetsLength columnsLength : nat) (valueSet : ObjectLiteral)
  (valueSetIndex : nat) (column : ColumnMetadata.t) (columnIndex : nat) : Builder Sql :=
  let* this := get in
  let oracleMultiRow := instanceOf (driver this) OracleDriver && (1 <? valueSetsLength) in
  let opening :=
    if columnIndex =? 0
    then (if oracleMultiRow then [Text " SELECT "] else [Text "("])
    else [] in
  let* value := columnValueExpression valueSetsLength valueSet valueSetIndex column in
  let closing :=
    if columnIndex =? columnsLength - 1 then
      if valueSetIndex =? valueSetsLength - 1
      then (if oracleMultiRow then " FROM DUAL " else ")")
      else (if oracleMultiRow then " FROM DUAL UNION ALL " else "), ")
    else ", " in
  ret (opening ++ value ++ [Text closing]).

(** The callback of the inner [columns.forEach] of [createValuesExpression],
    for tables without metadata. *)
Definition propertyCallback (valueSetsLength : nat) (valueSet : ObjectLiteral)
  (insertionIndex : nat) (columnName : string) (columnIndex : nat) : Builder Sql :=
  let* this := get in
  let opening := if columnIndex =? 0 then [Text "("] else [] in
  let value := getProperty valueSet columnName in
  let* entry :=
    match value with
    (* support for SQL expressions in queries *)
    | VFunction sql => ret [Text sql]
    (* if value for this column was not provided then insert default value *)
    | VUndefined =>
        if instanceOf (driver this) AbstractSqliteDriver || instanceOf (driver this) SapDriver
        then ret [Text "NULL"]
        else ret [Text "DEFAULT"]
    (* just any other regular value *)
    | _ => createParameter value
    end in
  let closing :=
    if columnIndex =? length (Object_keys valueSet) - 1 then
      if insertionIndex =? valueSetsLength - 1 then ")" else "), "
    else ", " in
  ret (opening ++ entry ++ [Text closing]).

(** [createValuesExpression()] *)
Definition createValuesExpression : Builder Sql :=
  let* valueSets := getValueSets in
  let* columns := getInsertedColumns in
  (* if column metadatas are given then apply all necessary operations with values *)
  if 0 <? length columns then
    let* expression :=
      forEach (λ valueSet valueSetIndex,
        forEach (columnCallback (length valueSets) (length columns) valueSet valueSetIndex)
                columns)
        valueSets in
    if String.eqb (render expression) "()" then ret [] else ret expression
  else (* for tables without metadata *)
    let* expression :=
      forEach (λ valueSet insertionIndex,
        forEach (propertyCallback (length valueSets) valueSet insertionIndex)
                (Object_keys valueSet))
        valueSets in
    if String.eqb (render expression) "()" then ret [] else ret expression.

(** ** Protected methods: the INSERT statement *)

(** [column => `${this.escape(column)} = ${right(column)}`] joined with [", "] *)
Definition assignments (escape : string → string) (right : string → string)
  (columns : list string) : string :=
  String.concat ", " ((λ column, escape column +:+ " = " +:+ right column) <$> columns).

(** [column => `${this.escape(column)} = :${column}`] joined with [", "]:
    [:column] is a placeholder named after the column. *)
Definition namedAssignments (escape : string → string) (columns : list string) : Sql :=
  joinSql ", "
    ((λ column, [Text (escape column +:+ " = "); NamedPlaceholder column]) <$> columns).

(** The upsert clause (lines 356-400 of [createInsertExpression]). In the
    [columns] policy, the placeholder [:column] names a parameter that the
    caller is to register under the column's name: this builder writes the
    placeholder and binds no value for it. *)
Definition upsertExpression : Builder Sql :=
  let* this := get in
  let m := expressionMap this in
  let escape := Inherited.escape (inherited this) in
  match Driver.supportedUpsertType (driver this) with
  | Some OnConflictDoUpdate =>
      if QueryExpressionMap.onIgnore m then ret [Text " ON CONFLICT DO NOTHING "]
      else if truthy (QueryExpressionMap.onConflict m)
      then ret [Text (" ON CONFLICT " +:+ QueryExpressionMap.onConflict m +:+ " ")]
      else
        match QueryExpressionMap.onUpdate m with
        | Some onUpdate =>
            let conflictTarget :=
              "ON CONFLICT" +:+
              match OnUpdate.conflict onUpdate with
              | ConflictColumns conflict =>
                  " ( " +:+ String.concat ", " (escape <$> conflict) +:+ " )"
              | ConflictString conflict =>
                  if truthy conflict then " ON CONSTRAINT " +:+ escape conflict else ""
              | ConflictUndefined => ""
              end in
            match OnUpdate.overwrite onUpdate, OnUpdate.columns onUpdate with
            | Some overwrite, _ =>
                ret [Text (" " +:+ conflictTarget +:+ " DO UPDATE SET ");
                     Text (assignments escape (λ column, "EXCLUDED." +:+ escape column) overwrite);
                     Text " "]
            | None, Some columns =>
                ret (Text (" " +:+ conflictTarget +:+ " DO UPDATE SET ")
                     :: namedAssignments escape columns ++ [Text " "])
            | None, None => ret []
            end
        | None => ret []
        end
  | Some OnDuplicateKeyUpdate =>
      match QueryExpressionMap.onUpdate m with
      | Some onUpdate =>
          match OnUpdate.overwrite onUpdate, OnUpdate.columns onUpdate with
          | Some overwrite, _ =>
              ret [Text " ON DUPLICATE KEY UPDATE ";
                   Text (assignments escape
                           (λ column, "VALUES(" +:+ escape column +:+ ")") overwrite);
                   Text " "]
          | None, Some columns =>
              ret (Text " ON DUPLICATE KEY UPDATE "
                   :: namedAssignments escape columns ++ [Text " "])
          | None, None => ret []
          end
      | None => ret []
      end
  | None =>
      match QueryExpressionMap.onUpdate m with
      | Some _ => throw (TypeORMError "onUpdate is not supported by the current database driver")
      | None => ret []
      end
  end.

(** [this.createReturningExpression()]: the inherited method builds the text
    of the clause, binding its values with [createParameter] as it goes. *)
Definition callCreateReturningExpression : Builder Sql :=
  let* this := get in
  forEach (λ piece _,
             match piece with
             | ReturningText s => ret [Text s]
             | ReturningParameter value => createParameter value
             end)
    (Inherited.createReturningExpression (inherited this) (driver this)
       (QueryExpressionMap.mainAlias (expressionMap this))
       (QueryExpressionMap.returning (expressionMap this))
       (QueryExpressionMap.extraReturningColumns (expressionMap this))).

(** [driver instanceof OracleDriver && this.getValueSets().length > 1] *)
Definition isOracleMultiRow : Builder bool :=
  let* this := get in
  if instanceOf (driver this) OracleDriver
  then (let* valueSets := getValueSets in ret (1 <? length valueSets))
  else ret false.

(** The columns inspected for an explicit auto-increment value (line 413). *)
Definition identityInsertCandidates (m : QueryExpressionMap.t) (metadata : EntityMetadata.t)
  : list ColumnMetadata.t :=
  filter (λ column,
            (if 0 <? length (QueryExpressionMap.insertColumns m)
             then includes (ColumnMetadata.propertyPath column) (QueryExpressionMap.insertColumns m)
             else ColumnMetadata.isInsert column) = true)
         (EntityMetadata.columns metadata).

(** The condition of the IDENTITY_INSERT wrapper (lines 410-415). *)
Definition needsIdentityInsert : Builder bool :=
  let* this := get in
  if instanceOf (driver this) SqlServerDriver
     && Alias.hasMetadata (QueryExpressionMap.mainAlias (expressionMap this))
  then
    let* metadata := getMetadata in
    someM isOverridingAutoIncrementBehavior
          (identityInsertCandidates (expressionMap this) metadata)
  else ret false.

(** [createInsertExpression()] *)
Definition createInsertExpression : Builder Sql :=
  let* this := get in
  let driver := driver this in
  let mysqlLike := instanceOf driver MysqlDriver || instanceOf driver AuroraDataApiDriver in
  let tableName :=
    Inherited.getTableName (inherited this)
      (Inherited.getMainTableName (inherited this)
         (QueryExpressionMap.mainAlias (expressionMap this))) in
  (* its important to get values before returning expression because oracle rely on
     native parameters and ordering of them is important *)
  let* valuesExpression := createValuesExpression in
  (* oracle doesnt support returning with multi-row insert: [null] is the empty text *)
  let* oracleMultiRow := isOracleMultiRow in
  let* returningExpression :=
    if oracleMultiRow then ret [] else callCreateReturningExpression in
  let* columnsExpression := createColumnNamesExpression in
  let* this := get in
  let query := [Text "INSERT "] in
  let query := query ++
    (if mysqlLike
     then [Text (if QueryExpressionMap.onIgnore (expressionMap this) then " IGNORE " else "")]
     else []) in
  let query := query ++ [Text ("INTO " +:+ tableName)] in
  (* add columns expression *)
  let query := query ++
    (if truthy columnsExpression then [Text ("(" +:+ columnsExpression +:+ ")")]
     else if negb (truthy (render valuesExpression)) && mysqlLike then [Text "()"]
     else []) in
  (* add OUTPUT expression *)
  let query := query ++
    (if truthy (render returningExpression) && instanceOf driver SqlServerDriver
     then Text " OUTPUT " :: returningExpression
     else []) in
  (* add VALUES expression *)
  let* valuesIntroducer :=
    if truthy (render valuesExpression) then
      let* oracleMultiRow := isOracleMultiRow in
      ret (if oracleMultiRow then Text " " :: valuesExpression
           else Text " VALUES " :: valuesExpression)
    else if mysqlLike then ret [Text " VALUES ()"]
    else ret [Text " DEFAULT VALUES"] in
  let query := query ++ valuesIntroducer in
  let* upsert := upsertExpression in
  let query := query ++ upsert in
  (* add RETURNING expression *)
  let query := query ++
    (if truthy (render returningExpression)
        && (instanceOf driver PostgresDriver || instanceOf driver OracleDriver
            || instanceOf driver CockroachDriver)
     then Text " RETURNING " :: returningExpression
     else []) in
  (* Inserting a specific value for an auto-increment primary key in mssql requires
     enabling IDENTITY_INSERT *)
  let* identityInsert := needsIdentityInsert in
  if identityInsert
  then ret (Text ("SET IDENTITY_INSERT " +:+ tableName +:+ " ON; ") :: query
            ++ [Text ("; SET IDENTITY_INSERT " +:+ tableName +:+ " OFF")])
  else ret query.

(** ** [getQuery] *)

(** [String.prototype.trim], on strings and on texts with placeholders. *)
Fixpoint trimStart (s : string) : string :=
  match s with
  | String a s' => if Ascii.is_space a then trimStart s' else s
  | EmptyString => EmptyString
  end.

Definition trimEnd (s : string) : string := String.rev (trimStart (String.rev s)).

Definition trim (s : string) : string := trimEnd (trimStart s).

Fixpoint trimStartSql (q : Sql) : Sql :=
  match q with
  | Text s :: q' =>
      match trimStart s with
      | EmptyString => trimStartSql q'
      | s' => Text s' :: q'
      end
  | _ => q
  end.

Fixpoint trimEndSql (q : Sql) : Sql :=
  match q with
  | [] => []
  | p :: q' =>
      match trimEndSql q' with
      | [] =>
          match p with
          | Text s => match trimEnd s with EmptyString => [] | s' => [Text s'] end
          | _ => [p]
          end
      | rest => p :: rest
      end
  end.

Definition trimSql (q : Sql) : Sql := trimEndSql (trimStartSql q).

(** [getQuery()] *)
Definition getQuery : Builder Sql :=
  let* this := get in
  let sql := [Text (Inherited.createComment (inherited this))] in
  let* insertExpression := createInsertExpression in
  ret (trimSql (sql ++ insertExpression)).

(** The value that a placeholder of the text refers to: the one that
    [createParameter] bound under its index. A named placeholder refers to a
    parameter that the caller registers under that name
    ([QueryBuilder.setParameter], not among the sources): this builder binds
    none. *)
Definition boundValue (parameters : list Value) (p : Piece) : option Value :=
  match p with
  | Placeholder index => parameters !! index
  | _ => None
  end.

(** Modelled from the spec: QueryBuilder.getQueryAndParameters (QueryBuilder
    is not among the sources). It produces the pair of the SQL text and the
    flat parameter array, whose entries are the values bound to the
    placeholders of the text, in order of occurrence. *)
Definition getQueryAndParameters : Builder (Sql * list Value) :=
  let* query := getQuery in
  let* this := get in
  ret (query,
       omap (boundValue (QueryExpressionMap.parameters (expressionMap this)))
            (placeholders query)).

(** ** [execute] *)

(** The calls [execute] makes on its collaborators, in order. *)
Inductive Event : Type :=
  | CreateQueryRunner
  | StartTransaction
  | BroadcastBeforeInsert (valueSet : ObjectLiteral)
  | Query (sql : Sql) (parameters : list Value)
  | UpdateEntity
  | BroadcastAfterInsert (valueSet : ObjectLiteral)
  | CommitTransaction
  | RollbackTransaction
  | Release.

Record Execution : Type := {
  builder : InsertQueryBuilder;
  events : list Event;
  transactionStartedByUs : bool;   (* the local variable shared by try and catch *)
}.

Abbreviation Exec := (M Execution).

Definition onBuilder {A} (m : Builder A) : Exec A :=
  λ st,
    let '(r, b) := m (builder st) in
    (r, {| builder := b; events := events st;
           transactionStartedByUs := transactionStartedByUs st |}).

Definition emit (e : Event) : Exec unit :=
  modify (λ st, {| builder := builder st; events := events st ++ [e];
                   transactionStartedByUs := transactionStartedByUs st |}).

Definition setTransactionStartedByUs (b : bool) : Exec unit :=
  modify (λ st, {| builder := builder st; events := events st;
                   transactionStartedByUs := b |}).

(** [await call]: the call is made, then it completes or rejects. *)
Definition await {A} (e : Event) (outcome : Result A) : Exec A :=
  emit e ;; (λ st, (outcome, st)).

(** [try { body } catch (error) { handler }] *)
Definition tryCatch {St A} (body : M St A) (handler : Error → M St A) : M St A :=
  λ st,
    match body st with
    | (Ok a, st') => (Ok a, st')
    | (Throw e, st') => handler e st'
    end.

(** [try { body } finally { finalizer }]: an error thrown by the finalizer
    replaces the completion of the body. *)
Definition tryFinally {St A} (body : M St A) (finalizer : M St unit) : M St A :=
  λ st,
    let '(r, st') := body st in
    match finalizer st' with
    | (Ok _, st'') => (r, st'')
    | (Throw e, st'') => (Throw e, st'')
    end.

Fixpoint firstRejection (outcomes : list (Result unit)) : Result unit :=
  match outcomes with
  | [] => Ok tt
  | Ok _ :: rest => firstRejection rest
  | Throw e :: _ => Throw e
  end.

(** [valueSets.forEach(valueSet => broadcaster.broadcast...(result, metadata, valueSet))]:
    a call that throws ends the loop; the others leave in the broadcast
    result what is to be awaited. *)
Fixpoint broadcastEach (event : ObjectLiteral → Event)
  (call : ObjectLiteral → Result (Result unit)) (valueSets : list ObjectLiteral)
  : Exec (list (Result unit)) :=
  match valueSets with
  | [] => ret []
  | valueSet :: rest =>
      let* pending := await (event valueSet) (call valueSet) in
      let* others := broadcastEach event call rest in
      ret (pending :: others)
  end.

(** [const broadcastResult = new BroadcasterResult(); valueSets.forEach(...);
     await broadcastResult.wait()] *)
Definition broadcast (event : ObjectLiteral → Event)
  (call : ObjectLiteral → Result (Result unit)) (valueSets : list ObjectLiteral) : Exec unit :=
  let* pending := broadcastEach event call valueSets in
  (λ st, (firstRejection pending, st)).

(** Modelled from the spec: QueryBuilder.obtainQueryRunner (QueryBuilder is
    not among the sources). The caller-supplied runner is used when there is
    one; otherwise a runner is acquired for this call. The flag tells whether
    [queryRunner !== this.queryRunner]. *)
Definition obtainQueryRunner : Exec (QueryRunner.t * bool) :=
  let* st := get in
  match queryRunner (builder st) with
  | Some runner => ret (runner, false)
  | None => emit CreateQueryRunner ;; ret (createQueryRunner (builder st), true)
  end.

Definition newline : string := String (Ascii.ascii_of_nat 10) EmptyString.

Definition listenersEnabled (m : QueryExpressionMap.t) : bool :=
  QueryExpressionMap.callListeners m && Alias.hasMetadata (QueryExpressionMap.mainAlias m).

Definition entityUpdateEnabled (m : QueryExpressionMap.t) : bool :=
  QueryExpressionMap.updateEntity m && Alias.hasMetadata (QueryExpressionMap.mainAlias m).

(** The value sets are the caller's records themselves: [getValueSets]
    returns the array given to [values], or a new array around the single
    object given to it. What is written into the records is therefore
    written into [expressionMap.valuesSet]. *)
Definition withValueSets (valueSets : list ObjectLiteral) (v : ValuesSet) : ValuesSet :=
  match v, valueSets with
  | ValuesArray _, _ => ValuesArray valueSets
  | ValuesObject _, [valueSet] => ValuesObject valueSet
  | _, _ => v
  end.

(** [await returningResultsEntityUpdator.insert(insertResult, valueSets)]: the
    outcome object and the records are left as the updator rewrote them,
    whether its promise resolves or rejects. *)
Definition updateEntities (queryRunner : QueryRunner.t) (insertResult : InsertResult.t)
  (valueSets : list ObjectLiteral) : Exec (InsertResult.t * list ObjectLiteral) :=
  let* st := get in
  let update :=
    Inherited.updatorInsert (inherited (builder st)) queryRunner (expressionMap (builder st))
      insertResult valueSets in
  let updated := imap (EntityUpdate.entity update) valueSets in
  emit UpdateEntity ;;
  onBuilder (modify (withExpressionMap (λ m,
    QueryExpressionMap.with_valuesSet (withValueSets updated (QueryExpressionMap.valuesSet m))
      m))) ;;
  (λ st, (EntityUpdate.completion update, st)) ;;
  ret (EntityUpdate.insertResult update, updated).

(** The [try] block of [execute] (lines 64-154). *)
Definition tryBlock (queryRunner : QueryRunner.t) (valueSets : list ObjectLiteral)
  : Exec InsertResult.t :=
  let* st := get in
  (* start transaction if it was enabled *)
  (if QueryExpressionMap.useTransaction (expressionMap (builder st))
      && negb (QueryRunner.isTransactionActive queryRunner)
   then await StartTransaction (QueryRunner.startTransaction queryRunner) ;;
        setTransactionStartedByUs true
   else ret tt) ;;
  (* call before insertion methods in listeners and subscribers *)
  (if listenersEnabled (expressionMap (builder st))
   then broadcast BroadcastBeforeInsert (QueryRunner.broadcastBeforeInsertEvent queryRunner)
          valueSets
   else ret tt) ;;
  (* if update entity mode is enabled we may need extra columns for the returning statement *)
  let m := expressionMap (builder st) in
  let metadata := Alias.metadata (QueryExpressionMap.mainAlias m) in
  let returningColumns :=
    match QueryExpressionMap.returning m, metadata with
    | ReturningColumns paths, Some metadata =>
        paths ≫= Inherited.findColumnsWithPropertyPath (inherited (builder st)) metadata
    | _, _ => []
    end in
  let* returningColumns :=
    if entityUpdateEnabled m then
      (if negb ((1 <? length valueSets) && instanceOf (driver (builder st)) OracleDriver)
       then onBuilder (modify (withExpressionMap
              (QueryExpressionMap.with_extraReturningColumns
                 (Inherited.getInsertionReturningColumns (inherited (builder st))
                    (driver (builder st)) (QueryExpressionMap.mainAlias m)))))
       else ret tt) ;;
      let* st := get in
      ret (returningColumns ++
           filter (λ c, c ∉ returningColumns)
                  (QueryExpressionMap.extraReturningColumns (expressionMap (builder st))))
    else ret returningColumns in
  let outputTable :=
    (0 <? length returningColumns) && instanceOf (driver (builder st)) SqlServerDriver in
  let declareSql :=
    if outputTable
    then Some [Text (Driver.buildTableVariableDeclaration (driver (builder st))
                       "@OutputTable" returningColumns)]
    else None in
  let selectOutputSql :=
    if outputTable then Some [Text "SELECT * FROM @OutputTable"] else None in
  (* execute query *)
  let* (insertSql, parameters) := onBuilder getQueryAndParameters in
  let statements := [declareSql; Some insertSql; selectOutputSql] in
  let sql := joinSql (";" +:+ newline +:+ newline) (omap id statements) in
  let* queryResult := await (Query sql parameters) (QueryRunner.query queryRunner sql parameters) in
  let insertResult := InsertResult.from queryResult in
  (* load returning results and set them to the entity if entity updation is enabled *)
  let* st := get in
  let* (insertResult, valueSets) :=
    if entityUpdateEnabled (expressionMap (builder st))
    then updateEntities queryRunner insertResult valueSets
    else ret (insertResult, valueSets) in
  (* call after insertion methods in listeners and subscribers *)
  (if listenersEnabled (expressionMap (builder st))
   then broadcast BroadcastAfterInsert (QueryRunner.broadcastAfterInsertEvent queryRunner)
          valueSets
   else ret tt) ;;
  (* close transaction if we started it *)
  let* st := get in
  (if transactionStartedByUs st
   then await CommitTransaction (QueryRunner.commitTransaction queryRunner)
   else ret tt) ;;
  ret insertResult.

(** The [catch] block of [execute] (lines 156-165). *)
Definition catchBlock (queryRunner : QueryRunner.t) (error : Error) : Exec InsertResult.t :=
  let* st := get in
  (* rollback transaction if we started it *)
  (if transactionStartedByUs st
   then tryCatch (await RollbackTransaction (QueryRunner.rollbackTransaction queryRunner))
                 (λ rollbackError, ret tt)
   else ret tt) ;;
  throw error.

(** The [finally] block of [execute] (lines 166-174). *)
Definition finallyBlock (queryRunner : QueryRunner.t) (created : bool) : Exec unit :=
  if created (* means we created our own query runner *)
  then await Release (QueryRunner.release queryRunner)
  else ret tt.

(** [execute()] *)
Definition execute : Exec InsertResult.t :=
  let* valueSets := onBuilder getValueSets in
  (* If user passed empty array of entities then we don't need to do anything. *)
  if length valueSets =? 0 then ret InsertResult.new
  else
    let* (queryRunner, created) := obtainQueryRunner in
    setTransactionStartedByUs false ;;
    tryFinally
      (tryCatch (tryBlock queryRunner valueSets) (catchBlock queryRunner))
      (finallyBlock queryRunner created).

(** A run of [execute] on a builder, from an empty record of calls. *)
Definition run (this : InsertQueryBuilder) : Result InsertResult.t * Execution :=
  execute {| builder := this; events := []; transactionStartedByUs := false |}.

(** ** Vocabulary of the specification *)

(** The builder after a compilation step: only the parameter array, the
    locally generated values and the count of generated UUIDs change. *)
Definition touch (parameters : list Value) (generated : gmap nat ObjectLiteral) (drawn : nat)
  (this : InsertQueryBuilder) : InsertQueryBuilder :=
  withUuidsDrawn drawn
    (withExpressionMap
       (λ m, QueryExpressionMap.with_parameters parameters
               (QueryExpressionMap.with_locallyGenerated generated m))
       this).

(** [pairs this m]: from every state of the builder [this], the step [m]
    succeeds, and each value it appends to the parameter array has its
    placeholder in the text it returns, in the same order. *)
Definition pairs (this : InsertQueryBuilder) (m : Builder Sql) : Prop :=
  ∀ p g n, ∃ q added g' n',
    m (touch p g n this) = (Ok q, touch (p ++ added) g' n' this)
    ∧ placeholders q = Placeholder <$> seq (length p) (length added).

(** The indexes of the placeholders that [createParameter] returned, and the
    names of the named placeholders, in order of occurrence. *)
Definition indexes (q : Sql) : list nat :=
  omap (λ p, match p with Placeholder index => Some index | _ => None end) q.

Definition names (q : Sql) : list string :=
  omap (λ p, match p with NamedPlaceholder name => Some name | _ => None end) q.


Definition colon : Ascii.ascii := Ascii.ascii_of_nat 58.

(** Whether a character occurs in a string. *)
Fixpoint mentions (c : Ascii.ascii) (s : string) : bool :=
  match s with
  | EmptyString => false
  | String a s' => bool_decide (a = c) || mentions c s'
  end.

(** The columns that take part in the INSERT, as [getInsertedColumns]
    selects them once the value sets are known. *)
Definition overrides (valueSets : list ObjectLiteral) (column : ColumnMetadata.t) : bool :=
  ColumnMetadata.isPrimary column
  && ColumnMetadata.isGenerated column
  && bool_decide (ColumnMetadata.generationStrategy column = Some Increment)
  && existsb (λ valueSet, isProvided (getEntityValue column valueSet)) valueSets.

Definition selects (driver : Driver.t) (insertColumns : list string)
  (valueSets : list ObjectLiteral) (column : ColumnMetadata.t) : bool :=
  if 0 <? length insertColumns
  then includes (ColumnMetadata.propertyPath column) insertColumns
  else if negb (ColumnMetadata.isInsert column) then false
  else if ColumnMetadata.isGenerated column
          && bool_decide (ColumnMetadata.generationStrategy column = Some Increment)
          && negb (instanceOf driver OracleDriver)
          && negb (instanceOf driver AbstractSqliteDriver)
          && negb (instanceOf driver MysqlDriver)
          && negb (instanceOf driver AuroraDataApiDriver)
  then (if instanceOf driver SqlServerDriver then overrides valueSets column else false)
  else true.

Definition insertedColumns (this : InsertQueryBuilder) (valueSets : list ObjectLiteral)
  : list ColumnMetadata.t :=
  match Alias.metadata (QueryExpressionMap.mainAlias (expressionMap this)) with
  | None => []
  | Some metadata =>
      filter (λ column,
                selects (driver this) (QueryExpressionMap.insertColumns (expressionMap this))
                        valueSets column = true)
             (EntityMetadata.columns metadata)
  end.

Definition generatesUuid (driver : Driver.t) (column : ColumnMetadata.t) (valueSet : ObjectLiteral) : bool :=
  negb (ColumnMetadata.isVersion column && isUndefined (persistentValue driver column valueSet))
  && negb (ColumnMetadata.isDiscriminator column)
  && (ColumnMetadata.isGenerated column
      && bool_decide (ColumnMetadata.generationStrategy column = Some Uuid)
      && negb (Driver.isUUIDGenerationSupported driver)
      && isUndefined (persistentValue driver column valueSet)).

Definition columnNames (this : InsertQueryBuilder) (valueSets : list ObjectLiteral) : string :=
  let escape := Inherited.escape (inherited this) in
  let insertColumns := QueryExpressionMap.insertColumns (expressionMap this) in
  let columns := insertedColumns this valueSets in
  if 0 <? length columns
  then String.concat ", " ((λ column, escape (ColumnMetadata.databaseName column)) <$> columns)
  else
    match valueSets with
    | [valueSet] =>
        if negb (Alias.hasMetadata (QueryExpressionMap.mainAlias (expressionMap this)))
           && negb (0 <? length insertColumns)
        then String.concat ", " (escape <$> Object_keys valueSet)
        else String.concat ", " (escape <$> insertColumns)
    | _ => String.concat ", " (escape <$> insertColumns)
    end.

Definition identityInsertNeeded (this : InsertQueryBuilder) (valueSets : list ObjectLiteral) : bool :=
  match Alias.metadata (QueryExpressionMap.mainAlias (expressionMap this)) with
  | Some metadata =>
      instanceOf (driver this) SqlServerDriver
      && existsb (overrides valueSets) (identityInsertCandidates (expressionMap this) metadata)
  | None => false
  end.

Definition tableNameOf (this : InsertQueryBuilder) : string :=
  Inherited.getTableName (inherited this)
    (Inherited.getMainTableName (inherited this)
       (QueryExpressionMap.mainAlias (expressionMap this))).

Definition isMysqlLike (driver : Driver.t) : bool :=
  instanceOf driver MysqlDriver || instanceOf driver AuroraDataApiDriver.

Definition oracleMultiRow (this : InsertQueryBuilder) (valueSets : list ObjectLiteral) : bool :=
  instanceOf (driver this) OracleDriver && (1 <? length valueSets).

(** The statement up to and including the VALUES body. *)
Definition beforeUpsert (this : InsertQueryBuilder) (valueSets : list ObjectLiteral)
  (valuesExpression returningExpression : Sql) : Sql :=
  ((((([Text "INSERT "]
   ++ (if isMysqlLike (driver this)
       then [Text (if QueryExpressionMap.onIgnore (expressionMap this) then " IGNORE " else "")]
       else []))
   ++ [Text ("INTO " +:+ tableNameOf this)])
   ++ (if truthy (columnNames this valueSets)
       then [Text ("(" +:+ columnNames this valueSets +:+ ")")]
       else if negb (truthy (render valuesExpression)) && isMysqlLike (driver this)
            then [Text "()"] else []))
   ++ (if truthy (render returningExpression) && instanceOf (driver this) SqlServerDriver
       then Text " OUTPUT " :: returningExpression else []))
   ++ (if truthy (render valuesExpression)
       then (if oracleMultiRow this valueSets
             then Text " " :: valuesExpression
             else Text " VALUES " :: valuesExpression)
       else if isMysqlLike (driver this) then [Text " VALUES ()"]
            else [Text " DEFAULT VALUES"])).

(** The statement after the upsert clause. *)
Definition afterUpsert (this : InsertQueryBuilder) (returningExpression : Sql) : Sql :=
  if truthy (render returningExpression)
     && (instanceOf (driver this) PostgresDriver || instanceOf (driver this) OracleDriver
         || instanceOf (driver this) CockroachDriver)
  then Text " RETURNING " :: returningExpression
  else [].

Definition identityInsertWrapper (needed : bool) (tableName : string) (query : Sql) : Sql :=
  if needed
  then Text ("SET IDENTITY_INSERT " +:+ tableName +:+ " ON; ") :: query
       ++ [Text ("; SET IDENTITY_INSERT " +:+ tableName +:+ " OFF")]
  else query.

(** The text of the pieces of a RETURNING/OUTPUT clause and the values they
    bind, when the parameter array holds [index] values. *)
Fixpoint bindReturning (pieces : list ReturningPiece) (index : nat) : Sql * list Value :=
  match pieces with
  | [] => ([], [])
  | ReturningText s :: rest =>
      let '(text, bound) := bindReturning rest index in (Text s :: text, bound)
  | ReturningParameter value :: rest =>
      let '(text, bound) := bindReturning rest (S index) in
      (Placeholder index :: text, value :: bound)
  end.

(** The RETURNING/OUTPUT text and the values it binds, when the parameter
    array holds [index] values. *)
Definition returningOf (this : InsertQueryBuilder) (valueSets : list ObjectLiteral) (index : nat)
  : Sql * list Value :=
  if oracleMultiRow this valueSets then ([], [])
  else bindReturning
         (Inherited.createReturningExpression (inherited this) (driver this)
            (QueryExpressionMap.mainAlias (expressionMap this))
            (QueryExpressionMap.returning (expressionMap this))
            (QueryExpressionMap.extraReturningColumns (expressionMap this)))
         index.

Definition triple {St A} (P : St → Prop) (m : M St A) (Q : A → St → Prop)
  (E : Error → St → Prop) : Prop :=
  ∀ s, P s → match m s with (Ok a, s') => Q a s' | (Throw e, s') => E e s' end.

Definition sameRequest (this b : InsertQueryBuilder) : Prop :=
  ∃ columns, b = withExpressionMap (QueryExpressionMap.with_extraReturningColumns columns) this.

Definition statementText (s : option string) : option Sql := (λ text, [Text text]) <$> s.

Definition runnerOf (this : InsertQueryBuilder) : QueryRunner.t :=
  default (createQueryRunner this) (queryRunner this).

Definition ownsRunner (this : InsertQueryBuilder) : bool :=
  match queryRunner this with Some _ => false | None => true end.

Definition initialState (this : InsertQueryBuilder) : Execution :=
  {| builder := this; events := []; transactionStartedByUs := false |}.

Definition entryState (this : InsertQueryBuilder) : Execution :=
  {| builder := this;
     events := if ownsRunner this then [CreateQueryRunner] else [];
     transactionStartedByUs := false |}.

Definition returningKind (driver : Driver.t) : bool :=
  instanceOf driver PostgresDriver || instanceOf driver OracleDriver
  || instanceOf driver CockroachDriver.



Definition transactional (e : Event) : Prop :=
  e = StartTransaction ∨ e = CommitTransaction ∨ e = RollbackTransaction.

(** [text.startsWith(pattern)] *)
Fixpoint startsWith (pattern text : string) : bool :=
  match pattern with
  | EmptyString => true
  | String a pattern' =>
      match text with
      | EmptyString => false
      | String b text' => bool_decide (a = b) && startsWith pattern' text'
      end
  end.

(** The number of positions of [text] at which [pattern] occurs. *)
Fixpoint occurrences (pattern text : string) : nat :=
  match text with
  | EmptyString => 0
  | String _ text' => (if startsWith pattern text then 1 else 0) + occurrences pattern text'
  end.

(** No proper, non-empty suffix of [pattern] begins the text [next]: an
    occurrence cannot start before [next] and end inside it. *)
Fixpoint noOverlapInto (pattern next : string) : bool :=
  match pattern with
  | EmptyString => true
  | String _ pattern' =>
      match pattern' with
      | EmptyString => true
      | _ => negb (startsWith pattern' next) && noOverlapInto pattern' next
      end
  end.

(** No non-empty suffix of [previous] that is shorter than [pattern] begins
    [pattern]: an occurrence cannot start inside [previous] and end after it. *)
Fixpoint noOverlapOutOf (pattern previous : string) : bool :=
  match previous with
  | EmptyString => true
  | String _ previous' =>
      ((String.length pattern <=? String.length previous) || negb (startsWith previous pattern))
      && noOverlapOutOf pattern previous'
  end.


(** The text of the statement that [createInsertExpression] compiles, if it
    compiles. *)
Definition compiledText (this : InsertQueryBuilder) : option string :=
  match (createInsertExpression this).1 with
  | Ok sql => Some (render sql)
  | Throw _ => None
  end.

Definition identityInsertOn (needed : bool) (tableName : string) : string :=
  if needed then "SET IDENTITY_INSERT " +:+ tableName +:+ " ON; " else "".

Definition identityInsertOff (needed : bool) (tableName : string) : string :=
  if needed then "; SET IDENTITY_INSERT " +:+ tableName +:+ " OFF" else "".

(** ** Sample drivers, tables and builders *)

Definition plainColumn (name : string) : ColumnMetadata.t :=
  {| ColumnMetadata.propertyPath := name; ColumnMetadata.databaseName := name;
     ColumnMetadata.isPrimary := false; ColumnMetadata.isGenerated := false;
     ColumnMetadata.generationStrategy := None; ColumnMetadata.isInsert := true;
     ColumnMetadata.isVersion := false; ColumnMetadata.isDiscriminator := false;
     ColumnMetadata.default := VUndefined; ColumnMetadata.type := "varchar";
     ColumnMetadata.srid := None |}.

Definition idColumn : ColumnMetadata.t :=
  {| ColumnMetadata.propertyPath := "id"; ColumnMetadata.databaseName := "id";
     ColumnMetadata.isPrimary := true; ColumnMetadata.isGenerated := true;
     ColumnMetadata.generationStrategy := Some Increment; ColumnMetadata.isInsert := true;
     ColumnMetadata.isVersion := false; ColumnMetadata.isDiscriminator := false;
     ColumnMetadata.default := VUndefined; ColumnMetadata.type := "int";
     ColumnMetadata.srid := None |}.


Definition sampleDriver (kind : DriverKind) (upsert : option UpsertType) (returning : bool)
  : Driver.t :=
  {| Driver.kind := kind; Driver.supportedUpsertType := upsert;
     Driver.isReturningSqlSupported := returning;
     Driver.isUUIDGenerationSupported := false;
     Driver.preparePersistentValue := λ value _, value;
     Driver.normalizeDefault := λ _, "0";
     Driver.parametrizeValue := λ _ value, value;
     Driver.spatialTypes := ["geometry"];
     Driver.legacySpatialSupport := false;
     Driver.buildTableVariableDeclaration :=
       λ name _, "DECLARE " +:+ name +:+ " TABLE (id int)" |}.

Definition postgres : Driver.t := sampleDriver PostgresDriver (Some OnConflictDoUpdate) true.
Definition mysql : Driver.t := sampleDriver MysqlDriver (Some OnDuplicateKeyUpdate) false.
Definition sqlserver : Driver.t := sampleDriver SqlServerDriver None true.

Definition sampleRunner (query release : Result unit) : QueryRunner.t :=
  {| QueryRunner.isTransactionActive := false;
     QueryRunner.startTransaction := Ok tt;
     QueryRunner.commitTransaction := Ok tt;
     QueryRunner.rollbackTransaction := Ok tt;
     QueryRunner.release := release;
     QueryRunner.query :=
       λ _ _, match query with
              | Ok _ => Ok {| QueryResult.raw := "1 row" |}
              | Throw e => Throw e
              end;
     QueryRunner.broadcastBeforeInsertEvent := λ _, Ok (Ok tt);
     QueryRunner.broadcastAfterInsertEvent := λ _, Ok (Ok tt) |}.

Definition busyRunner : QueryRunner.t :=
  {| QueryRunner.isTransactionActive := true;
     QueryRunner.startTransaction := Ok tt;
     QueryRunner.commitTransaction := Ok tt;
     QueryRunner.rollbackTransaction := Ok tt;
     QueryRunner.release := Ok tt;
     QueryRunner.query := λ _ _, Throw (RuntimeError "duplicate key");
     QueryRunner.broadcastBeforeInsertEvent := λ _, Ok (Ok tt);
     QueryRunner.broadcastAfterInsertEvent := λ _, Ok (Ok tt) |}.

(** Output parameters are bound on the Oracle driver only, one per returning
    column. *)
Definition sampleReturningExpression (driver : Driver.t) (alias : Alias.t)
  (returning : Returning) (extra : list ColumnMetadata.t) : list ReturningPiece :=
  match returning with
  | ReturningString text => [ReturningText text]
  | ReturningColumns columns =>
      if bool_decide (Driver.kind driver = OracleDriver)
      then ReturningText (String.concat ", " columns +:+ " INTO ")
           :: ((λ _, ReturningParameter (VData "out")) <$> columns)
      else [ReturningText (String.concat ", " columns)]
  end.

Definition sampleUuid (n : nat) : Uuid.t :=
  {| Uuid.timeLow := "0000000" +:+ pretty n; Uuid.timeMid := "0000";
     Uuid.timeHighAndVersion := "4000"; Uuid.clockSequence := "8000";
     Uuid.node := "000000000000" |}.

(** An entity updator that has nothing to write. *)
Definition idleUpdate (insertResult : InsertResult.t) : EntityUpdate.t :=
  {| EntityUpdate.completion := Ok tt;
     EntityUpdate.insertResult := insertResult;
     EntityUpdate.entity := λ _ entity, entity |}.

Definition sampleInherited : Inherited.t :=
  {| Inherited.createComment := "";
     Inherited.getMainTableName := Alias.tablePath;
     Inherited.getTableName := λ name, "[" +:+ name +:+ "]";
     Inherited.escape := λ name, "[" +:+ name +:+ "]";
     Inherited.createFromAlias :=
       λ name, {| Alias.tablePath := name; Alias.metadata := None |};
     Inherited.createReturningExpression := sampleReturningExpression;
     Inherited.uuid4 := sampleUuid;
     Inherited.findColumnsWithPropertyPath :=
       λ metadata path,
         filter (λ column, ColumnMetadata.propertyPath column = path)
                (EntityMetadata.columns metadata);
     Inherited.getInsertionReturningColumns := λ _ _, [];
     Inherited.updatorInsert := λ _ _ insertResult _, idleUpdate insertResult |}.

(** The expression map of a new builder, after [into] and [values]. *)
Definition sampleMap (columns : list ColumnMetadata.t) (valuesSet : ValuesSet)
  : QueryExpressionMap.t :=
  {| QueryExpressionMap.mainAlias :=
       {| Alias.tablePath := "post";
          Alias.metadata := Some {| EntityMetadata.columns := columns;
                                    EntityMetadata.discriminatorValue := VUndefined |} |};
     QueryExpressionMap.insertColumns := [];
     QueryExpressionMap.valuesSet := valuesSet;
     QueryExpressionMap.returning := ReturningString "";
     QueryExpressionMap.updateEntity := true;
     QueryExpressionMap.useTransaction := true;
     QueryExpressionMap.callListeners := true;
     QueryExpressionMap.onConflict := "";
     QueryExpressionMap.onIgnore := false;
     QueryExpressionMap.onUpdate := None;
     QueryExpressionMap.extraReturningColumns := [];
     QueryExpressionMap.locallyGenerated := ∅;
     QueryExpressionMap.parameters := [] |}.

Definition sampleBuilder (driver : Driver.t) (runner : QueryRunner.t)
  (supplied : option QueryRunner.t) (m : QueryExpressionMap.t) : InsertQueryBuilder :=
  {| driver := driver; createQueryRunner := runner; queryRunner := supplied;
     expressionMap := m; uuidsDrawn := 0; inherited := sampleInherited |}.

Definition twoPosts : ValuesSet :=
  ValuesArray [[("name", VData "a")]; [("name", VData "b")]].

Definition onePost : ValuesSet := ValuesObject [("name", VData "a")].

Definition posts : list ColumnMetadata.t := [idColumn; plainColumn "name"].

Definition healthyRunner : QueryRunner.t := sampleRunner (Ok tt) (Ok tt).

Definition failingRunner : QueryRunner.t :=
  sampleRunner (Throw (RuntimeError "duplicate key")) (Throw (RuntimeError "connection lost")).


Definition emptyInsert : InsertQueryBuilder :=
  sampleBuilder postgres healthyRunner None (sampleMap posts (ValuesArray [])).

Definition ignoringSqlServer : InsertQueryBuilder :=
  sampleBuilder sqlserver healthyRunner None
    (QueryExpressionMap.with_onIgnore true (sampleMap posts onePost)).

Definition overwriteName : OnUpdate.t :=
  {| OnUpdate.conflict := ConflictUndefined; OnUpdate.columns := None;
     OnUpdate.overwrite := Some ["name"] |}.



Definition failingInsert : InsertQueryBuilder :=
  sampleBuilder postgres failingRunner None (sampleMap posts onePost).

Definition suppliedRunnerInsert : InsertQueryBuilder :=
  sampleBuilder postgres busyRunner (Some busyRunner) (sampleMap posts onePost).



Definition explicitId : InsertQueryBuilder :=
  sampleBuilder sqlserver healthyRunner None
    (sampleMap posts (ValuesObject [("id", VData "7"); ("name", VData "a")])).



Definition ignoringPostgresRaw : InsertQueryBuilder :=
  sampleBuilder postgres healthyRunner None
    (QueryExpressionMap.with_onIgnore true
       (sampleMap posts (ValuesObject [("name", VFunction "'ON CONFLICT DO NOTHING'")]))).

Definition ignoringPostgresReturning : InsertQueryBuilder :=
  sampleBuilder postgres healthyRunner None
    (QueryExpressionMap.with_onIgnore true
       (QueryExpressionMap.with_returning (ReturningString "'ON DUPLICATE KEY UPDATE' AS note")
          (sampleMap posts onePost))).

Definition ignoringPostgres : InsertQueryBuilder :=
  sampleBuilder postgres healthyRunner None
    (QueryExpressionMap.with_onIgnore true
       (QueryExpressionMap.with_onConflict "(id) DO UPDATE SET name = 1"
          (QueryExpressionMap.with_onUpdate (Some overwriteName) (sampleMap posts onePost)))).

(** ** Vocabulary of the further properties *)

(** [useTransaction === true && queryRunner.isTransactionActive === false] *)
Definition startsTransaction (this : InsertQueryBuilder) : bool :=
  QueryExpressionMap.useTransaction (expressionMap this)
  && negb (QueryRunner.isTransactionActive (runnerOf this)).

(** Whether the flag [transactionStartedByUs] gets set: the transaction is
    to be started and [startTransaction] completes. *)
Definition transactionStarted (this : InsertQueryBuilder) : bool :=
  startsTransaction this
  && match QueryRunner.startTransaction (runnerOf this) with Ok _ => true | Throw _ => false end.

(** The builder on which [execute] compiles the statement: [this], with the
    extra returning columns that the entity updator asks for (lines
    100-103). *)
Definition compiling (this : InsertQueryBuilder) (valueSets : list ObjectLiteral)
  : InsertQueryBuilder :=
  if entityUpdateEnabled (expressionMap this)
     && negb ((1 <? length valueSets) && instanceOf (driver this) OracleDriver)
  then withExpressionMap
         (QueryExpressionMap.with_extraReturningColumns
            (Inherited.getInsertionReturningColumns (inherited this) (driver this)
               (QueryExpressionMap.mainAlias (expressionMap this))))
         this
  else this.

(** The builder as that compilation leaves it. *)
Definition compiled (this : InsertQueryBuilder) (valueSets : list ObjectLiteral)
  : InsertQueryBuilder :=
  (getQueryAndParameters (compiling this valueSets)).2.

(** What the entity updator does when [execute] calls it, once the query has
    returned [result]. *)
Definition entityUpdate (this : InsertQueryBuilder) (valueSets : list ObjectLiteral)
  (result : QueryResult.t) : EntityUpdate.t :=
  Inherited.updatorInsert (inherited this) (runnerOf this)
    (expressionMap (compiled this valueSets)) (InsertResult.from result) valueSets.

(** The records and the outcome after the query has returned [result]: as the
    entity updator leaves them when entity update is enabled, untouched
    otherwise. *)
Definition updatedRecords (this : InsertQueryBuilder) (valueSets : list ObjectLiteral)
  (result : QueryResult.t) : list ObjectLiteral :=
  if entityUpdateEnabled (expressionMap this)
  then imap (EntityUpdate.entity (entityUpdate this valueSets result)) valueSets
  else valueSets.

Definition updatedResult (this : InsertQueryBuilder) (valueSets : list ObjectLiteral)
  (result : QueryResult.t) : InsertResult.t :=
  if entityUpdateEnabled (expressionMap this)
  then EntityUpdate.insertResult (entityUpdate this valueSets result)
  else InsertResult.from result.

(** The builder once the entity updator has been called: the records of
    its values are those that the updator rewrote. *)
Definition written (this : InsertQueryBuilder) (valueSets : list ObjectLiteral)
  (result : QueryResult.t) : InsertQueryBuilder :=
  if entityUpdateEnabled (expressionMap this)
  then withExpressionMap
         (λ m, QueryExpressionMap.with_valuesSet
                 (withValueSets (updatedRecords this valueSets result)
                                (QueryExpressionMap.valuesSet m))
                 m)
         (compiled this valueSets)
  else compiled this valueSets.

(** The records at the time of the after-insert events, for the query that
    was sent. *)
Definition recordsAfter (this : InsertQueryBuilder) (valueSets : list ObjectLiteral)
  (query : list Event) : list ObjectLiteral :=
  match query with
  | [Query sql parameters] =>
      match QueryRunner.query (runnerOf this) sql parameters with
      | Ok result => updatedRecords this valueSets result
      | Throw _ => valueSets
      end
  | _ => valueSets
  end.

(** The calls of a [try] block that runs to its end, in order, around the
    query it sends. *)
Definition tryCalls (this : InsertQueryBuilder) (valueSets : list ObjectLiteral)
  (query : list Event) : list Event :=
  (if startsTransaction this then [StartTransaction] else [])
  ++ (if listenersEnabled (expressionMap this) then BroadcastBeforeInsert <$> valueSets else [])
  ++ query
  ++ (if entityUpdateEnabled (expressionMap this) then [UpdateEntity] else [])
  ++ (if listenersEnabled (expressionMap this)
      then BroadcastAfterInsert <$> recordsAfter this valueSets query else [])
  ++ (if startsTransaction this then [CommitTransaction] else []).



(** The outcome of a broadcast whose calls all return: what they left to be
    awaited, and the first rejection among it. *)
Definition scheduled (call : ObjectLiteral → Result (Result unit))
  (valueSets : list ObjectLiteral) (pending : list (Result unit)) : Prop :=
  Forall2 (λ valueSet outcome, call valueSet = Ok outcome) valueSets pending.

(** [entryOf this len valueSet i column entry]: [entry] is the text that
    [createValuesExpression] compiles for the column in the value set of
    index [i], from some state of the parameter array. *)
Definition entryOf (this : InsertQueryBuilder) (valueSetsLength : nat)
  (valueSet : ObjectLiteral) (valueSetIndex : nat) (column : ColumnMetadata.t) (entry : Sql)
  : Prop :=
  ∃ p g n,
    (columnValueExpression valueSetsLength valueSet valueSetIndex column (touch p g n this)).1
    = Ok entry.

(** Two values that differ at most in the datum they carry. *)
Definition sameShape (v w : Value) : Prop :=
  match v, w with
  | VData _, VData _ => True
  | _, _ => v = w
  end.

(** Records with the same keys in the same order, and values related by [S]. *)
Definition recordsAlike (S : Value → Value → Prop) (o o' : ObjectLiteral) : Prop :=
  Forall2 (λ entry entry', entry.1 = entry'.1 ∧ S entry.2 entry'.2) o o'.

(** Values that give value sets alike, one by one: a single object counts
    as the array that holds it alone. *)
Definition valuesAlike (S : Value → Value → Prop) (v v' : ValuesSet) : Prop :=
  match v, v' with
  | ValuesUndefined, ValuesUndefined => True
  | ValuesObject o, ValuesObject o' => recordsAlike S o o'
  | ValuesArray l, ValuesArray l' => Forall2 (recordsAlike S) l l'
  | ValuesObject o, ValuesArray l' => Forall2 (recordsAlike S) [o] l'
  | ValuesArray l, ValuesObject o' => Forall2 (recordsAlike S) l [o']
  | _, _ => False
  end.

(** The driver's normalizations take values related by [S] to values related
    by [S]. *)
Definition preserves (S : Value → Value → Prop) (driver : Driver.t) : Prop :=
  ∀ v w column,
    S v w →
    S (Driver.preparePersistentValue driver v column)
      (Driver.preparePersistentValue driver w column)
    ∧ S (Driver.parametrizeValue driver column v)
        (Driver.parametrizeValue driver column w).

Definition reconfigured (values : ValuesSet) (parameters : list Value) (onIgnore : bool)
  (onConflict : string) (onUpdate : option OnUpdate.t) (this : InsertQueryBuilder)
  : InsertQueryBuilder :=
  withExpressionMap
    (λ m, QueryExpressionMap.with_valuesSet values
            (QueryExpressionMap.with_parameters parameters
               (QueryExpressionMap.with_onIgnore onIgnore
                  (QueryExpressionMap.with_onConflict onConflict
                     (QueryExpressionMap.with_onUpdate onUpdate m)))))
    this.

(** [compilesAlike S d this other]: on the driver [d], the builder [other] is
    [this] with values and parameters related by [S] to those of [this], and
    possibly with another ignore policy, raw conflict clause or structured
    update policy where the dialect has no use for them or where a policy
    that comes first hides them. *)
Definition compilesAlike (S : Value → Value → Prop) (d : Driver.t)
  (this other : InsertQueryBuilder) : Prop :=
  ∃ values parameters onIgnore onConflict onUpdate,
    other = reconfigured values parameters onIgnore onConflict onUpdate this
    ∧ driver this = d
    ∧ preserves S d
    ∧ valuesAlike S (QueryExpressionMap.valuesSet (expressionMap this)) values
    ∧ Forall2 S (QueryExpressionMap.parameters (expressionMap this)) parameters
    ∧ (onIgnore = QueryExpressionMap.onIgnore (expressionMap this)
       ∨ isMysqlLike d = false ∧ Driver.supportedUpsertType d ≠ Some OnConflictDoUpdate)
    ∧ (onConflict = QueryExpressionMap.onConflict (expressionMap this)
       ∨ Driver.supportedUpsertType d ≠ Some OnConflictDoUpdate
       ∨ QueryExpressionMap.onIgnore (expressionMap this) = true)
    ∧ (onUpdate = QueryExpressionMap.onUpdate (expressionMap this)
       ∨ Driver.supportedUpsertType d = Some OnConflictDoUpdate
         ∧ (QueryExpressionMap.onIgnore (expressionMap this) = true
            ∨ truthy (QueryExpressionMap.onConflict (expressionMap this)) = true)).

(** [alike S d Q m m']: from builders that compile alike, the steps [m] and
    [m'] both succeed with results related by [Q], or both fail with the same
    error, and leave builders that compile alike. *)
Definition alike {A} (S : Value → Value → Prop) (d : Driver.t) (Q : A → A → Prop)
  (m m' : Builder A) : Prop :=
  ∀ s s', compilesAlike S d s s' →
    match m s, m' s' with
    | (Ok a, t), (Ok a', t') => Q a a' ∧ compilesAlike S d t t'
    | (Throw e, t), (Throw e', t') => e = e' ∧ compilesAlike S d t t'
    | _, _ => False
    end.

(** A value that is bound as a parameter when the table has no metadata:
    anything but [undefined] and a raw SQL expression. *)
Definition isBound (v : Value) : bool := negb (isUndefined v) && negb (isFunction v).

(** The values of the value sets, row by row and key by key, that are bound. *)
Definition valuesBound (valueSets : list ObjectLiteral) : list Value :=
  valueSet ← valueSets;
  filter (λ v, isBound v = true) (getProperty valueSet <$> Object_keys valueSet).

(** The tuple of one value set in the VALUES body: its entries separated by
    commas, between the opening and the closing that the dialect asks for. *)
Definition tupleOpening (oracleMultiRow : bool) : string :=
  if oracleMultiRow then " SELECT " else "(".

Definition tupleClosing (oracleMultiRow last : bool) : string :=
  if last
  then (if oracleMultiRow then " FROM DUAL " else ")")
  else (if oracleMultiRow then " FROM DUAL UNION ALL " else "), ").

Definition tuple (oracleMultiRow last : bool) (entries : list Sql) : Sql :=
  Text (tupleOpening oracleMultiRow)
  :: (joinSql ", " entries ++ [Text (tupleClosing oracleMultiRow last)]).

Fixpoint tuples (oracleMultiRow : bool) (rows : list (list Sql)) : Sql :=
  match rows with
  | [] => []
  | [entries] => tuple oracleMultiRow true entries
  | entries :: rest => tuple oracleMultiRow false entries ++ tuples oracleMultiRow rest
  end.

(** ** Further sample builders *)

Definition plainInsert : InsertQueryBuilder :=
  sampleBuilder postgres healthyRunner None (sampleMap posts twoPosts).

Definition unsetInsert : InsertQueryBuilder :=
  sampleBuilder postgres healthyRunner None (sampleMap posts ValuesUndefined).

Definition refusingRunner : QueryRunner.t :=
  {| QueryRunner.isTransactionActive := false;
     QueryRunner.startTransaction := Throw (RuntimeError "cannot begin");
     QueryRunner.commitTransaction := Ok tt;
     QueryRunner.rollbackTransaction := Ok tt;
     QueryRunner.release := Ok tt;
     QueryRunner.query := λ _ _, Ok {| QueryResult.raw := "1 row" |};
     QueryRunner.broadcastBeforeInsertEvent := λ _, Ok (Ok tt);
     QueryRunner.broadcastAfterInsertEvent := λ _, Ok (Ok tt) |}.

Definition refusedInsert : InsertQueryBuilder :=
  sampleBuilder postgres refusingRunner None (sampleMap posts twoPosts).



Definition rawInsert : InsertQueryBuilder :=
  withExpressionMap
    (QueryExpressionMap.with_into {| Alias.tablePath := "log"; Alias.metadata := None |} [])
    (sampleBuilder postgres healthyRunner None
       (sampleMap []
          (ValuesArray [[("name", VData "a"); ("note", VNull)];
                        [("name", VFunction "UPPER('b')"); ("note", VUndefined)]]))).

Definition emptyRecords : InsertQueryBuilder :=
  sampleBuilder postgres healthyRunner None (sampleMap [idColumn] (ValuesArray [[]; []])).

Definition emptyRecordsMysql : InsertQueryBuilder :=
  sampleBuilder mysql healthyRunner None
    (QueryExpressionMap.with_into {| Alias.tablePath := "log"; Alias.metadata := None |} []
       (sampleMap [] (ValuesObject []))).







(** ** Properties of the text representation *)

Lemma string_app_cons (x : Ascii.ascii) (a b : string) :
  String x a +:+ b = String x (a +:+ b).
Proof. reflexivity. Qed.

Lemma string_app_empty_l (a : string) : "" +:+ a = a.
Proof. reflexivity. Qed.

Lemma string_app_assoc (a b c : string) : (a +:+ b) +:+ c = a +:+ (b +:+ c).
Proof.
  induction a as [|x a IH]; [done|].
  rewrite !string_app_cons. by rewrite IH.
Qed.

Lemma string_app_empty_r (a : string) : a +:+ "" = a.
Proof.
  induction a as [|x a IH]; [done|].
  rewrite string_app_cons. by rewrite IH.
Qed.

Lemma render_nil : render [] = "".
Proof. reflexivity. Qed.

Lemma render_cons (p : Piece) (q : Sql) : render (p :: q) = renderPiece p +:+ render q.
Proof. reflexivity. Qed.

Lemma render_app (a b : Sql) : render (a ++ b) = render a +:+ render b.
Proof.
  induction a as [|p a IH]; [done|].
  rewrite <- app_comm_cons, !render_cons, IH. by rewrite string_app_assoc.
Qed.

Lemma placeholders_app (a b : Sql) : placeholders (a ++ b) = placeholders a ++ placeholders b.
Proof.
  induction a as [|[s|n|name] a IH]; simpl; [done|done|by rewrite IH..].
Qed.

Lemma placeholders_fmap_Placeholder (l : list nat) :
  placeholders (Placeholder <$> l) = Placeholder <$> l.
Proof. induction l as [|n l IH]; [done|]. simpl. f_equal. exact IH. Qed.

Lemma placeholders_fmap_Named (l : list string) :
  placeholders (NamedPlaceholder <$> l) = NamedPlaceholder <$> l.
Proof. induction l as [|n l IH]; [done|]. simpl. f_equal. exact IH. Qed.

Lemma placeholders_idemp (q : Sql) : placeholders (placeholders q) = placeholders q.
Proof. induction q as [|[s|n|name] q IH]; simpl; [done|done|by rewrite IH..]. Qed.





Lemma indexes_fmap_Placeholder (l : list nat) : indexes (Placeholder <$> l) = l.
Proof. induction l as [|n l IH]; [done|]. unfold indexes in *. simpl. f_equal. exact IH. Qed.

Lemma names_fmap_Placeholder (l : list nat) : names (Placeholder <$> l) = [].
Proof. induction l as [|n l IH]; [done|]. exact IH. Qed.




Lemma mentions_app (c : Ascii.ascii) (a b : string) :
  mentions c (a +:+ b) = mentions c a || mentions c b.
Proof.
  induction a as [|x a IH]; [done|].
  rewrite string_app_cons. simpl. rewrite IH. by rewrite orb_assoc.
Qed.

Lemma render_mentions_colon (q : Sql) :
  placeholders q ≠ [] → mentions colon (render q) = true.
Proof.
  induction q as [|[s|n|name] q IH]; intros H; [done| | |].
  - rewrite render_cons, mentions_app, (IH H). apply orb_true_r.
  - rewrite render_cons, mentions_app. reflexivity.
  - rewrite render_cons, mentions_app. reflexivity.
Qed.

Lemma render_unit_no_placeholders (q : Sql) : render q = "()" → placeholders q = [].
Proof.
  intros H. destruct (placeholders q) eqn:E; [done|].
  assert (mentions colon (render q) = true) as Hm
    by (apply render_mentions_colon; by rewrite E).
  rewrite H in Hm. vm_compute in Hm. discriminate Hm.
Qed.

Lemma render_empty_no_placeholders (q : Sql) : render q = "" → placeholders q = [].
Proof.
  intros H. destruct (placeholders q) eqn:E; [done|].
  assert (mentions colon (render q) = true) as Hm
    by (apply render_mentions_colon; by rewrite E).
  rewrite H in Hm. vm_compute in Hm. discriminate Hm.
Qed.

Lemma truthy_false (s : string) : truthy s = false → s = "".
Proof.
  unfold truthy. intros H. apply negb_false_iff in H. by apply String.eqb_eq in H.
Qed.

(** ** The builder's reads and writes during compilation *)

Lemma touch_self this :
  touch (QueryExpressionMap.parameters (expressionMap this))
        (QueryExpressionMap.locallyGenerated (expressionMap this)) (uuidsDrawn this) this = this.
Proof. destruct this as [d c q [] u i]. reflexivity. Qed.

Lemma touch_touch p g n p' g' n' this : touch p' g' n' (touch p g n this) = touch p' g' n' this.
Proof. reflexivity. Qed.

Lemma getValueSets_touch this p g n :
  getValueSets (touch p g n this) = (fst (getValueSets this), touch p g n this).
Proof.
  unfold getValueSets, bind, get. simpl.
  destruct (QueryExpressionMap.valuesSet (expressionMap this)); reflexivity.
Qed.

Lemma getValueSets_self this : getValueSets this = (fst (getValueSets this), this).
Proof. rewrite <- (touch_self this) at 1 3. apply getValueSets_touch. Qed.

Lemma isOverriding_touch this vss c p g n :
  getValueSets this = (Ok vss, this) →
  isOverridingAutoIncrementBehavior c (touch p g n this) = (Ok (overrides vss c), touch p g n this).
Proof.
  intros H. unfold isOverridingAutoIncrementBehavior, overrides.
  destruct (_ && _ && _) eqn:E; simpl; [|done].
  unfold bind. rewrite getValueSets_touch, H. reflexivity.
Qed.

Lemma filterM_pure {A} (f : A → Builder bool) (pf : A → bool) (l : list A) s :
  (∀ x, x ∈ l → f x s = (Ok (pf x), s)) →
  filterM f l s = (Ok (filter (λ x, pf x = true) l), s).
Proof.
  induction l as [|x l IH]; intros H; [done|].
  simpl. unfold bind. rewrite H by left.
  rewrite IH by (intros; apply H; by right).
  unfold ret. destruct (pf x) eqn:E.
  - by rewrite filter_cons_True.
  - rewrite filter_cons_False; [done|]. by rewrite E.
Qed.

Lemma someM_pure {A} (f : A → Builder bool) (pf : A → bool) (l : list A) s :
  (∀ x, x ∈ l → f x s = (Ok (pf x), s)) →
  someM f l s = (Ok (existsb pf l), s).
Proof.
  induction l as [|x l IH]; intros H; [done|].
  simpl. unfold bind. rewrite H by left.
  destruct (pf x); [done|]. apply IH. intros; apply H; by right.
Qed.

Lemma getInsertedColumns_touch this vss p g n :
  getValueSets this = (Ok vss, this) →
  getInsertedColumns (touch p g n this) = (Ok (insertedColumns this vss), touch p g n this).
Proof.
  intros H. unfold getInsertedColumns, insertedColumns, bind, get. simpl.
  destruct (Alias.metadata _) as [md|]; [|done].
  apply filterM_pure. intros c _. unfold selects.
  destruct (0 <? _); [done|].
  destruct (negb (ColumnMetadata.isInsert c)); [done|].
  destruct (_ && _ && _ && _ && _ && _); [|done].
  destruct (instanceOf _ SqlServerDriver); [|done].
  by apply isOverriding_touch.
Qed.

Lemma createColumnNamesExpression_touch this vss p g n :
  getValueSets this = (Ok vss, this) →
  createColumnNamesExpression (touch p g n this)
  = (Ok (columnNames this vss), touch p g n this).
Proof.
  intros H. unfold createColumnNamesExpression, columnNames, bind.
  rewrite (getInsertedColumns_touch _ vss) by done.
  unfold get. simpl.
  destruct (0 <? _); [done|].
  destruct (_ && _).
  - rewrite !getValueSets_touch, H. simpl. destruct vss as [|? [|]]; done.
  - destruct vss as [|? [|]]; done.
Qed.

Lemma isOracleMultiRow_touch this vss p g n :
  getValueSets this = (Ok vss, this) →
  isOracleMultiRow (touch p g n this)
  = (Ok (instanceOf (driver this) OracleDriver && (1 <? length vss)), touch p g n this).
Proof.
  intros H. unfold isOracleMultiRow, bind, get. simpl.
  destruct (instanceOf _ _); [|done].
  rewrite getValueSets_touch, H. done.
Qed.

Lemma needsIdentityInsert_touch this vss p g n :
  getValueSets this = (Ok vss, this) →
  needsIdentityInsert (touch p g n this) = (Ok (identityInsertNeeded this vss), touch p g n this).
Proof.
  intros H.
  unfold needsIdentityInsert, identityInsertNeeded, identityInsertCandidates, bind, get,
    Alias.hasMetadata, getMetadata.
  simpl.
  destruct (Alias.metadata _) as [md|] eqn:E.
  - destruct (instanceOf _ _); simpl; [|done].
    rewrite E. apply someM_pure. intros c _. by apply isOverriding_touch.
  - rewrite andb_false_r. done.
Qed.

Lemma upsertExpression_touch this p g n :
  upsertExpression (touch p g n this) = (fst (upsertExpression this), touch p g n this).
Proof.
  unfold upsertExpression, bind, get. simpl.
  repeat (match goal with |- context [match ?x with _ => _ end] => destruct x end; simpl; try done).
Qed.

Lemma createParameter_touch this v p g n :
  createParameter v (touch p g n this) = (Ok [Placeholder (length p)], touch (p ++ [v]) g n this).
Proof. reflexivity. Qed.

Ltac leaf0 :=
  eexists _, [], _, _; rewrite app_nil_r;
  split; [reflexivity | split; [reflexivity | done]].
Ltac leaf1 :=
  eexists _, [_], _, _;
  split; [reflexivity | split; [reflexivity | done]].

Lemma columnValueExpression_touch this md len vs i c p g n :
  Alias.metadata (QueryExpressionMap.mainAlias (expressionMap this)) = Some md →
  ∃ q added g' n',
    columnValueExpression len vs i c (touch p g n this) = (Ok q, touch (p ++ added) g' n' this)
    ∧ placeholders q = Placeholder <$> seq (length p) (length added)
    ∧ if generatesUuid (driver this) c vs
      then q = [Placeholder (length p)]
           ∧ added = [VData (Uuid.text (Inherited.uuid4 (inherited this) n))]
           ∧ g' = <[i := setEntityValue c (default [] (g !! i))
                            (VData (Uuid.text (Inherited.uuid4 (inherited this) n)))]> g
           ∧ n' = S n
      else g' = g ∧ n' = n.
Proof.
  intros Hmd. unfold columnValueExpression, generatesUuid, bind, get, getMetadata. simpl.
  set (value := persistentValue (driver this) c vs).
  destruct (ColumnMetadata.isVersion c && isUndefined value); simpl; [leaf0|].
  destruct (ColumnMetadata.isDiscriminator c); simpl.
  { rewrite Hmd. leaf1. }
  destruct (_ && _ && _ && _); simpl; [leaf1|].
  destruct (isUndefined value); simpl.
  { destruct (_ || _ || _); [destruct (isProvided _)|]; leaf0. }
  destruct value; try leaf0.
  all: repeat (match goal with
               | |- context [if ?b then _ else _] => destruct b; simpl
               | |- context [match ?b with Some _ => _ | None => _ end] => destruct b; simpl
               end); leaf1.
Qed.

Lemma forEachFrom_pairs {A} this (body : A → nat → Builder Sql) (l : list A) :
  (∀ x idx, x ∈ l → pairs this (body x idx)) →
  ∀ idx, pairs this (forEachFrom body l idx).
Proof.
  induction l as [|x l IH]; intros Hbody idx p g n.
  - exists [], [], g, n. by rewrite app_nil_r.
  - destruct (Hbody x idx (list_elem_of_here _ _) p g n) as (q1 & a1 & g1 & n1 & E1 & P1).
    destruct (IH (λ y k Hy, Hbody y k (list_elem_of_further _ _ _ Hy)) (S idx) (p ++ a1) g1 n1)
      as (q2 & a2 & g2 & n2 & E2 & P2).
    exists (q1 ++ q2), (a1 ++ a2), g2, n2. split.
    + simpl. unfold bind. rewrite E1, E2. by rewrite app_assoc.
    + rewrite placeholders_app, P1, P2, !length_app. by rewrite seq_app, fmap_app.
Qed.

Lemma columnCallback_pairs this md len ncols vs i c j :
  Alias.metadata (QueryExpressionMap.mainAlias (expressionMap this)) = Some md →
  pairs this (columnCallback len ncols vs i c j).
Proof.
  intros Hmd p g n. unfold columnCallback, bind, get. simpl.
  destruct (columnValueExpression_touch this md len vs i c p g n Hmd)
    as (q & added & g' & n' & E & P & _).
  rewrite E. eexists _, added, g', n'. split; [reflexivity|].
  rewrite !placeholders_app. simpl. rewrite app_nil_r, P.
  by repeat case_match.
Qed.

Lemma propertyCallback_pairs this len vs i name j :
  pairs this (propertyCallback len vs i name j).
Proof.
  intros p g n. unfold propertyCallback, bind, get. simpl.
  destruct (getProperty vs name); simpl.
  - destruct (_ || _); eexists _, [], g, n; rewrite app_nil_r;
      (split; [reflexivity|]); by destruct (j =? 0).
  - eexists _, [_], g, n. split; [reflexivity|]. by destruct (j =? 0).
  - eexists _, [], g, n; rewrite app_nil_r; (split; [reflexivity|]); by destruct (j =? 0).
  - eexists _, [_], g, n. split; [reflexivity|]. by destruct (j =? 0).
Qed.

Lemma insertedColumns_metadata this vss :
  insertedColumns this vss ≠ [] →
  ∃ md, Alias.metadata (QueryExpressionMap.mainAlias (expressionMap this)) = Some md.
Proof. unfold insertedColumns. destruct (Alias.metadata _); [eauto|done]. Qed.

Lemma seq_nil_length (start len : nat) : seq start len = [] → len = 0.
Proof. by destruct len. Qed.

Lemma createValuesExpression_pairs this vss :
  getValueSets this = (Ok vss, this) →
  pairs this createValuesExpression.
Proof.
  intros H p g n. unfold createValuesExpression, bind.
  rewrite getValueSets_touch, H. simpl.
  rewrite (getInsertedColumns_touch _ vss) by done.
  destruct (0 <? length (insertedColumns this vss)) eqn:Ecols.
  - destruct (insertedColumns_metadata this vss) as [md Hmd].
    { intros E. rewrite E in Ecols. done. }
    destruct (forEachFrom_pairs this
                (λ valueSet valueSetIndex,
                   forEach (columnCallback (length vss) (length (insertedColumns this vss))
                              valueSet valueSetIndex) (insertedColumns this vss)) vss) with (idx := 0) (p := p) (g := g) (n := n)
      as (q & added & g' & n' & E & P).
    { intros vs i _. apply forEachFrom_pairs. intros c j _. by eapply columnCallback_pairs. }
    unfold forEach at 1. rewrite E.
    destruct (String.eqb (render q) "()") eqn:Eunit.
    + apply String.eqb_eq, render_unit_no_placeholders in Eunit.
      rewrite Eunit in P. symmetry in P. apply fmap_nil_inv, seq_nil_length in P.
      exists [], added, g', n'. split; [done|]. by rewrite P.
    + by exists q, added, g', n'.
  - destruct (forEachFrom_pairs this
                (λ valueSet insertionIndex,
                   forEach (propertyCallback (length vss) valueSet insertionIndex)
                           (Object_keys valueSet)) vss) with (idx := 0) (p := p) (g := g) (n := n)
      as (q & added & g' & n' & E & P).
    { intros vs i _. apply forEachFrom_pairs. intros c j _. apply propertyCallback_pairs. }
    unfold forEach at 1. rewrite E.
    destruct (String.eqb (render q) "()") eqn:Eunit.
    + apply String.eqb_eq, render_unit_no_placeholders in Eunit.
      rewrite Eunit in P. symmetry in P. apply fmap_nil_inv, seq_nil_length in P.
      exists [], added, g', n'. split; [done|]. by rewrite P.
    + by exists q, added, g', n'.
Qed.

Lemma bindReturning_touch this pieces :
  ∀ idx p g n,
    forEachFrom (λ piece (_ : nat),
                   match piece with
                   | ReturningText s => ret [Text s]
                   | ReturningParameter value => createParameter value
                   end) pieces idx (touch p g n this)
    = (Ok (bindReturning pieces (length p)).1,
       touch (p ++ (bindReturning pieces (length p)).2) g n this).
Proof.
  induction pieces as [|[s|v] pieces IH]; intros idx p g n.
  - simpl. by rewrite app_nil_r.
  - simpl forEachFrom. unfold bind at 1. unfold ret at 1. unfold bind at 1. rewrite IH.
    simpl. by destruct (bindReturning pieces (length p)).
  - simpl forEachFrom. unfold bind at 1. rewrite createParameter_touch.
    unfold bind at 1. rewrite IH. rewrite length_app. simpl.
    replace (length p + 1) with (S (length p)) by lia.
    destruct (bindReturning pieces (S (length p))). simpl. by rewrite <- app_assoc.
Qed.



Lemma returningExpression_touch this vss p g n :
  (if oracleMultiRow this vss then ret [] else callCreateReturningExpression) (touch p g n this)
  = (Ok (returningOf this vss (length p)).1,
     touch (p ++ (returningOf this vss (length p)).2) g n this).
Proof.
  unfold returningOf. destruct (oracleMultiRow this vss).
  - simpl. by rewrite app_nil_r.
  - unfold callCreateReturningExpression. unfold bind at 1, get at 1. unfold forEach.
    apply bindReturning_touch.
Qed.

Lemma createInsertExpression_touch this vss p g n :
  getValueSets this = (Ok vss, this) →
  ∃ values added g' n',
    createValuesExpression (touch p g n this) = (Ok values, touch (p ++ added) g' n' this)
    ∧ placeholders values = Placeholder <$> seq (length p) (length added)
    ∧ let returning := returningOf this vss (length (p ++ added)) in
      createInsertExpression (touch p g n this)
      = match fst (upsertExpression this) with
        | Ok upsert =>
            (Ok (identityInsertWrapper (identityInsertNeeded this vss) (tableNameOf this)
                   ((beforeUpsert this vss values returning.1 ++ upsert)
                    ++ afterUpsert this returning.1)),
             touch ((p ++ added) ++ returning.2) g' n' this)
        | Throw e => (Throw e, touch ((p ++ added) ++ returning.2) g' n' this)
        end.
Proof.
  intros H.
  destruct (createValuesExpression_pairs this vss H p g n) as (values & added & g' & n' & E & P).
  exists values, added, g', n'. split; [done|]. split; [done|].
  unfold createInsertExpression, bind. unfold get at 1. rewrite E.
  rewrite (isOracleMultiRow_touch _ vss) by done.
  fold (oracleMultiRow this vss). rewrite (returningExpression_touch this vss).
  set (returning := returningOf this vss (length (p ++ added))).
  rewrite (createColumnNamesExpression_touch _ vss) by done.
  unfold get.
  assert (∀ (k : Sql → Builder Sql) s,
    (let (r, s') :=
       (if truthy (render values)
        then λ s0, let (r, s') := isOracleMultiRow s0 in
                   match r with
                   | Ok a => ret (if a then Text " " :: values else Text " VALUES " :: values) s'
                   | Throw e => (Throw e, s')
                   end
        else if instanceOf (driver this) MysqlDriver || instanceOf (driver this) AuroraDataApiDriver
             then ret [Text " VALUES ()"] else ret [Text " DEFAULT VALUES"])
         (touch s g' n' this) in
     match r with Ok a => k a s' | Throw e => (Throw e, s') end)
    = k (if truthy (render values)
         then (if oracleMultiRow this vss then Text " " :: values else Text " VALUES " :: values)
         else if isMysqlLike (driver this) then [Text " VALUES ()"] else [Text " DEFAULT VALUES"])
        (touch s g' n' this)) as Hvalues.
  { intros k s. destruct (truthy (render values)).
    - rewrite (isOracleMultiRow_touch _ vss) by done. done.
    - unfold isMysqlLike. by destruct (_ || _). }
  simpl. rewrite Hvalues.
  rewrite upsertExpression_touch.
  destruct (upsertExpression this) as [[upsert|e] s0]; simpl; [|done].
  rewrite (needsIdentityInsert_touch _ vss) by done.
  unfold identityInsertWrapper, beforeUpsert, afterUpsert, tableNameOf, isMysqlLike.
  by destruct (identityInsertNeeded this vss).
Qed.

(** ** A Hoare logic for [execute] *)

Lemma triple_ret {St A} (a : A) (Q : A → St → Prop) E : triple (Q a) (ret a) Q E.
Proof. intros s H. exact H. Qed.

Lemma triple_throw {St A} e (Q : A → St → Prop) (E : Error → St → Prop) :
  triple (E e) (throw e) Q E.
Proof. intros s H. exact H. Qed.

Lemma triple_bind {St A B} (P : St → Prop) (m : M St A) (Q : A → St → Prop)
  (k : A → M St B) (R : B → St → Prop) E :
  triple P m Q E → (∀ a, triple (Q a) (k a) R E) → triple P (bind m k) R E.
Proof.
  intros Hm Hk s HP. unfold bind. specialize (Hm s HP).
  destruct (m s) as [[a|e] s']; [by apply Hk|done].
Qed.

Lemma triple_conseq {St A} (P P' : St → Prop) (m : M St A) (Q Q' : A → St → Prop)
  (E E' : Error → St → Prop) :
  triple P' m Q' E' → (∀ s, P s → P' s) → (∀ a s, Q' a s → Q a s) →
  (∀ e s, E' e s → E e s) → triple P m Q E.
Proof.
  intros Hm HP HQ HE s Hs. specialize (Hm s (HP s Hs)).
  destruct (m s) as [[a|e] s']; auto.
Qed.

Lemma triple_get {St} (P : St → Prop) E : triple P get (λ a s, a = s ∧ P s) E.
Proof. intros s H. by split. Qed.

Lemma triple_modify {St} (f : St → St) (Q : unit → St → Prop) E :
  triple (λ s, Q tt (f s)) (modify f) Q E.
Proof. intros s H. exact H. Qed.

Lemma triple_tryCatch {St A} (P : St → Prop) (m : M St A) (h : Error → M St A)
  (Q : A → St → Prop) (E' E : Error → St → Prop) :
  triple P m Q E' → (∀ e, triple (E' e) (h e) Q E) → triple P (tryCatch m h) Q E.
Proof.
  intros Hm Hh s HP. unfold tryCatch. specialize (Hm s HP).
  destruct (m s) as [[a|e] s']; [done|by apply Hh].
Qed.

Lemma triple_tryFinally {St A} (P : St → Prop) (m : M St A) (f : M St unit)
  (Q Q' : A → St → Prop) (E E' : Error → St → Prop) (F : Error → St → Prop) :
  triple P m Q' E' →
  (∀ a, triple (Q' a) f (λ _, Q a) F) →
  (∀ e, triple (E' e) f (λ _, E e) F) →
  (∀ e s, F e s → E e s) →
  triple P (tryFinally m f) Q E.
Proof.
  intros Hm HQ HE HF s HP. unfold tryFinally. specialize (Hm s HP).
  destruct (m s) as [[a|e] s'].
  - specialize (HQ a s' Hm). destruct (f s') as [[[]|e'] s'']; auto.
  - specialize (HE e s' Hm). destruct (f s') as [[[]|e'] s'']; auto.
Qed.

(** Assertions on the record of calls and the transaction flag are kept by
    every step of the builder. *)
Lemma triple_onBuilder {A} (m : Builder A) (J : list Event → bool → Prop) :
  triple (λ st, J (events st) (transactionStartedByUs st)) (onBuilder m)
         (λ _ st, J (events st) (transactionStartedByUs st))
         (λ _ st, J (events st) (transactionStartedByUs st)).
Proof.
  intros st H. unfold onBuilder. destruct (m (builder st)) as [[a|e] b]; exact H.
Qed.

(** A broadcast records the event of every value set it reaches: all of
    them when every call returns, those up to the call that throws
    otherwise. *)
Lemma broadcastEach_spec event call (l : list ObjectLiteral) :
  ∀ st,
    match broadcastEach event call l st with
    | (Ok pending, st') =>
        scheduled call l pending
        ∧ st' = {| builder := builder st; events := events st ++ (event <$> l);
                   transactionStartedByUs := transactionStartedByUs st |}
    | (Throw e, st') =>
        ∃ k valueSet pending,
          l !! k = Some valueSet ∧ call valueSet = Throw e
          ∧ scheduled call (take k l) pending
          ∧ st' = {| builder := builder st; events := events st ++ (event <$> take (S k) l);
                     transactionStartedByUs := transactionStartedByUs st |}
    end.
Proof.
  induction l as [|vs l IH]; intros st.
  - simpl. split; [constructor|]. destruct st. simpl. by rewrite app_nil_r.
  - simpl. unfold bind at 1. unfold await, bind at 1, emit, modify. simpl.
    destruct (call vs) as [outcome|e] eqn:Ec.
    + unfold bind at 1.
      specialize (IH {| builder := builder st; events := events st ++ [event vs];
                        transactionStartedByUs := transactionStartedByUs st |}).
      destruct (broadcastEach event call l _) as [[pending|e] st'].
      * destruct IH as [Hs ->]. simpl. split; [by constructor|].
        by rewrite <- app_assoc.
      * destruct IH as (k & valueSet & pending & Hk & Hc & Hs & ->).
        exists (S k), valueSet, (outcome :: pending). simpl.
        split; [done|]. split; [done|]. split; [by constructor|]. by rewrite <- app_assoc.
    + exists 0, vs, []. simpl. split; [done|]. split; [done|]. split; [constructor|done].
Qed.

Lemma broadcast_spec event call (l : list ObjectLiteral) st :
  match broadcast event call l st with
  | (Ok _, st') =>
      (∃ pending, scheduled call l pending ∧ firstRejection pending = Ok tt)
      ∧ st' = {| builder := builder st; events := events st ++ (event <$> l);
                 transactionStartedByUs := transactionStartedByUs st |}
  | (Throw e, st') =>
      (∃ pending,
         scheduled call l pending ∧ firstRejection pending = Throw e
         ∧ st' = {| builder := builder st; events := events st ++ (event <$> l);
                    transactionStartedByUs := transactionStartedByUs st |})
      ∨ (∃ k valueSet pending,
           l !! k = Some valueSet ∧ call valueSet = Throw e
           ∧ scheduled call (take k l) pending
           ∧ st' = {| builder := builder st;
                      events := events st ++ (event <$> take (S k) l);
                      transactionStartedByUs := transactionStartedByUs st |})
  end.
Proof.
  unfold broadcast, bind. pose proof (broadcastEach_spec event call l st) as H.
  destruct (broadcastEach event call l st) as [[pending|e] st'].
  - destruct H as [Hs ->]. destruct (firstRejection pending) as [[]|e] eqn:Ef.
    + split; [by exists pending|done].
    + left. by exists pending.
  - by right.
Qed.

(** The events that a broadcast adds are events of some of the value sets. *)
Lemma broadcast_events event call (l : list ObjectLiteral) st :
  ∃ reached, (broadcast event call l st).2
             = {| builder := builder st; events := events st ++ (event <$> reached);
                  transactionStartedByUs := transactionStartedByUs st |}.
Proof.
  pose proof (broadcast_spec event call l st) as H.
  destruct (broadcast event call l st) as [[[]|e] st'].
  - destruct H as [_ ->]. by exists l.
  - destruct H as [(? & _ & _ & ->)|(k & ? & ? & _ & _ & _ & ->)]; eauto.
Qed.

Lemma sameRequest_refl this : sameRequest this this.
Proof.
  exists (QueryExpressionMap.extraReturningColumns (expressionMap this)).
  by destruct this as [d c q [] u i].
Qed.

Section TryBlock.
Variable this : InsertQueryBuilder.
Variable queryRunner : QueryRunner.t.
Variable J : list Event → bool → Prop.

Hypothesis J_start :
  QueryRunner.isTransactionActive queryRunner = false →
  ∀ evs, J evs false → J (evs ++ [StartTransaction]) false ∧ J (evs ++ [StartTransaction]) true.
Hypothesis J_before : ∀ evs f l, J evs f → J (evs ++ (BroadcastBeforeInsert <$> l)) f.
Hypothesis J_after : ∀ evs f l, J evs f → J (evs ++ (BroadcastAfterInsert <$> l)) f.
Hypothesis J_update : ∀ evs f, J evs f → J (evs ++ [UpdateEntity]) f.
Hypothesis J_commit : ∀ evs, J evs true → J (evs ++ [CommitTransaction]) true.
Hypothesis J_query :
  ∀ b sql parameters b' declareSql selectOutputSql evs f,
    sameRequest this b →
    getQueryAndParameters b = (Ok (sql, parameters), b') →
    J evs f →
    J (evs ++ [Query (joinSql (";" +:+ newline +:+ newline)
                        (omap id [statementText declareSql; Some sql;
                                  statementText selectOutputSql]))
                     parameters]) f.

Variable C : Prop.
Hypothesis C_compiled :
  ∀ b sql parameters b',
    sameRequest this b → getQueryAndParameters b = (Ok (sql, parameters), b') → C.

Let A (st : Execution) : Prop := J (events st) (transactionStartedByUs st).
Let B (st : Execution) : Prop := A st ∧ sameRequest this (builder st).

Lemma tryBlock_keeps valueSets :
  triple (λ st, B st ∧ transactionStartedByUs st = false)
         (tryBlock queryRunner valueSets) (λ _ st, A st ∧ C) (λ _, A).
Proof.
  unfold tryBlock.
  eapply triple_bind; [apply triple_get|]. intros st0.
  eapply (triple_bind _ _ (λ _, B)).
  { intros st (_ & [HA Hb] & Hf). unfold A in HA. rewrite Hf in HA.
    destruct (_ && negb _) eqn:Ec. 2:{ simpl. split. unfold A. rewrite Hf. exact HA. exact Hb. }
    apply andb_true_iff in Ec as [_ Ec]. apply negb_true_iff in Ec.
    destruct (J_start Ec _ HA) as [J1 J2].
    unfold bind, await, emit, modify at 1, setTransactionStartedByUs, modify. simpl.
    destruct (QueryRunner.startTransaction queryRunner); simpl; [split; [exact J2|exact Hb]|unfold A; simpl; rewrite Hf; exact J1]. }
  intros _. eapply (triple_bind _ _ (λ _, B)).
  { intros st [HA Hb]. destruct (listenersEnabled _); [|by split].
    destruct (broadcast_events BroadcastBeforeInsert
                (QueryRunner.broadcastBeforeInsertEvent queryRunner) valueSets st)
      as [reached Hr].
    destruct (broadcast _ _ _ st) as [[[]|e] st']; simpl in Hr; subst st'.
    - split; [by apply J_before|done].
    - by apply J_before. }
  intros _.
  set (returningColumns := match QueryExpressionMap.returning _, _ with
                           | ReturningColumns _, Some _ => _ | _, _ => [] end).
  eapply (triple_bind _ _ (λ _, B)).
  { intros st [HA [cols Hb]]. destruct (entityUpdateEnabled _); [|by split; [|exists cols]].
    unfold bind, onBuilder, modify, get, ret.
    match goal with |- context [if ?c then _ else _] => destruct c end; simpl.
    - split; [exact HA|]. eexists. rewrite Hb. reflexivity.
    - split; [exact HA|]. by exists cols. }
  intros returningColumns'.
  set (outputTable := _ && instanceOf _ SqlServerDriver).
  assert (∀ x, (if outputTable then Some [Text x] else None)
               = statementText (if outputTable then Some x else None)) as Htext
    by (intros x; by destruct outputTable).
  rewrite !Htext.
  eapply (triple_bind _ _ (λ '(sql, parameters) st,
            A st ∧ ∃ b b', sameRequest this b
                           ∧ getQueryAndParameters b = (Ok (sql, parameters), b'))).
  { intros st [HA Hb]. unfold onBuilder.
    destruct (getQueryAndParameters (builder st)) as [[[sql ps]|e] b'] eqn:E; simpl; [|done].
    split; [done|]. eauto. }
  intros [sql parameters].
  eapply (triple_bind _ _ (λ _ st, A st ∧ C)).
  { intros st (HA & b & b' & Hb & E). unfold await, bind, emit, modify. simpl.
    destruct (QueryRunner.query _ _ _); simpl; [split; [|by eapply C_compiled]|];
      by eapply J_query. }
  intros queryResult.
  eapply triple_bind; [apply triple_get|]. intros st1.
  eapply (triple_bind _ _ (λ _ st, A st ∧ C)).
  { intros st [_ [HA HC]]. destruct (entityUpdateEnabled _); [|done].
    unfold updateEntities, await, bind, get, emit, modify, onBuilder, ret. simpl.
    destruct (EntityUpdate.completion _); simpl; [split; [|done]|]; by apply J_update. }
  intros [insertResult updated]. eapply (triple_bind _ _ (λ _ st, A st ∧ C)).
  { intros st [HA HC]. destruct (listenersEnabled _); [|done].
    destruct (broadcast_events BroadcastAfterInsert
                (QueryRunner.broadcastAfterInsertEvent queryRunner) updated st)
      as [reached Hr].
    destruct (broadcast _ _ _ st) as [[[]|e] st']; simpl in Hr; subst st'.
    - split; [by apply J_after|done].
    - by apply J_after. }
  intros _. eapply triple_bind; [apply triple_get|]. intros st2.
  eapply (triple_bind _ _ (λ _ st, A st ∧ C)).
  2:{ intros _. apply (triple_ret _ (λ _ st, A st ∧ C)). }
  intros st [-> [HA HC]]. destruct (transactionStartedByUs st) eqn:Ef; [|done].
  unfold await, bind, emit, modify. simpl. unfold A in HA. rewrite Ef in HA.
  destruct (QueryRunner.commitTransaction _); simpl; [split; [|done]|];
    unfold A; simpl; rewrite Ef; by apply J_commit.
Qed.

Hypothesis J_create : ∀ evs f, J evs f → J (evs ++ [CreateQueryRunner]) f.
Hypothesis J_rollback : ∀ evs, J evs true → J (evs ++ [RollbackTransaction]) true.
Hypothesis J_release : ∀ evs f, J evs f → J (evs ++ [Release]) f.

Lemma catchBlock_keeps error :
  triple A (catchBlock queryRunner error) (λ _ st, A st ∧ C) (λ _, A).
Proof.
  intros st HA. unfold catchBlock, bind, get, tryCatch, await, emit, modify, throw. simpl.
  destruct (transactionStartedByUs st) eqn:Ef; [|exact HA].
  unfold A in *. rewrite Ef in HA. simpl.
  destruct (QueryRunner.rollbackTransaction queryRunner); simpl; rewrite Ef;
    by apply J_rollback.
Qed.

Lemma finallyBlock_keeps created (D : Prop) :
  triple (λ st, A st ∧ D) (finallyBlock queryRunner created) (λ _ st, A st ∧ D) (λ _, A).
Proof.
  intros st [HA HD]. unfold finallyBlock. destruct created; [|by split].
  unfold await, bind, emit, modify. simpl.
  destruct (QueryRunner.release queryRunner); simpl; [split; [|done]|]; by apply J_release.
Qed.

Lemma protected_keeps valueSets created :
  triple (λ st, B st ∧ transactionStartedByUs st = false)
         (tryFinally (tryCatch (tryBlock queryRunner valueSets) (catchBlock queryRunner))
                     (finallyBlock queryRunner created))
         (λ _ st, A st ∧ C) (λ _, A).
Proof.
  eapply triple_tryFinally
    with (Q' := λ _ st, A st ∧ C) (E' := λ _ st, A st ∧ True) (F := λ _, A).
  - eapply triple_tryCatch; [apply tryBlock_keeps|]. intros e.
    eapply triple_conseq; [apply catchBlock_keeps|done|done|by split].
  - intros a. apply finallyBlock_keeps.
  - intros e. eapply triple_conseq; [apply (finallyBlock_keeps created True)|done| |done].
    by intros ? ? [? _].
  - done.
Qed.
End TryBlock.

Lemma getValueSets_state this : (getValueSets this).2 = this.
Proof.
  unfold getValueSets, bind, get. simpl.
  by destruct (QueryExpressionMap.valuesSet (expressionMap this)).
Qed.

Lemma run_missing this e :
  getValueSets this = (Throw e, this) → run this = (Throw e, initialState this).
Proof. intros H. unfold run, execute, bind, onBuilder. simpl. by rewrite H. Qed.

Lemma run_empty this :
  getValueSets this = (Ok [], this) → run this = (Ok InsertResult.new, initialState this).
Proof. intros H. unfold run, execute, bind, onBuilder. simpl. by rewrite H. Qed.

Lemma run_protected this vss :
  getValueSets this = (Ok vss, this) → vss ≠ [] →
  run this
  = tryFinally (tryCatch (tryBlock (runnerOf this) vss) (catchBlock (runnerOf this)))
               (finallyBlock (runnerOf this) (ownsRunner this)) (entryState this).
Proof.
  intros H Hne. unfold run, execute, bind, onBuilder. simpl. rewrite H.
  destruct vss as [|vs vss]; [done|]. simpl.
  unfold entryState, obtainQueryRunner, bind, get, runnerOf, ownsRunner,
    setTransactionStartedByUs, emit, modify, ret.
  simpl. by destruct (queryRunner this).
Qed.

Lemma getValueSets_cases this :
  (∃ e, getValueSets this = (Throw e, this)) ∨ (∃ vss, getValueSets this = (Ok vss, this)).
Proof.
  pose proof (getValueSets_state this) as Hs.
  destruct (getValueSets this) as [[vss|e] s]; simpl in Hs; subst; eauto.
Qed.

Section Run.
Variable this : InsertQueryBuilder.
Variable J : list Event → bool → Prop.
Variable C : Prop.

Hypothesis J_start :
  QueryRunner.isTransactionActive (runnerOf this) = false →
  ∀ evs, J evs false → J (evs ++ [StartTransaction]) false ∧ J (evs ++ [StartTransaction]) true.
Hypothesis J_before : ∀ evs f l, J evs f → J (evs ++ (BroadcastBeforeInsert <$> l)) f.
Hypothesis J_after : ∀ evs f l, J evs f → J (evs ++ (BroadcastAfterInsert <$> l)) f.
Hypothesis J_update : ∀ evs f, J evs f → J (evs ++ [UpdateEntity]) f.
Hypothesis J_commit : ∀ evs, J evs true → J (evs ++ [CommitTransaction]) true.
Hypothesis J_query :
  ∀ b sql parameters b' declareSql selectOutputSql evs f,
    sameRequest this b →
    getQueryAndParameters b = (Ok (sql, parameters), b') →
    J evs f →
    J (evs ++ [Query (joinSql (";" +:+ newline +:+ newline)
                        (omap id [statementText declareSql; Some sql;
                                  statementText selectOutputSql]))
                     parameters]) f.
Hypothesis C_compiled :
  ∀ b sql parameters b',
    sameRequest this b → getQueryAndParameters b = (Ok (sql, parameters), b') → C.
Hypothesis J_create : ∀ evs f, J evs f → J (evs ++ [CreateQueryRunner]) f.
Hypothesis J_rollback : ∀ evs, J evs true → J (evs ++ [RollbackTransaction]) true.
Hypothesis J_release : ∀ evs f, J evs f → J (evs ++ [Release]) f.
Hypothesis J_initial : J [] false.

Lemma run_keeps :
  match run this with
  | (Ok _, st) =>
      J (events st) (transactionStartedByUs st) ∧ (C ∨ getValueSets this = (Ok [], this))
  | (Throw _, st) => J (events st) (transactionStartedByUs st)
  end.
Proof.
  destruct (getValueSets_cases this) as [[e H]|[vss H]].
  { by rewrite (run_missing _ _ H). }
  destruct (decide (vss = [])) as [->|Hne].
  { rewrite (run_empty _ H). split; [done|by right]. }
  rewrite (run_protected _ _ H Hne).
  pose proof (protected_keeps this (runnerOf this) J J_start J_before J_after J_update
                J_commit J_query C C_compiled J_rollback J_release vss (ownsRunner this)
                (entryState this)) as Hp.
  destruct (tryFinally _ _ _) as [[r|e] st].
  - destruct Hp as [HA HC]; [|by split; [|left]].
    split; [|done]. split; [|apply sameRequest_refl].
    unfold entryState. simpl. destruct (ownsRunner this); [|done].
    by apply (J_create []).
  - apply Hp. split; [|done]. split; [|apply sameRequest_refl].
    unfold entryState. simpl. destruct (ownsRunner this); [|done].
    by apply (J_create []).
Qed.
End Run.

(** ** Pairing of parameters and placeholders *)







Lemma instanceOf_true d k : instanceOf d k = true → Driver.kind d = k.
Proof. unfold instanceOf. by intros ?%bool_decide_eq_true. Qed.

#[local] Arguments beforeUpsert : simpl never.
#[local] Arguments afterUpsert : simpl never.
#[local] Arguments identityInsertWrapper : simpl never.




Lemma createInsertExpression_missing this e p g n :
  getValueSets this = (Throw e, this) →
  createInsertExpression (touch p g n this) = (Throw e, touch p g n this).
Proof.
  intros H. unfold createInsertExpression, createValuesExpression, bind.
  unfold get at 1. by rewrite getValueSets_touch, H.
Qed.










(** ** The upsert clause and the IDENTITY_INSERT wrapper *)

Lemma upsertExpression_unsupported this policy :
  Driver.supportedUpsertType (driver this) = None →
  QueryExpressionMap.onUpdate (expressionMap this) = Some policy →
  upsertExpression this = (Throw (TypeORMError "onUpdate is not supported by the current database driver"), this).
Proof. intros Hd Hu. unfold upsertExpression, bind, get. simpl. by rewrite Hd, Hu. Qed.


Lemma createInsertExpression_unsupported this policy vss p g n :
  Driver.supportedUpsertType (driver this) = None →
  QueryExpressionMap.onUpdate (expressionMap this) = Some policy →
  getValueSets this = (Ok vss, this) →
  ∃ s', createInsertExpression (touch p g n this) = (Throw (TypeORMError "onUpdate is not supported by the current database driver"), s').
Proof.
  intros Hd Hu Hv.
  destruct (createInsertExpression_touch this vss p g n Hv) as (values & added & g' & n' & _ & _ & E).
  cbv zeta in E. rewrite E, (upsertExpression_unsupported _ _ Hd Hu). cbn [fst]. eauto.
Qed.


Lemma instanceOf_kind d k : Driver.kind d = k → instanceOf d k = true.
Proof. intros <-. unfold instanceOf. by apply bool_decide_eq_true. Qed.

Lemma instanceOf_other d k k' : Driver.kind d = k → k ≠ k' → instanceOf d k' = false.
Proof. intros <- Hne. unfold instanceOf. by apply bool_decide_eq_false. Qed.

(** On SQL Server a column that overrides the auto-increment behaviour is
    selected for insertion exactly when the wrapper's own filter keeps it. *)
Lemma selects_overriding d insertColumns vss c :
  Driver.kind d = SqlServerDriver →
  overrides vss c = true →
  selects d insertColumns vss c
  = (if 0 <? length insertColumns
     then includes (ColumnMetadata.propertyPath c) insertColumns
     else ColumnMetadata.isInsert c).
Proof.
  intros Hd Ho. unfold selects. rewrite Ho.
  rewrite (instanceOf_kind _ _ Hd).
  rewrite !(instanceOf_other _ _ _ Hd) by done.
  unfold overrides in Ho. apply andb_true_iff in Ho as [Ho _].
  apply andb_true_iff in Ho as [Ho Hi]. apply andb_true_iff in Ho as [_ Hg].
  rewrite Hg, Hi. simpl.
  destruct (0 <? _); [done|]. by destruct (ColumnMetadata.isInsert c).
Qed.

Lemma identityInsertNeeded_spec this vss :
  Driver.kind (driver this) = SqlServerDriver →
  identityInsertNeeded this vss = true
  ↔ ∃ column, column ∈ insertedColumns this vss ∧ overrides vss column = true.
Proof.
  intros Hd. unfold identityInsertNeeded, insertedColumns, identityInsertCandidates.
  destruct (Alias.metadata _) as [md|].
  - rewrite (instanceOf_kind _ _ Hd). simpl. rewrite existsb_exists. split.
    + intros (c & Hin & Ho). exists c. split; [|done].
      apply list_elem_of_In, list_elem_of_filter in Hin as [Hc Hin].
      apply list_elem_of_filter. split; [|done].
      by rewrite (selects_overriding _ _ _ _ Hd Ho).
    + intros (c & Hin & Ho). exists c. split; [|done].
      apply list_elem_of_filter in Hin as [Hc Hin].
      apply list_elem_of_In, list_elem_of_filter. split; [|done].
      by rewrite (selects_overriding _ _ _ _ Hd Ho) in Hc.
  - split; [done|]. by intros (c & Hin%elem_of_nil & _).
Qed.

Lemma render_beforeUpsert this vss values returning :
  isMysqlLike (driver this) = false →
  ∃ rest, render (beforeUpsert this vss values returning)
          = "INSERT INTO " +:+ tableNameOf this +:+ rest.
Proof.
  intros Hm. unfold beforeUpsert. rewrite Hm.
  rewrite !render_app. simpl. rewrite !string_app_assoc. eauto.
Qed.

Lemma upsertExpression_ignore this :
  Driver.supportedUpsertType (driver this) = Some OnConflictDoUpdate →
  QueryExpressionMap.onIgnore (expressionMap this) = true →
  upsertExpression this = (Ok [Text " ON CONFLICT DO NOTHING "], this).
Proof. intros Hd Hi. unfold upsertExpression, bind, get. simpl. by rewrite Hd, Hi. Qed.

Lemma render_identityInsertWrapper needed tableName q :
  render (identityInsertWrapper needed tableName q)
  = identityInsertOn needed tableName +:+ render q +:+ identityInsertOff needed tableName.
Proof.
  unfold identityInsertWrapper, identityInsertOn, identityInsertOff. destruct needed.
  - rewrite render_cons, render_app. simpl. by rewrite string_app_empty_r.
  - by rewrite string_app_empty_r.
Qed.

(** ** Counting occurrences of a clause *)

Lemma string_length_app (a b : string) :
  String.length (a +:+ b) = String.length a + String.length b.
Proof. induction a as [|x a IH]; [done|]. rewrite string_app_cons. simpl. by rewrite IH. Qed.

Lemma startsWith_app_long (p a r : string) :
  String.length p ≤ String.length a → startsWith p (a +:+ r) = startsWith p a.
Proof.
  revert a. induction p as [|x p IH]; intros a Hlen; [done|].
  destruct a as [|y a]; simpl in Hlen; [lia|].
  rewrite string_app_cons. simpl. rewrite IH by lia. done.
Qed.

Lemma startsWith_short (p a : string) :
  String.length a < String.length p → startsWith p a = false.
Proof.
  revert a. induction p as [|x p IH]; intros a Hlen; simpl in Hlen; [lia|].
  destruct a as [|y a]; [done|]. simpl in *. rewrite IH by lia. apply andb_false_r.
Qed.

(** An occurrence that starts in [a] and ends after it: [a] begins the
    pattern, and what is left of the pattern begins [r]. *)
Lemma startsWith_straddle (p a r : string) :
  String.length a < String.length p →
  startsWith p (a +:+ r) = true →
  startsWith a p = true
  ∧ ∃ p1 p2, p = p1 +:+ p2 ∧ String.length p1 = String.length a ∧ startsWith p2 r = true.
Proof.
  revert p. induction a as [|y a IH]; intros p Hlen H.
  - split; [done|]. by exists "", p.
  - destruct p as [|x p]; simpl in Hlen; [lia|].
    rewrite string_app_cons in H. simpl in H. apply andb_true_iff in H as [Hx H].
    destruct (IH p ltac:(lia) H) as (Ha & p1 & p2 & -> & Hl & Hr).
    split.
    + simpl. rewrite Ha, andb_true_r. apply bool_decide_eq_true.
      by apply bool_decide_eq_true in Hx.
    + exists (String x p1), p2. simpl. by rewrite Hl.
Qed.

Lemma noOverlapInto_spec (p next p1 p2 : string) :
  noOverlapInto p next = true → p = p1 +:+ p2 → p1 ≠ "" → p2 ≠ "" →
  startsWith p2 next = false.
Proof.
  revert p. induction p1 as [|x p1 IH]; intros p H -> Hp1 Hp2; [done|].
  rewrite string_app_cons in H. simpl in H.
  destruct (p1 +:+ p2) as [|z q] eqn:E.
  { destruct p1; [by destruct p2|done]. }
  apply andb_true_iff in H as [Hn H]. rewrite <- E in *.
  destruct p1 as [|y p1].
  - simpl in *. by apply negb_true_iff in Hn.
  - by apply (IH (String y p1 +:+ p2)).
Qed.

Lemma occurrences_app_into (p a next rest : string) :
  noOverlapInto p next = true →
  String.length p ≤ S (String.length next) →
  occurrences p (a +:+ next +:+ rest) = occurrences p a + occurrences p (next +:+ rest).
Proof.
  intros Hno Hlen. induction a as [|x a IH]; [done|].
  rewrite string_app_cons. simpl. rewrite IH. rewrite <- string_app_cons.
  destruct (decide (String.length p ≤ String.length (String x a))) as [Hl|Hl].
  - rewrite startsWith_app_long by done. lia.
  - rewrite (startsWith_short p (String x a)) by lia.
    destruct (startsWith p (String x a +:+ next +:+ rest)) eqn:Es; [|done].
    exfalso. apply startsWith_straddle in Es as (_ & p1 & p2 & -> & Hl1 & Hr); [|lia].
    assert (p1 ≠ "") as Hp1 by (intros ->; simpl in Hl1; lia).
    assert (p2 ≠ "") as Hp2.
    { intros ->. rewrite string_app_empty_r in Hl. lia. }
    rewrite startsWith_app_long in Hr.
    + by rewrite (noOverlapInto_spec _ _ p1 p2 Hno eq_refl Hp1 Hp2) in Hr.
    + rewrite string_length_app in Hlen. destruct p1; [done|]. simpl in Hlen. lia.
Qed.

Lemma occurrences_app_outOf (p previous rest : string) :
  noOverlapOutOf p previous = true →
  occurrences p (previous +:+ rest) = occurrences p previous + occurrences p rest.
Proof.
  induction previous as [|x a IH]; intros Hno; [done|].
  cbn [noOverlapOutOf] in Hno. apply andb_true_iff in Hno as [Hhere Hno].
  rewrite string_app_cons. simpl. rewrite (IH Hno). rewrite <- string_app_cons.
  apply orb_true_iff in Hhere as [Hl|Hn].
  - apply Nat.leb_le in Hl. rewrite startsWith_app_long by done. lia.
  - destruct (decide (String.length p ≤ String.length (String x a))) as [Hl|Hl].
    { rewrite startsWith_app_long by done. lia. }
    rewrite (startsWith_short p (String x a)) by lia.
    destruct (startsWith p (String x a +:+ rest)) eqn:Es; [|done].
    apply startsWith_straddle in Es as [Ha _]; [|lia].
    apply negb_true_iff in Hn. by rewrite Ha in Hn.
Qed.

(** Splicing [clause] between two texts adds the occurrences inside the clause
    and no other. *)
Lemma occurrences_splice (p clause before after : string) :
  noOverlapInto p clause = true →
  noOverlapOutOf p clause = true →
  String.length p ≤ S (String.length clause) →
  occurrences p (before +:+ clause +:+ after)
  = occurrences p before + occurrences p clause + occurrences p after.
Proof.
  intros Hinto Hout Hlen.
  rewrite occurrences_app_into by done. rewrite occurrences_app_outOf by done. lia.
Qed.

Example doNothing_once before after :
  occurrences "ON CONFLICT DO NOTHING" (before +:+ " ON CONFLICT DO NOTHING " +:+ after)
  = occurrences "ON CONFLICT DO NOTHING" before + 1
    + occurrences "ON CONFLICT DO NOTHING" after.
Proof. by rewrite occurrences_splice by (vm_compute; done || lia). Qed.

Example duplicateKey_none before after :
  occurrences "ON DUPLICATE KEY UPDATE" (before +:+ " ON CONFLICT DO NOTHING " +:+ after)
  = occurrences "ON DUPLICATE KEY UPDATE" before
    + occurrences "ON DUPLICATE KEY UPDATE" after.
Proof. rewrite occurrences_splice by (vm_compute; done || lia). simpl. lia. Qed.

(** ** Locally generated UUIDs *)












(** * The properties of the specification *)

(** ** C1: parameters and placeholders *)





(** ** C2: the empty array *)

(** C2. When the value sets are the empty array, [execute] returns the
    zero-effect outcome [new InsertResult()] and leaves the whole state as it
    was: no call is recorded (no runner acquired or released, no transaction,
    no hooks, no query) and the builder is unchanged. *)
Theorem execute_empty_array (st : Execution) :
  QueryExpressionMap.valuesSet (expressionMap (builder st)) = ValuesArray [] →
  execute st = (Ok InsertResult.new, st).
Proof.
  intros H.
  assert (getValueSets (builder st) = (Ok [], builder st)) as Hv.
  { unfold getValueSets, bind, get. by rewrite H. }
  unfold execute, bind, onBuilder. rewrite Hv. by destruct st.
Qed.

Lemma execute_empty_array_witness :
  run emptyInsert = (Ok InsertResult.new, initialState emptyInsert).
Proof. exact (execute_empty_array (initialState emptyInsert) eq_refl). Defined.

(** ** C3: upsert on a dialect without upsert support *)




(** ** C4: returning *)

(** C4. [returning] consults the driver when it is called: without
    returning/output support it throws ReturningStatementNotSupportedError and
    leaves the builder untouched, so nothing is compiled or bound; with
    support it records the request and throws nothing. [output] is
    [returning]. *)
Theorem returning_checked_at_configuration (r : Returning) (this : InsertQueryBuilder) :
  returning r this
  = (if Driver.isReturningSqlSupported (driver this)
     then (Ok tt, withExpressionMap (QueryExpressionMap.with_returning r) this)
     else (Throw ReturningStatementNotSupportedError, this))
  ∧ output r this = returning r this.
Proof.
  split; [|done]. unfold returning, bind, get. simpl.
  by destruct (Driver.isReturningSqlSupported (driver this)).
Qed.

(** ** C5: failure after the transaction was started *)

(** C5, as stated, fails: the runner was acquired by [execute], the
    transaction was started by it, the query fails with "duplicate key"; the
    rollback is attempted, but the release of the runner fails in the final
    cleanup and its error "connection lost" is what the caller receives. *)
Lemma release_failure_replaces_original_error :
  (tryBlock (runnerOf failingInsert) [[("name", VData "a")]] (entryState failingInsert)).1
  = Throw (RuntimeError "duplicate key")
  ∧ transactionStartedByUs
      (tryBlock (runnerOf failingInsert) [[("name", VData "a")]] (entryState failingInsert)).2
    = true
  ∧ RollbackTransaction ∈ events (run failingInsert).2
  ∧ (run failingInsert).1 = Throw (RuntimeError "connection lost").
Proof.
  split; [reflexivity|]. split; [reflexivity|]. split; [|reflexivity].
  vm_compute. do 4 apply list_elem_of_further. apply list_elem_of_here.
Qed.

(** C5, amended. When the try block of [execute] fails after [execute] itself
    started the transaction, a rollback is attempted right away (whether it
    succeeds or not, its outcome is ignored), then the runner is released if
    [execute] acquired it; the caller receives the original failure unchanged,
    unless that release itself fails, in which case the caller receives the
    error of the release. When the transaction was already active, [execute]
    starts, commits and rolls back nothing. *)
Theorem rollback_on_failure (this : InsertQueryBuilder) :
  (∀ vss error st1,
     getValueSets this = (Ok vss, this) → vss ≠ [] →
     tryBlock (runnerOf this) vss (entryState this) = (Throw error, st1) →
     transactionStartedByUs st1 = true →
     events (run this).2
     = events st1 ++ RollbackTransaction :: (if ownsRunner this then [Release] else [])
     ∧ (run this).1
       = match (if ownsRunner this then QueryRunner.release (runnerOf this) else Ok tt) with
         | Ok _ => Throw error
         | Throw releaseError => Throw releaseError
         end)
  ∧ (QueryRunner.isTransactionActive (runnerOf this) = true →
     ∀ e, e ∈ events (run this).2 → ¬ transactional e).
Proof.
  split.
  - intros vss error st1 Hv Hne Htry Hflag.
    rewrite (run_protected _ _ Hv Hne).
    unfold tryFinally, tryCatch. rewrite Htry.
    unfold catchBlock, bind, get, tryCatch, await, emit, modify, throw, ret. simpl.
    rewrite Hflag.
    unfold finallyBlock, await, bind, emit, modify, ret.
    destruct (QueryRunner.rollbackTransaction (runnerOf this)); simpl;
      destruct (ownsRunner this); simpl;
      try destruct (QueryRunner.release (runnerOf this)) as [[]|]; simpl;
      by rewrite <- ?app_assoc.
  - intros Hactive.
    assert (∀ e, ¬ transactional e →
              ∀ evs (f : bool), f = false ∧ (∀ e', e' ∈ evs → ¬ transactional e') →
                f = false ∧ (∀ e', e' ∈ evs ++ [e] → ¬ transactional e')) as Hother.
    { intros e He evs f [-> Hevs]. split; [done|].
      intros e' [Hin|Heq%list_elem_of_singleton]%elem_of_app; [auto|by subst]. }
    assert (match run this with
            | (Ok _, st) =>
                (transactionStartedByUs st = false
                 ∧ ∀ e, e ∈ events st → ¬ transactional e)
                ∧ (True ∨ getValueSets this = (Ok [], this))
            | (Throw _, st) =>
                transactionStartedByUs st = false ∧ ∀ e, e ∈ events st → ¬ transactional e
            end) as Hrun.
    { apply (run_keeps this (λ evs f, f = false ∧ ∀ e, e ∈ evs → ¬ transactional e) True).
      - intros Hidle. by rewrite Hactive in Hidle.
      - intros evs f l [-> Hevs]. split; [done|].
        intros e [Hin|Hin%list_elem_of_fmap]%elem_of_app; [auto|].
        destruct Hin as (vs & -> & _). by intros [|[|]].
      - intros evs f l [-> Hevs]. split; [done|].
        intros e [Hin|Hin%list_elem_of_fmap]%elem_of_app; [auto|].
        destruct Hin as (vs & -> & _). by intros [|[|]].
      - intros evs f. apply Hother. by intros [|[|]].
      - by intros evs [? _].
      - intros b sql ps b' d s evs f _ _. apply Hother. by intros [|[|]].
      - done.
      - intros evs f. apply Hother. by intros [|[|]].
      - by intros evs [? _].
      - intros evs f. apply Hother. by intros [|[|]].
      - split; [done|]. by intros e ?%elem_of_nil. }
    destruct (run this) as [[r|e] st]; simpl; [apply Hrun|apply Hrun].
Qed.

Lemma rollback_on_failure_witness :
  (events (run failingInsert).2
   = events (tryBlock (runnerOf failingInsert) [[("name", VData "a")]]
               (entryState failingInsert)).2
     ++ [RollbackTransaction; Release]
   ∧ (run failingInsert).1 = Throw (RuntimeError "connection lost"))
  ∧ ∀ e, e ∈ events (run suppliedRunnerInsert).2 → ¬ transactional e.
Proof.
  split.
  - destruct (rollback_on_failure failingInsert) as [Hfail _].
    refine (Hfail [[("name", VData "a")]] (RuntimeError "duplicate key")
              (tryBlock (runnerOf failingInsert) [[("name", VData "a")]]
                 (entryState failingInsert)).2 eq_refl _ _ eq_refl).
    + discriminate.
    + reflexivity.
  - destruct (rollback_on_failure suppliedRunnerInsert) as [_ Hactive].
    exact (Hactive eq_refl).
Defined.

(** ** C6: the IDENTITY_INSERT wrapper *)

(** C6. On SQL Server, a compiled statement is the INSERT wrapped between
    [SET IDENTITY_INSERT table ON;] and [; SET IDENTITY_INSERT table OFF] when
    some column selected for insertion is primary, generated with the
    increment strategy, and has a value other than undefined and null in at
    least one value set; otherwise it is the INSERT alone. *)
Theorem identity_insert_wrapper (this : InsertQueryBuilder) (vss : list ObjectLiteral)
  (sql : Sql) (this' : InsertQueryBuilder) :
  Driver.kind (driver this) = SqlServerDriver →
  getValueSets this = (Ok vss, this) →
  createInsertExpression this = (Ok sql, this') →
  ∃ insert rest,
    render insert = "INSERT INTO " +:+ tableNameOf this +:+ rest
    ∧ (((∃ column, column ∈ insertedColumns this vss ∧ overrides vss column = true)
        ∧ sql = Text ("SET IDENTITY_INSERT " +:+ tableNameOf this +:+ " ON; ") :: insert
                ++ [Text ("; SET IDENTITY_INSERT " +:+ tableNameOf this +:+ " OFF")])
       ∨ ((¬ ∃ column, column ∈ insertedColumns this vss ∧ overrides vss column = true)
          ∧ sql = insert)).
Proof.
  intros Hd Hv H.
  destruct (createInsertExpression_touch this vss
              (QueryExpressionMap.parameters (expressionMap this))
              (QueryExpressionMap.locallyGenerated (expressionMap this)) (uuidsDrawn this) Hv)
    as (values & added & g' & n' & _ & _ & E).
  cbv zeta in E. rewrite touch_self, H in E.
  destruct (upsertExpression this) as [[upsert|e] s] eqn:Eu; cbn [fst] in E; [|done].
  set (returning := (returningOf this vss _).1) in E.
  assert (sql = identityInsertWrapper (identityInsertNeeded this vss) (tableNameOf this)
                  ((beforeUpsert this vss values returning ++ upsert)
                   ++ afterUpsert this returning)) as -> by congruence.
  destruct (render_beforeUpsert this vss values returning) as [rest Hrest].
  { unfold isMysqlLike. by rewrite !(instanceOf_other _ _ _ Hd). }
  exists ((beforeUpsert this vss values returning ++ upsert) ++ afterUpsert this returning),
         (rest +:+ render upsert +:+ render (afterUpsert this returning)).
  split.
  { rewrite !render_app, Hrest, !string_app_assoc. reflexivity. }
  pose proof (identityInsertNeeded_spec this vss Hd) as Hspec.
  unfold identityInsertWrapper. destruct (identityInsertNeeded this vss).
  - left. split; [by apply Hspec|done].
  - right. split; [|done]. intros Hex. apply Hspec in Hex. done.
Qed.

Lemma identity_insert_wrapper_witness :
  ∃ insert rest,
    render insert = "INSERT INTO [post]" +:+ rest
    ∧ (((∃ column, column ∈ insertedColumns explicitId [[("id", VData "7"); ("name", VData "a")]]
                   ∧ overrides [[("id", VData "7"); ("name", VData "a")]] column = true)
        ∧ (createInsertExpression explicitId).1
          = Ok (Text "SET IDENTITY_INSERT [post] ON; " :: insert
                ++ [Text "; SET IDENTITY_INSERT [post] OFF"]))
       ∨ ((¬ ∃ column, column ∈ insertedColumns explicitId
                                   [[("id", VData "7"); ("name", VData "a")]]
                       ∧ overrides [[("id", VData "7"); ("name", VData "a")]] column = true)
          ∧ (createInsertExpression explicitId).1 = Ok insert)).
Proof.
  destruct (createInsertExpression explicitId) as [[sql|e] this'] eqn:E; [|discriminate E].
  destruct (identity_insert_wrapper explicitId [[("id", VData "7"); ("name", VData "a")]]
              sql this' eq_refl eq_refl E) as (insert & rest & Hrender & [[Hex ->]|[Hno ->]]).
  - exists insert, rest. split; [exact Hrender|]. left. split; [exact Hex|reflexivity].
  - exists insert, rest. split; [exact Hrender|]. right. split; [exact Hno|reflexivity].
Defined.

(** ** C8: the ignore policy on an on-conflict dialect *)

(** C8, as stated, fails: the SQL text also holds text that comes from the
    caller. On Postgres with the ignore policy set, a raw SQL value that
    reads ['ON CONFLICT DO NOTHING'] gives a statement in which [ON CONFLICT
    DO NOTHING] occurs twice, and a returning expression that mentions [ON
    DUPLICATE KEY UPDATE] gives a statement in which that text occurs. *)
Lemma clause_text_from_the_caller :
  Driver.supportedUpsertType (driver ignoringPostgresRaw) = Some OnConflictDoUpdate
  ∧ QueryExpressionMap.onIgnore (expressionMap ignoringPostgresRaw) = true
  ∧ compiledText ignoringPostgresRaw
    = Some "INSERT INTO [post]([name]) VALUES ('ON CONFLICT DO NOTHING') ON CONFLICT DO NOTHING "
  ∧ occurrences "ON CONFLICT DO NOTHING" <$> compiledText ignoringPostgresRaw = Some 2
  ∧ Driver.supportedUpsertType (driver ignoringPostgresReturning) = Some OnConflictDoUpdate
  ∧ QueryExpressionMap.onIgnore (expressionMap ignoringPostgresReturning) = true
  ∧ compiledText ignoringPostgresReturning
    = Some "INSERT INTO [post]([name]) VALUES (:orm_param_0) ON CONFLICT DO NOTHING  RETURNING 'ON DUPLICATE KEY UPDATE' AS note"
  ∧ occurrences "ON DUPLICATE KEY UPDATE" <$> compiledText ignoringPostgresReturning = Some 1.
Proof. repeat split; reflexivity. Qed.

(** C8, amended. On a dialect whose upsert style is on-conflict-do-update,
    with the ignore policy set and whatever raw conflict clause and
    structured update policy are configured, the upsert clause is the single
    text [ ON CONFLICT DO NOTHING ], and the statement is the text up to and
    including the VALUES body, then that clause, then the RETURNING part. The
    text [ON CONFLICT DO NOTHING] therefore occurs exactly once more than in
    those two parts, and [ON DUPLICATE KEY UPDATE] occurs nowhere else than
    in them: the statement has exactly one [ON CONFLICT DO NOTHING] and no
    [ON DUPLICATE KEY UPDATE] when neither occurs in those parts, which hold
    the table and column names, the raw SQL values and the returning
    expression. *)
Theorem ignore_policy_do_nothing (this : InsertQueryBuilder) (vss : list ObjectLiteral) :
  Driver.supportedUpsertType (driver this) = Some OnConflictDoUpdate →
  QueryExpressionMap.onIgnore (expressionMap this) = true →
  getValueSets this = (Ok vss, this) →
  upsertExpression this = (Ok [Text " ON CONFLICT DO NOTHING "], this)
  ∧ ∃ values this1 sql this',
      createValuesExpression this = (Ok values, this1)
      ∧ createInsertExpression this = (Ok sql, this')
      ∧ let returning :=
          (returningOf this vss (length (QueryExpressionMap.parameters (expressionMap this1)))).1
        in
        let before := identityInsertOn (identityInsertNeeded this vss) (tableNameOf this)
                      +:+ render (beforeUpsert this vss values returning) in
        let after := render (afterUpsert this returning)
                     +:+ identityInsertOff (identityInsertNeeded this vss) (tableNameOf this) in
        render sql = before +:+ " ON CONFLICT DO NOTHING " +:+ after
        ∧ occurrences "ON CONFLICT DO NOTHING" (render sql)
          = occurrences "ON CONFLICT DO NOTHING" before + 1
            + occurrences "ON CONFLICT DO NOTHING" after
        ∧ occurrences "ON DUPLICATE KEY UPDATE" (render sql)
          = occurrences "ON DUPLICATE KEY UPDATE" before
            + occurrences "ON DUPLICATE KEY UPDATE" after
        ∧ (occurrences "ON CONFLICT DO NOTHING" before = 0 →
           occurrences "ON CONFLICT DO NOTHING" after = 0 →
           occurrences "ON CONFLICT DO NOTHING" (render sql) = 1)
        ∧ (occurrences "ON DUPLICATE KEY UPDATE" before = 0 →
           occurrences "ON DUPLICATE KEY UPDATE" after = 0 →
           occurrences "ON DUPLICATE KEY UPDATE" (render sql) = 0).
Proof.
  intros Hd Hi Hv. split; [by apply upsertExpression_ignore|].
  destruct (createInsertExpression_touch this vss
              (QueryExpressionMap.parameters (expressionMap this))
              (QueryExpressionMap.locallyGenerated (expressionMap this)) (uuidsDrawn this) Hv)
    as (values & added & g' & n' & Ev & _ & E).
  cbv zeta in E. rewrite touch_self in E, Ev.
  rewrite (upsertExpression_ignore _ Hd Hi) in E. cbn [fst] in E.
  eexists values, _, _, _. split; [exact Ev|]. split; [exact E|].
  cbv zeta.
  change (QueryExpressionMap.parameters (expressionMap (touch ?a ?b ?c ?d))) with a.
  assert (∀ a b c d : string, a +:+ ((b +:+ " ON CONFLICT DO NOTHING ") +:+ c) +:+ d
                              = (a +:+ b) +:+ " ON CONFLICT DO NOTHING " +:+ c +:+ d) as Hassoc.
  { intros a b c d. by rewrite !string_app_assoc. }
  rewrite render_identityInsertWrapper, !render_app. cbn [render foldr renderPiece].
  rewrite string_app_empty_r, Hassoc.
  split; [done|].
  rewrite !occurrences_splice by (vm_compute; done || lia).
  change (occurrences "ON CONFLICT DO NOTHING" " ON CONFLICT DO NOTHING ") with 1.
  change (occurrences "ON DUPLICATE KEY UPDATE" " ON CONFLICT DO NOTHING ") with 0.
  repeat split; intros; lia.
Qed.

Lemma ignore_policy_do_nothing_witness :
  upsertExpression ignoringPostgres = (Ok [Text " ON CONFLICT DO NOTHING "], ignoringPostgres)
  ∧ ∃ sql,
      (createInsertExpression ignoringPostgres).1 = Ok sql
      ∧ occurrences "ON CONFLICT DO NOTHING" (render sql) = 1
      ∧ occurrences "ON DUPLICATE KEY UPDATE" (render sql) = 0.
Proof.
  destruct (ignore_policy_do_nothing ignoringPostgres [[("name", VData "a")]]
              eq_refl eq_refl eq_refl)
    as (Hupsert & values & this1 & sql & this' & Hvalues & Hsql & _ & Hone & Hnone & _).
  split; [exact Hupsert|].
  exists sql. split; [by rewrite Hsql|].
  assert ((createInsertExpression ignoringPostgres).1
          = Ok [Text "INSERT "; Text "INTO [post]"; Text "([name])"; Text " VALUES ";
                Text "("; Placeholder 0; Text ")"; Text " ON CONFLICT DO NOTHING "]) as E
    by reflexivity.
  rewrite Hsql in E. injection E as ->. split; reflexivity.
Defined.

(** ** C7: UUIDs generated by the builder *)





(** ** C9: orUpdate *)

Lemma getValueSets_with_onUpdate this policy vss :
  getValueSets this = (Ok vss, this) →
  getValueSets (withExpressionMap (QueryExpressionMap.with_onUpdate policy) this)
  = (Ok vss, withExpressionMap (QueryExpressionMap.with_onUpdate policy) this).
Proof.
  unfold getValueSets, bind, get. simpl.
  destruct (QueryExpressionMap.valuesSet (expressionMap this)); simpl; intros H;
    by inversion H.
Qed.

(** C9. [orUpdate] never throws, on any dialect: it only records the policy.
    On a dialect without upsert support the error is raised later, when the
    INSERT expression is compiled; [returning], in contrast, throws at once
    on a dialect without returning support. *)
Theorem orUpdate_never_throws (arguments : OrUpdateArguments) (this : InsertQueryBuilder) :
  ∃ policy,
    orUpdate arguments this
    = (Ok tt, withExpressionMap (QueryExpressionMap.with_onUpdate (Some policy)) this)
    ∧ (Driver.supportedUpsertType (driver this) = None →
       ∀ vss, getValueSets this = (Ok vss, this) →
              ∃ this',
                createInsertExpression (orUpdate arguments this).2
                = (Throw (TypeORMError
                            "onUpdate is not supported by the current database driver"),
                   this'))
    ∧ (Driver.isReturningSqlSupported (driver this) = false →
       ∀ r, returning r this = (Throw ReturningStatementNotSupportedError, this)).
Proof.
  assert (∃ policy, orUpdate arguments this
                    = (Ok tt, withExpressionMap
                                (QueryExpressionMap.with_onUpdate (Some policy)) this))
    as [policy E].
  { destruct arguments; eexists; reflexivity. }
  exists policy. split; [exact E|]. split.
  - intros Hd vss Hv. rewrite E. cbn [snd].
    set (this2 := withExpressionMap (QueryExpressionMap.with_onUpdate (Some policy)) this).
    destruct (createInsertExpression_unsupported this2 policy vss
                (QueryExpressionMap.parameters (expressionMap this2))
                (QueryExpressionMap.locallyGenerated (expressionMap this2)) (uuidsDrawn this2)
                Hd eq_refl (getValueSets_with_onUpdate _ _ _ Hv)) as [s' Es].
    rewrite touch_self in Es. eauto.
  - intros Hr r. unfold returning, bind, get. simpl. by rewrite Hr.
Qed.

Lemma orUpdate_never_throws_witness :
  (orUpdate (OrUpdateOverwrite ["name"] ConflictUndefined) ignoringSqlServer).1 = Ok tt
  ∧ ∃ this',
      createInsertExpression
        (orUpdate (OrUpdateOverwrite ["name"] ConflictUndefined) ignoringSqlServer).2
      = (Throw (TypeORMError "onUpdate is not supported by the current database driver"),
         this').
Proof.
  destruct (orUpdate_never_throws (OrUpdateOverwrite ["name"] ConflictUndefined)
              ignoringSqlServer) as (policy & E & Hcompile & _).
  split; [by rewrite E|].
  exact (Hcompile eq_refl [[("name", VData "a")]] eq_refl).
Defined.

(** ** C10: orIgnore *)

Lemma truthy_true (s : string) : s ≠ "" → truthy s = true.
Proof.
  intros Hne. unfold truthy. apply negb_true_iff.
  destruct (String.eqb s "") eqn:E; [|done]. by apply String.eqb_eq in E.
Qed.

(** C10. [orIgnore] keeps only the truth value of its argument. A non-empty
    string leaves the builder exactly as [orIgnore(true)] does, so the
    compiled statement is the same for every non-empty string and none of its
    text can reach the SQL; the empty string disables the ignore policy. *)
Theorem orIgnore_discards_text (s : string) (this : InsertQueryBuilder) :
  orIgnore (IgnoreString s) this = orIgnore (IgnoreBoolean (truthy s)) this
  ∧ (s ≠ "" →
     orIgnore (IgnoreString s) this = orIgnore (IgnoreBoolean true) this
     ∧ createInsertExpression (orIgnore (IgnoreString s) this).2
       = createInsertExpression (orIgnore (IgnoreBoolean true) this).2
     ∧ ∀ s', s' ≠ "" →
             createInsertExpression (orIgnore (IgnoreString s') this).2
             = createInsertExpression (orIgnore (IgnoreString s) this).2)
  ∧ QueryExpressionMap.onIgnore (expressionMap (orIgnore (IgnoreString "") this).2) = false.
Proof.
  split; [reflexivity|]. split; [|reflexivity].
  intros Hne.
  assert (∀ t, t ≠ "" → orIgnore (IgnoreString t) this = orIgnore (IgnoreBoolean true) this)
    as Hsame.
  { intros t Ht. unfold orIgnore, toBoolean. by rewrite (truthy_true _ Ht). }
  split; [by apply Hsame|]. split; [by rewrite Hsame|].
  intros s' Hs'. by rewrite !Hsame.
Qed.

Lemma orIgnore_discards_text_witness :
  orIgnore (IgnoreString "DROP TABLE post") ignoringSqlServer
  = orIgnore (IgnoreBoolean true) ignoringSqlServer
  ∧ createInsertExpression (orIgnore (IgnoreString "DROP TABLE post") ignoringSqlServer).2
    = createInsertExpression (orIgnore (IgnoreBoolean true) ignoringSqlServer).2.
Proof.
  destruct (orIgnore_discards_text "DROP TABLE post" ignoringSqlServer) as (_ & Htruthy & _).
  destruct (Htruthy ltac:(discriminate)) as (Hsame & Hcompiled & _).
  split; [exact Hsame|exact Hcompiled].
Defined.

(** * Further properties of the code *)

(** ** The calls of [execute] *)

Lemma getQueryAndParameters_frame b :
  ∃ p g n, (getQueryAndParameters b).2 = touch p g n b.
Proof.
  destruct (getValueSets_cases b) as [[e H]|[vss H]].
  - pose proof (createInsertExpression_missing b e
                  (QueryExpressionMap.parameters (expressionMap b))
                  (QueryExpressionMap.locallyGenerated (expressionMap b)) (uuidsDrawn b) H) as E.
    rewrite touch_self in E.
    unfold getQueryAndParameters, getQuery, bind, get. rewrite E. simpl.
    eexists _, _, _. symmetry. apply touch_self.
  - destruct (createInsertExpression_touch b vss
                (QueryExpressionMap.parameters (expressionMap b))
                (QueryExpressionMap.locallyGenerated (expressionMap b)) (uuidsDrawn b) H)
      as (values & added & g' & n' & _ & _ & E).
    cbv zeta in E. rewrite touch_self in E.
    unfold getQueryAndParameters, getQuery, bind, get. rewrite E.
    destruct (upsertExpression b) as [[u|e] s]; simpl; eauto.
Qed.

Lemma compiling_request this vss : sameRequest this (compiling this vss).
Proof. unfold compiling. case_match; [by eexists|apply sameRequest_refl]. Qed.

Lemma compiled_frame this vss :
  ∃ columns p g n,
    compiled this vss
    = touch p g n
        (withExpressionMap (QueryExpressionMap.with_extraReturningColumns columns) this).
Proof.
  unfold compiled.
  destruct (getQueryAndParameters_frame (compiling this vss)) as (p & g & n & ->).
  destruct (compiling_request this vss) as [columns ->]. by exists columns, p, g, n.
Qed.

Lemma compiled_flags this vss :
  inherited (compiled this vss) = inherited this
  ∧ listenersEnabled (expressionMap (compiled this vss)) = listenersEnabled (expressionMap this)
  ∧ entityUpdateEnabled (expressionMap (compiled this vss))
    = entityUpdateEnabled (expressionMap this)
  ∧ QueryExpressionMap.valuesSet (expressionMap (compiled this vss))
    = QueryExpressionMap.valuesSet (expressionMap this).
Proof. by destruct (compiled_frame this vss) as (columns & p & g & n & ->). Qed.







Lemma fmap_take_prefix {A B} (f : A → B) (k : nat) (l : list A) :
  (f <$> take k l) `prefix_of` (f <$> l).
Proof. exists (f <$> drop k l). by rewrite <- fmap_app, take_drop. Qed.

#[local] Arguments transactionStarted : simpl never.
#[local] Arguments startsTransaction : simpl never.
#[local] Arguments tryCalls : simpl never.
#[local] Arguments compiling : simpl never.
#[local] Arguments compiled : simpl never.
#[local] Arguments written : simpl never.
#[local] Arguments updatedRecords : simpl never.
#[local] Arguments updatedResult : simpl never.
#[local] Arguments entityUpdate : simpl never.

Ltac solve_prefix := repeat apply prefix_app; by eexists.

Section TryBlockCalls.
Variable this : InsertQueryBuilder.
Variable valueSets : list ObjectLiteral.
Variable evs : list Event.

Let s1 : list Event := if startsTransaction this then [StartTransaction] else [].
Let s2 : list Event :=
  if listenersEnabled (expressionMap this) then BroadcastBeforeInsert <$> valueSets else [].
Let s4 : list Event := if entityUpdateEnabled (expressionMap this) then [UpdateEntity] else [].
Let s6 : list Event := if startsTransaction this then [CommitTransaction] else [].

(** The query sent carries the compiled INSERT: alone, or on SQL Server
    between the declaration of the output table and the selection from it. *)
Let sent (sql insertSql : Sql) : Prop :=
  sql = insertSql
  ∨ instanceOf (driver this) SqlServerDriver = true
    ∧ ∃ declaration,
        sql = Text declaration :: Text (";" +:+ newline +:+ newline) :: insertSql
              ++ [Text (";" +:+ newline +:+ newline); Text "SELECT * FROM @OutputTable"].

(** The state of a failed [try] block. *)
Let failed (st : Execution) : Prop :=
  transactionStartedByUs st = transactionStarted this
  ∧ ∃ query trace,
      (query = [] ∨ ∃ sql parameters, query = [Query sql parameters])
      ∧ events st = evs ++ trace
      ∧ trace `prefix_of` tryCalls this valueSets query
      ∧ s1 `prefix_of` trace
      ∧ (transactionStarted this = startsTransaction this ∨ trace = [StartTransaction])
      ∧ (builder st = this
         ∨ builder st = compiled this valueSets
         ∨ ∃ sql parameters result,
             query = [Query sql parameters]
             ∧ Query sql parameters ∈ trace
             ∧ QueryRunner.query (runnerOf this) sql parameters = Ok result
             ∧ builder st = written this valueSets result).

Let completed (r : InsertResult.t) (st : Execution) : Prop :=
  transactionStartedByUs st = startsTransaction this
  ∧ transactionStarted this = startsTransaction this
  ∧ ∃ insertSql sql parameters result,
      getQueryAndParameters (compiling this valueSets)
      = (Ok (insertSql, parameters), compiled this valueSets)
      ∧ sent sql insertSql
      ∧ QueryRunner.query (runnerOf this) sql parameters = Ok result
      ∧ r = updatedResult this valueSets result
      ∧ events st = evs ++ tryCalls this valueSets [Query sql parameters]
      ∧ builder st = written this valueSets result.

Lemma tryBlock_calls :
  triple (λ st, st = {| builder := this; events := evs; transactionStartedByUs := false |})
         (tryBlock (runnerOf this) valueSets) completed (λ _, failed).
Proof.
  intros st0 ->. unfold tryBlock. unfold bind at 1, get at 1.
  cbn [builder events transactionStartedByUs].
  fold (startsTransaction this).
  set (start := {| builder := this; events := evs; transactionStartedByUs := false |}).
  (* start transaction if it was enabled *)
  refine (triple_bind (λ st, st = start) _
            (λ _ st, builder st = this ∧ events st = evs ++ s1
                     ∧ transactionStartedByUs st = startsTransaction this
                     ∧ transactionStarted this = startsTransaction this)
            _ _ _ _ _ start eq_refl).
  { intros st ->. unfold s1, failed, transactionStarted.
    destruct (startsTransaction this) eqn:Etx.
    - unfold bind, await, emit, modify at 1, setTransactionStartedByUs, modify. simpl.
      destruct (QueryRunner.startTransaction (runnerOf this)) as [[]|e]; simpl; [done|].
      split; [done|].
      exists [], [StartTransaction]. split; [by left|]. split; [done|].
      split; [unfold tryCalls; rewrite Etx; by eexists|]. split; [done|].
      split; [by right|by left].
    - simpl. by rewrite app_nil_r. }
  intros _.
  (* call before insertion methods in listeners and subscribers *)
  eapply (triple_bind _ _
            (λ _ st, builder st = this ∧ events st = evs ++ s1 ++ s2
                     ∧ transactionStartedByUs st = startsTransaction this
                     ∧ transactionStarted this = startsTransaction this)).
  { intros st (Hb & He & Hf & Hs). unfold s2, failed.
    destruct (listenersEnabled (expressionMap this)) eqn:El.
    - pose proof (broadcast_spec BroadcastBeforeInsert
                    (QueryRunner.broadcastBeforeInsertEvent (runnerOf this)) valueSets st) as H.
      destruct (broadcast _ _ _ st) as [[[]|e] st'].
      + destruct H as [_ ->]. simpl. rewrite He. by rewrite <- app_assoc.
      + assert (∃ reached, st' = {| builder := builder st;
                                    events := events st ++ (BroadcastBeforeInsert <$> reached);
                                    transactionStartedByUs := transactionStartedByUs st |}
                           ∧ (BroadcastBeforeInsert <$> reached)
                             `prefix_of` (BroadcastBeforeInsert <$> valueSets))
          as (reached & -> & Hp).
        { destruct H as [(? & _ & _ & ->)|(k & ? & ? & _ & _ & _ & ->)].
          - by exists valueSets.
          - exists (take (S k) valueSets). split; [done|apply fmap_take_prefix]. }
        simpl. split; [cbn [transactionStartedByUs]; congruence|].
        exists [], (s1 ++ (BroadcastBeforeInsert <$> reached)).
        split; [by left|]. split; [by rewrite He, <- app_assoc|].
        unfold tryCalls. rewrite El. fold s1.
        split; [by apply prefix_app, prefix_app_r|]. split; [by eexists|].
        split; [by left|by left].
    - simpl. by rewrite app_nil_r. }
  intros _.
  set (returningColumns := match QueryExpressionMap.returning _, _ with
                           | ReturningColumns _, Some _ => _ | _, _ => [] end).
  eapply (triple_bind _ _
            (λ _ st, builder st = compiling this valueSets ∧ events st = evs ++ s1 ++ s2
                     ∧ transactionStartedByUs st = startsTransaction this
                     ∧ transactionStarted this = startsTransaction this)).
  { intros st (Hb & He & Hf & Hs). unfold compiling.
    destruct (entityUpdateEnabled (expressionMap this)).
    - unfold bind, onBuilder, modify, get, ret.
      destruct (negb _); simpl; by rewrite Hb.
    - simpl. done. }
  intros returningColumns'.
  set (outputTable := _ && instanceOf _ SqlServerDriver).
  assert (outputTable = true → instanceOf (driver this) SqlServerDriver = true) as Hout
    by (unfold outputTable; by intros [_ ?]%andb_true_iff).
  clearbody outputTable.
  (* execute query *)
  eapply (triple_bind _ _
            (λ '(insertSql, parameters) st,
               builder st = compiled this valueSets ∧ events st = evs ++ s1 ++ s2
               ∧ transactionStartedByUs st = startsTransaction this
               ∧ transactionStarted this = startsTransaction this
               ∧ getQueryAndParameters (compiling this valueSets)
                 = (Ok (insertSql, parameters), compiled this valueSets))).
  { intros st (Hb & He & Hf & Hs). unfold onBuilder. rewrite Hb.
    unfold compiled.
    destruct (getQueryAndParameters (compiling this valueSets)) as [[[sql ps]|e] b'] eqn:E;
      simpl in *.
    - done.
    - split; [cbn [transactionStartedByUs]; congruence|].
      exists [], (s1 ++ s2). split; [by left|]. split; [done|].
      unfold tryCalls. fold s1 s2.
      split; [solve_prefix|]. split; [by eexists|]. split; [by left|].
      right. left. unfold compiled. by rewrite E. }
  intros [insertSql parameters].
  set (sql := joinSql _ _).
  assert (sent sql insertSql) as Hsql.
  { subst sql. destruct outputTable; [right|by left].
    split; [by apply Hout|]. eexists. reflexivity. }
  clearbody sql.
  eapply (triple_bind _ _
            (λ queryResult st,
               builder st = compiled this valueSets
               ∧ events st = evs ++ s1 ++ s2 ++ [Query sql parameters]
               ∧ transactionStartedByUs st = startsTransaction this
               ∧ transactionStarted this = startsTransaction this
               ∧ getQueryAndParameters (compiling this valueSets)
                 = (Ok (insertSql, parameters), compiled this valueSets)
               ∧ QueryRunner.query (runnerOf this) sql parameters = Ok queryResult)).
  { intros st (Hb & He & Hf & Hs & Hq).
    unfold await, bind, emit, modify. simpl.
    destruct (QueryRunner.query (runnerOf this) sql parameters) as [result|e] eqn:Eq; simpl.
    - split; [done|]. split; [by rewrite He, <- !app_assoc|]. done.
    - split; [cbn [transactionStartedByUs]; congruence|].
      exists [Query sql parameters], (s1 ++ s2 ++ [Query sql parameters]).
      split; [right; eauto|]. split; [by rewrite He, <- !app_assoc|].
      unfold tryCalls. fold s1 s2.
      split; [solve_prefix|]. split; [by eexists|]. split; [by left|]. right. by left. }
  intros queryResult.
  eapply triple_bind; [apply triple_get|]. intros st1.
  destruct (compiled_flags this valueSets) as (Hinh & Hl & Hu & _).
  assert (recordsAfter this valueSets [Query sql parameters]
          = match QueryRunner.query (runnerOf this) sql parameters with
            | Ok result => updatedRecords this valueSets result
            | Throw _ => valueSets
            end) as Hafter by done.
  (* load returning results and set them to the entity *)
  eapply (triple_bind _ _
            (λ '(insertResult, updated) st,
               builder st = written this valueSets queryResult
               ∧ events st = evs ++ s1 ++ s2 ++ [Query sql parameters] ++ s4
               ∧ transactionStartedByUs st = startsTransaction this
               ∧ transactionStarted this = startsTransaction this
               ∧ getQueryAndParameters (compiling this valueSets)
                 = (Ok (insertSql, parameters), compiled this valueSets)
               ∧ QueryRunner.query (runnerOf this) sql parameters = Ok queryResult
               ∧ insertResult = updatedResult this valueSets queryResult
               ∧ updated = updatedRecords this valueSets queryResult
               ∧ builder st1 = compiled this valueSets)).
  { intros st (-> & Hb & He & Hf & Hs & Hc & Hq).
    rewrite Hb, Hu. unfold s4, written, updatedResult, updatedRecords.
    destruct (entityUpdateEnabled (expressionMap this)) eqn:Eu.
    - unfold updateEntities, await, bind, get, emit, modify, onBuilder, ret.
      cbn [builder events transactionStartedByUs fst snd].
      rewrite Hb, Hinh. fold (entityUpdate this valueSets queryResult).
      destruct (EntityUpdate.completion (entityUpdate this valueSets queryResult)); simpl.
      + split; [done|]. split; [by rewrite He, <- !app_assoc|]. done.
      + split; [cbn [transactionStartedByUs]; congruence|].
        exists [Query sql parameters], (s1 ++ s2 ++ [Query sql parameters] ++ [UpdateEntity]).
        split; [right; eauto|]. split; [by rewrite He, <- !app_assoc|].
        unfold tryCalls. fold s1 s2. rewrite Eu.
        split; [solve_prefix|]. split; [by eexists|]. split; [by left|].
        right. right. exists sql, parameters, queryResult.
        split; [done|]. split; [rewrite !elem_of_app; do 2 right; left; apply list_elem_of_here|].
        split; [done|]. unfold written, updatedRecords. by rewrite Eu.
    - simpl. by rewrite ?app_nil_r. }
  intros [insertResult updated].
  (* call after insertion methods in listeners and subscribers *)
  eapply (triple_bind _ _
            (λ _ st,
               builder st = written this valueSets queryResult
               ∧ events st
                 = evs ++ s1 ++ s2 ++ [Query sql parameters] ++ s4
                   ++ (if listenersEnabled (expressionMap this)
                       then BroadcastAfterInsert <$> updatedRecords this valueSets queryResult
                       else [])
               ∧ transactionStartedByUs st = startsTransaction this
               ∧ transactionStarted this = startsTransaction this
               ∧ getQueryAndParameters (compiling this valueSets)
                 = (Ok (insertSql, parameters), compiled this valueSets)
               ∧ QueryRunner.query (runnerOf this) sql parameters = Ok queryResult
               ∧ insertResult = updatedResult this valueSets queryResult)).
  { intros st (Hb & He & Hf & Hs & Hc & Hq & Hr & -> & Hb1).
    rewrite Hb1, Hl.
    destruct (listenersEnabled (expressionMap this)) eqn:El.
    - pose proof (broadcast_spec BroadcastAfterInsert
                    (QueryRunner.broadcastAfterInsertEvent (runnerOf this))
                    (updatedRecords this valueSets queryResult) st) as H.
      destruct (broadcast _ _ _ st) as [[[]|e] st'].
      + destruct H as [_ ->]. simpl. split; [done|].
        split; [by rewrite He, <- !app_assoc|]. done.
      + assert (∃ reached,
                  st' = {| builder := builder st;
                           events := events st ++ (BroadcastAfterInsert <$> reached);
                           transactionStartedByUs := transactionStartedByUs st |}
                  ∧ (BroadcastAfterInsert <$> reached)
                    `prefix_of` (BroadcastAfterInsert
                                   <$> updatedRecords this valueSets queryResult))
          as (reached & -> & Hp).
        { destruct H as [(? & _ & _ & ->)|(k & ? & ? & _ & _ & _ & ->)].
          - by eexists.
          - eexists. split; [done|apply fmap_take_prefix]. }
        simpl. split; [cbn [transactionStartedByUs]; congruence|].
        exists [Query sql parameters],
               (s1 ++ s2 ++ [Query sql parameters] ++ s4 ++ (BroadcastAfterInsert <$> reached)).
        split; [right; eauto|]. split; [by rewrite He, <- !app_assoc|].
        unfold tryCalls. fold s1 s2 s4. rewrite El, Hafter, Hq.
        split; [by do 4 apply prefix_app; apply prefix_app_r|].
        split; [by eexists|]. split; [by left|].
        right. right. exists sql, parameters, queryResult.
        split; [done|]. split; [rewrite !elem_of_app; do 2 right; left; apply list_elem_of_here|].
        done.
    - simpl. by rewrite ?app_nil_r. }
  intros _. eapply triple_bind; [apply triple_get|]. intros st2.
  (* close transaction if we started it *)
  eapply (triple_bind _ _ (λ _, completed insertResult)).
  2:{ intros _. apply (triple_ret _ completed). }
  intros st (-> & Hb & He & Hf & Hs & Hc & Hq & Hr). unfold completed, failed.
  rewrite Hf. unfold s6.
  assert (evs ++ s1 ++ s2 ++ [Query sql parameters] ++ s4
          ++ (if listenersEnabled (expressionMap this)
              then BroadcastAfterInsert <$> updatedRecords this valueSets queryResult
              else [])
          ++ s6
          = evs ++ tryCalls this valueSets [Query sql parameters]) as Hall.
  { unfold tryCalls. fold s1 s2 s4 s6. by rewrite Hafter, Hq. }
  destruct (startsTransaction this) eqn:Etx.
  - unfold await, bind, emit, modify. simpl.
    destruct (QueryRunner.commitTransaction _); simpl.
    + split; [done|]. split; [done|].
      exists insertSql, sql, parameters, queryResult.
      split; [done|]. split; [done|]. split; [done|]. split; [done|]. split; [|done].
      rewrite <- Hall, He. unfold s6. by rewrite <- !app_assoc.
    + split; [cbn [transactionStartedByUs]; congruence|].
      exists [Query sql parameters], (tryCalls this valueSets [Query sql parameters]).
      split; [right; eauto|].
      split; [rewrite <- Hall, He; unfold s6; by rewrite <- !app_assoc|].
      split; [done|]. split; [unfold tryCalls; rewrite Etx; by eexists|].
      split; [by left|].
      right. right. exists sql, parameters, queryResult.
      split; [done|]. split; [|done].
      unfold tryCalls. rewrite !elem_of_app. do 2 right. left. apply list_elem_of_here.
  - simpl. split; [done|]. split; [done|].
    exists insertSql, sql, parameters, queryResult.
    split; [done|]. split; [done|]. split; [done|]. split; [done|]. split; [|done].
    rewrite <- Hall, He. unfold s6. by rewrite ?app_nil_r.
Qed.
End TryBlockCalls.

Lemma tryCalls_elem this vss query e :
  e ∈ tryCalls this vss query →
  e ∈ query
  ∨ (e = StartTransaction ∧ startsTransaction this = true)
  ∨ (∃ vs, e = BroadcastBeforeInsert vs ∧ vs ∈ vss)
  ∨ e = UpdateEntity
  ∨ (∃ vs, e = BroadcastAfterInsert vs)
  ∨ (e = CommitTransaction ∧ startsTransaction this = true).
Proof.
  unfold tryCalls. rewrite !elem_of_app.
  intros [H|[H|[H|[H|[H|H]]]]].
  - destruct (startsTransaction this); [|by apply elem_of_nil in H].
    apply list_elem_of_singleton in H. auto.
  - destruct (listenersEnabled _); [|by apply elem_of_nil in H].
    apply list_elem_of_fmap in H as (vs & -> & Hin). eauto 10.
  - auto.
  - destruct (entityUpdateEnabled _); [|by apply elem_of_nil in H].
    apply list_elem_of_singleton in H. auto 10.
  - destruct (listenersEnabled _); [|by apply elem_of_nil in H].
    apply list_elem_of_fmap in H as (vs & -> & Hin). eauto 10.
  - destruct (startsTransaction this); [|by apply elem_of_nil in H].
    apply list_elem_of_singleton in H. auto 10.
Qed.

Lemma run_calls (this : InsertQueryBuilder) (vss : list ObjectLiteral) :
  getValueSets this = (Ok vss, this) → vss ≠ [] →
  ∃ query trace rollback,
    (query = [] ∨ ∃ sql parameters, query = [Query sql parameters])
    ∧ trace `prefix_of` tryCalls this vss query
    ∧ (if startsTransaction this then [StartTransaction] else []) `prefix_of` trace
    ∧ (transactionStarted this = startsTransaction this ∨ trace = [StartTransaction])
    ∧ (rollback = []
       ∨ rollback = [RollbackTransaction] ∧ transactionStarted this = true
         ∧ ∃ e, (run this).1 = Throw e)
    ∧ events (run this).2
      = (if ownsRunner this then [CreateQueryRunner] else [])
        ++ trace ++ rollback
        ++ (if ownsRunner this then [Release] else [])
    ∧ (builder (run this).2 = this
       ∨ builder (run this).2 = compiled this vss
       ∨ ∃ sql parameters result,
           query = [Query sql parameters]
           ∧ Query sql parameters ∈ trace
           ∧ QueryRunner.query (runnerOf this) sql parameters = Ok result
           ∧ builder (run this).2 = written this vss result)
    ∧ (∀ r, (run this).1 = Ok r →
            trace = tryCalls this vss query ∧ rollback = []
            ∧ ∃ insertSql sql parameters result,
                query = [Query sql parameters]
                ∧ getQueryAndParameters (compiling this vss)
                  = (Ok (insertSql, parameters), compiled this vss)
                ∧ (sql = insertSql
                   ∨ instanceOf (driver this) SqlServerDriver = true
                     ∧ ∃ declaration,
                         sql = Text declaration
                               :: Text (";" +:+ newline +:+ newline) :: insertSql
                               ++ [Text (";" +:+ newline +:+ newline);
                                   Text "SELECT * FROM @OutputTable"])
                ∧ QueryRunner.query (runnerOf this) sql parameters = Ok result
                ∧ r = updatedResult this vss result
                ∧ builder (run this).2 = written this vss result).
Proof.
  intros Hv Hne. rewrite (run_protected _ _ Hv Hne).
  pose proof (tryBlock_calls this vss (if ownsRunner this then [CreateQueryRunner] else [])
                (entryState this) eq_refl) as Htry.
  unfold tryFinally, tryCatch.
  destruct (tryBlock (runnerOf this) vss (entryState this)) as [[r|e] st1].
  - destruct Htry as (_ & Hs & insertSql & sql & ps & result & Hc & Hsent & Hq & -> & He & Hb).
    exists [Query sql ps], (tryCalls this vss [Query sql ps]), [].
    split; [right; eauto|]. split; [done|].
    split; [unfold tryCalls; by eexists|]. split; [by left|]. split; [by left|].
    assert (Query sql ps ∈ tryCalls this vss [Query sql ps]) as Hin.
    { unfold tryCalls. rewrite !elem_of_app. do 2 right. left. apply list_elem_of_here. }
    unfold finallyBlock, await, bind, emit, modify.
    destruct (ownsRunner this); simpl.
    + destruct (QueryRunner.release (runnerOf this)) as [[]|e]; simpl;
        (split; [by rewrite He, <- !app_assoc|]);
        (split; [right; right; by exists sql, ps, result|]); [|done].
      intros r [= <-]. split; [done|]. split; [done|].
      by exists insertSql, sql, ps, result.
    + split; [by rewrite He, !app_nil_r|].
      split; [right; right; by exists sql, ps, result|].
      intros r [= <-]. split; [done|]. split; [done|].
      by exists insertSql, sql, ps, result.
  - destruct Htry as (Hf & query & trace & Hquery & He & Hprefix & Hs1 & Hst & Hb).
    unfold catchBlock, bind, get, tryCatch, await, emit, modify, throw, ret. simpl.
    rewrite Hf.
    destruct (transactionStarted this) eqn:Es.
    + exists query, trace, [RollbackTransaction].
      do 4 (split; [done|]).
      unfold finallyBlock, await, bind, emit, modify.
      destruct (QueryRunner.rollbackTransaction (runnerOf this)); simpl;
        destruct (ownsRunner this); simpl;
        try destruct (QueryRunner.release (runnerOf this)) as [[]|]; simpl;
        (split; [right; eauto|]); (split; [by rewrite He, <- ?app_assoc, ?app_nil_r|]);
        done.
    + exists query, trace, [].
      do 4 (split; [done|]). split; [by left|].
      unfold finallyBlock, await, bind, emit, modify.
      destruct (ownsRunner this); simpl;
        try destruct (QueryRunner.release (runnerOf this)) as [[]|]; simpl;
        (split; [by rewrite He, <- ?app_assoc, ?app_nil_r|]); done.
Qed.

(** X1. Without values ([values] was never called, or was given something
    that is neither an array nor an object), compiling and executing both
    fail with InsertValuesMissingError; [execute] fails before it obtains a
    query runner, and the builder is left as it was. *)
Theorem values_missing (this : InsertQueryBuilder) :
  QueryExpressionMap.valuesSet (expressionMap this) = ValuesUndefined →
  getQuery this = (Throw InsertValuesMissingError, this)
  ∧ getQueryAndParameters this = (Throw InsertValuesMissingError, this)
  ∧ run this = (Throw InsertValuesMissingError, initialState this).
Proof.
  intros H.
  assert (getValueSets this = (Throw InsertValuesMissingError, this)) as Hv.
  { unfold getValueSets, bind, get. by rewrite H. }
  pose proof (createInsertExpression_missing this _
                (QueryExpressionMap.parameters (expressionMap this))
                (QueryExpressionMap.locallyGenerated (expressionMap this)) (uuidsDrawn this)
                Hv) as E.
  rewrite touch_self in E.
  assert (getQuery this = (Throw InsertValuesMissingError, this)) as Hq.
  { unfold getQuery, bind, get. by rewrite E. }
  split; [exact Hq|]. split; [|by apply run_missing].
  unfold getQueryAndParameters, bind. by rewrite Hq.
Qed.

Lemma values_missing_witness :
  getQuery unsetInsert = (Throw InsertValuesMissingError, unsetInsert)
  ∧ getQueryAndParameters unsetInsert = (Throw InsertValuesMissingError, unsetInsert)
  ∧ run unsetInsert = (Throw InsertValuesMissingError, initialState unsetInsert).
Proof. exact (values_missing unsetInsert eq_refl). Defined.



(** X3. Whatever its outcome, a run of [execute] on at least one value set
    has made a beginning of the calls of a successful run, in the same
    order, at most one of them a query, then at most a rollback, then the
    release of the runner if it was created here, and nothing else. The
    rollback is there only if the transaction was started here and its start
    completed, and only in a run that fails. *)
Theorem execute_calls_in_order (this : InsertQueryBuilder) (vss : list ObjectLiteral) :
  getValueSets this = (Ok vss, this) → vss ≠ [] →
  ∃ query trace rollback,
    (query = [] ∨ ∃ sql parameters, query = [Query sql parameters])
    ∧ trace `prefix_of` tryCalls this vss query
    ∧ (rollback = []
       ∨ rollback = [RollbackTransaction] ∧ transactionStarted this = true
         ∧ ∃ error, (run this).1 = Throw error)
    ∧ events (run this).2
      = (if ownsRunner this then [CreateQueryRunner] else [])
        ++ trace ++ rollback
        ++ (if ownsRunner this then [Release] else []).
Proof.
  intros Hv Hne.
  destruct (run_calls this vss Hv Hne)
    as (query & trace & rollback & Hq & Hp & _ & _ & Hr & He & _).
  by exists query, trace, rollback.
Qed.

Lemma execute_calls_in_order_witness :
  ∃ query trace rollback,
    (query = [] ∨ ∃ sql parameters, query = [Query sql parameters])
    ∧ trace `prefix_of` tryCalls failingInsert [[("name", VData "a")]] query
    ∧ (rollback = []
       ∨ rollback = [RollbackTransaction] ∧ transactionStarted failingInsert = true
         ∧ ∃ error, (run failingInsert).1 = Throw error)
    ∧ events (run failingInsert).2
      = [CreateQueryRunner] ++ trace ++ rollback ++ [Release].
Proof.
  exact (execute_calls_in_order failingInsert [[("name", VData "a")]]
           eq_refl ltac:(discriminate)).
Defined.

(** X4. The query runner is released exactly when it was created by
    [execute]: without a supplied runner, the first call of a run on at least
    one value set creates the runner, the last call releases it, whatever
    happens in between, and it is neither created nor released a second
    time; a supplied runner is never released, and no runner is created. *)
Theorem runner_released_when_created (this : InsertQueryBuilder) (vss : list ObjectLiteral) :
  getValueSets this = (Ok vss, this) → vss ≠ [] →
  match queryRunner this with
  | None =>
      ∃ calls, events (run this).2 = CreateQueryRunner :: (calls ++ [Release])
               ∧ (CreateQueryRunner ∉ calls) ∧ (Release ∉ calls)
  | Some _ =>
      (CreateQueryRunner ∉ events (run this).2) ∧ (Release ∉ events (run this).2)
  end.
Proof.
  intros Hv Hne.
  destruct (run_calls this vss Hv Hne)
    as (query & trace & rollback & Hq & Hp & _ & _ & Hr & He & _).
  assert (∀ e, e ∈ trace ++ rollback → e ≠ CreateQueryRunner ∧ e ≠ Release) as Hin.
  { intros e [Hin|Hin]%elem_of_app.
    - destruct Hp as [k Hk].
      assert (e ∈ tryCalls this vss query) as Hc by (rewrite Hk; apply elem_of_app; auto).
      apply tryCalls_elem in Hc as [Hc|[[-> _]|[(? & -> & _)|[->|[(? & ->)|[-> _]]]]]];
        try done.
      destruct Hq as [->|(sql & ps & ->)]; [by apply elem_of_nil in Hc|].
      apply list_elem_of_singleton in Hc as ->. done.
    - destruct Hr as [->|(-> & _)]; [by apply elem_of_nil in Hin|].
      apply list_elem_of_singleton in Hin as ->. done. }
  unfold ownsRunner in He. destruct (queryRunner this).
  - rewrite He. simpl. rewrite app_nil_r.
    split; intros H; by destruct (Hin _ H).
  - exists (trace ++ rollback). split; [by rewrite He, <- app_assoc|].
    split; intros H; by destruct (Hin _ H).
Qed.

Lemma runner_released_when_created_witness :
  (∃ calls, events (run failingInsert).2 = CreateQueryRunner :: (calls ++ [Release])
            ∧ (CreateQueryRunner ∉ calls) ∧ (Release ∉ calls))
  ∧ (CreateQueryRunner ∉ events (run suppliedRunnerInsert).2)
  ∧ (Release ∉ events (run suppliedRunnerInsert).2).
Proof.
  split.
  - exact (runner_released_when_created failingInsert [[("name", VData "a")]]
             eq_refl ltac:(discriminate)).
  - exact (runner_released_when_created suppliedRunnerInsert [[("name", VData "a")]]
             eq_refl ltac:(discriminate)).
Defined.

Lemma transactionStarted_starts this :
  transactionStarted this = true → startsTransaction this = true.
Proof. unfold transactionStarted. by intros [? _]%andb_true_iff. Qed.

(** X5. [execute] ends only a transaction that it started itself. In a run
    on at least one value set, a transaction is started exactly when
    transactions are enabled and the runner has none active; a commit or a
    rollback is attempted only if that start was made and completed; a
    rollback only in a run that fails; and a run that succeeds after starting
    the transaction has committed it. *)
Theorem transaction_ended_only_if_started (this : InsertQueryBuilder)
  (vss : list ObjectLiteral) :
  getValueSets this = (Ok vss, this) → vss ≠ [] →
  (StartTransaction ∈ events (run this).2
   ↔ QueryExpressionMap.useTransaction (expressionMap this) = true
     ∧ QueryRunner.isTransactionActive (runnerOf this) = false)
  ∧ (CommitTransaction ∈ events (run this).2 →
     StartTransaction ∈ events (run this).2
     ∧ ∃ done, QueryRunner.startTransaction (runnerOf this) = Ok done)
  ∧ (RollbackTransaction ∈ events (run this).2 →
     StartTransaction ∈ events (run this).2
     ∧ (∃ done, QueryRunner.startTransaction (runnerOf this) = Ok done)
     ∧ ∃ error, (run this).1 = Throw error)
  ∧ (∀ r, (run this).1 = Ok r →
          StartTransaction ∈ events (run this).2 →
          CommitTransaction ∈ events (run this).2).
Proof.
  intros Hv Hne.
  destruct (run_calls this vss Hv Hne)
    as (query & trace & rollback & Hq & Hp & Hs1 & Hst & Hr & He & _ & Hok).
  assert (∀ e, e ∈ query → ∃ sql ps, e = Query sql ps) as Hquery.
  { intros e Hin. destruct Hq as [->|(sql & ps & ->)]; [by apply elem_of_nil in Hin|].
    apply list_elem_of_singleton in Hin. eauto. }
  assert (∀ e, e ∈ events (run this).2 →
               e = CreateQueryRunner ∨ e ∈ trace ∨ e ∈ rollback ∨ e = Release) as Hsplit.
  { intros e. rewrite He, !elem_of_app. intros [H|[H|[H|H]]]; auto.
    - destruct (ownsRunner this); [|by apply elem_of_nil in H].
      apply list_elem_of_singleton in H. auto.
    - destruct (ownsRunner this); [|by apply elem_of_nil in H].
      apply list_elem_of_singleton in H. auto. }
  assert (∀ e, e ∈ trace → e ∈ tryCalls this vss query) as Htrace.
  { intros e Hin. destruct Hp as [k ->]. apply elem_of_app. auto. }
  assert (∀ e, e ∈ rollback → e = RollbackTransaction ∧ transactionStarted this = true
                              ∧ ∃ error, (run this).1 = Throw error) as Hroll.
  { intros e Hin. destruct Hr as [->|(-> & ? & ?)]; [by apply elem_of_nil in Hin|].
    by apply list_elem_of_singleton in Hin as ->. }
  assert (startsTransaction this = true
          ↔ QueryExpressionMap.useTransaction (expressionMap this) = true
            ∧ QueryRunner.isTransactionActive (runnerOf this) = false) as Hstarts.
  { unfold startsTransaction. rewrite andb_true_iff, negb_true_iff. done. }
  assert (startsTransaction this = true → StartTransaction ∈ events (run this).2) as Hstart.
  { intros Hs. rewrite Hs in Hs1. destruct Hs1 as [k ->].
    rewrite He, !elem_of_app. right. left. left. apply list_elem_of_here. }
  assert (transactionStarted this = true →
          ∃ done, QueryRunner.startTransaction (runnerOf this) = Ok done) as Hdone.
  { unfold transactionStarted. intros [_ H]%andb_true_iff.
    destruct (QueryRunner.startTransaction (runnerOf this)); [eauto|done]. }
  split; [|split; [|split]].
  - rewrite <- Hstarts. split; [|exact Hstart].
    intros [H|[H|[H|H]]]%Hsplit; try done.
    + apply Htrace, tryCalls_elem in H
        as [H|[[_ H]|[(? & ? & _)|[?|[(? & ?)|[? _]]]]]]; try done.
      by destruct (Hquery _ H) as (? & ? & ?).
    + by destruct (Hroll _ H).
  - intros [H|[H|[H|H]]]%Hsplit; try done; [|by destruct (Hroll _ H)].
    assert (startsTransaction this = true) as Hs.
    { apply Htrace, tryCalls_elem in H
        as [H|[[? _]|[(? & ? & _)|[?|[(? & ?)|[_ H]]]]]]; try done.
      by destruct (Hquery _ H) as (? & ? & ?). }
    split; [by apply Hstart|]. apply Hdone.
    destruct Hst as [->| ->]; [done|].
    by apply list_elem_of_singleton in H.
  - intros [H|[H|[H|H]]]%Hsplit; try done.
    + apply Htrace, tryCalls_elem in H
        as [H|[[? _]|[(? & ? & _)|[?|[(? & ?)|[? _]]]]]]; try done.
      by destruct (Hquery _ H) as (? & ? & ?).
    + destruct (Hroll _ H) as (_ & Hs & Herr).
      split; [by apply Hstart, transactionStarted_starts|]. split; [by apply Hdone|done].
  - intros r Hr' Hin. destruct (Hok r Hr') as (-> & _).
    assert (startsTransaction this = true) as Hs.
    { apply Hsplit in Hin as [H|[H|[H|H]]]; try done; [|by destruct (Hroll _ H)].
      apply tryCalls_elem in H
        as [H|[[_ H]|[(? & ? & _)|[?|[(? & ?)|[? _]]]]]]; try done.
      by destruct (Hquery _ H) as (? & ? & ?). }
    rewrite He. unfold tryCalls. rewrite Hs, !elem_of_app.
    right. left. do 5 right. apply list_elem_of_here.
Qed.

Lemma transaction_ended_only_if_started_witness :
  StartTransaction ∈ events (run failingInsert).2
  ∧ (∃ done, QueryRunner.startTransaction (runnerOf failingInsert) = Ok done)
  ∧ ∃ error, (run failingInsert).1 = Throw error.
Proof.
  apply (proj1 (proj2 (proj2
           (transaction_ended_only_if_started failingInsert [[("name", VData "a")]]
              eq_refl ltac:(discriminate))))).
  vm_compute. do 4 apply list_elem_of_further. apply list_elem_of_here.
Defined.

Lemma prefix_through {A} (a b t : list A) (x : A) :
  t `prefix_of` a ++ x :: b → x ∈ t → x ∉ a →
  ∃ r, t = a ++ x :: r ∧ r `prefix_of` b.
Proof.
  revert t. induction a as [|y a IH]; intros t Hp Hin Hout.
  - destruct t as [|z t]; [by apply elem_of_nil in Hin|].
    simpl in Hp. pose proof (prefix_cons_inv_1 _ _ _ _ Hp) as ->.
    apply prefix_cons_inv_2 in Hp. by exists t.
  - destruct t as [|z t]; [by apply elem_of_nil in Hin|].
    simpl in Hp. pose proof (prefix_cons_inv_1 _ _ _ _ Hp) as ->.
    apply prefix_cons_inv_2 in Hp.
    apply not_elem_of_cons in Hout as [Hne Hout].
    apply elem_of_cons in Hin as [->|Hin]; [done|].
    destruct (IH t Hp Hin Hout) as (r & -> & Hr). by exists r.
Qed.

(** X6. [execute] sends at most one query, and only once the preparations
    are over. If a run on at least one value set sends a query, then the
    calls before it are exactly: the creation of the runner if none was
    supplied, the start of the transaction if one is to be started, and the
    before-insert event of every value set, in their order; and none of the
    calls after it is a query, a before-insert event or the start of a
    transaction. *)
Theorem query_sent_once_after_hooks (this : InsertQueryBuilder) (vss : list ObjectLiteral)
  (sql : Sql) (parameters : list Value) :
  getValueSets this = (Ok vss, this) → vss ≠ [] →
  Query sql parameters ∈ events (run this).2 →
  ∃ later,
    events (run this).2
    = (if ownsRunner this then [CreateQueryRunner] else [])
      ++ (if startsTransaction this then [StartTransaction] else [])
      ++ (if listenersEnabled (expressionMap this)
          then BroadcastBeforeInsert <$> vss else [])
      ++ Query sql parameters :: later
    ∧ ∀ e, e ∈ later →
           e ≠ StartTransaction
           ∧ (∀ valueSet, e ≠ BroadcastBeforeInsert valueSet)
           ∧ (∀ sql' parameters', e ≠ Query sql' parameters').
Proof.
  intros Hv Hne Hin.
  destruct (run_calls this vss Hv Hne)
    as (query & trace & rollback & Hq & Hp & _ & _ & Hr & He & _).
  assert (∀ e, e ∈ rollback → e = RollbackTransaction) as Hroll.
  { intros e H. destruct Hr as [->|(-> & _)]; [by apply elem_of_nil in H|].
    by apply list_elem_of_singleton in H. }
  assert (Query sql parameters ∈ trace) as Ht.
  { rewrite He, !elem_of_app in Hin. destruct Hin as [H|[H|[H|H]]]; [|done| |].
    - destruct (ownsRunner this); [|by apply elem_of_nil in H].
      by apply list_elem_of_singleton in H.
    - by apply Hroll in H.
    - destruct (ownsRunner this); [|by apply elem_of_nil in H].
      by apply list_elem_of_singleton in H. }
  assert (query = [Query sql parameters]) as ->.
  { assert (Query sql parameters ∈ tryCalls this vss query) as Hc.
    { destruct Hp as [k ->]. apply elem_of_app. auto. }
    apply tryCalls_elem in Hc
      as [H|[[? _]|[(? & ? & _)|[?|[(? & ?)|[? _]]]]]]; try done.
    destruct Hq as [->|(sql' & ps' & ->)]; [by apply elem_of_nil in H|].
    by apply list_elem_of_singleton in H as <-. }
  unfold tryCalls in Hp. rewrite app_assoc in Hp. simpl in Hp.
  apply prefix_through in Hp as (r & -> & Hrest); [|done|].
  2:{ intros [H|H]%elem_of_app.
      - destruct (startsTransaction this); [|by apply elem_of_nil in H].
        by apply list_elem_of_singleton in H.
      - destruct (listenersEnabled _); [|by apply elem_of_nil in H].
        by apply list_elem_of_fmap in H as (? & ? & _). }
  exists (r ++ rollback ++ (if ownsRunner this then [Release] else [])).
  split; [rewrite He; by rewrite <- !app_assoc|].
  intros e. rewrite !elem_of_app. intros [H|[H|H]].
  - destruct Hrest as [k Hk].
    assert (e ∈ r ++ k) as Hc by (apply elem_of_app; auto).
    rewrite <- Hk, !elem_of_app in Hc. destruct Hc as [Hc|[Hc|Hc]].
    + destruct (entityUpdateEnabled _); [|by apply elem_of_nil in Hc].
      by apply list_elem_of_singleton in Hc as ->.
    + destruct (listenersEnabled _); [|by apply elem_of_nil in Hc].
      by apply list_elem_of_fmap in Hc as (? & -> & _).
    + destruct (startsTransaction this); [|by apply elem_of_nil in Hc].
      by apply list_elem_of_singleton in Hc as ->.
  - by apply Hroll in H as ->.
  - destruct (ownsRunner this); [|by apply elem_of_nil in H].
    by apply list_elem_of_singleton in H as ->.
Qed.

Lemma query_sent_once_after_hooks_witness :
  ∃ later,
    events (run failingInsert).2
    = [CreateQueryRunner; StartTransaction; BroadcastBeforeInsert [("name", VData "a")];
       Query [Text "INSERT "; Text "INTO [post]"; Text "([name])"; Text " VALUES ";
              Text "("; Placeholder 0; Text ")"] [VData "a"]] ++ later
    ∧ ∀ e, e ∈ later →
           e ≠ StartTransaction
           ∧ (∀ valueSet, e ≠ BroadcastBeforeInsert valueSet)
           ∧ (∀ sql' parameters', e ≠ Query sql' parameters').
Proof.
  apply (query_sent_once_after_hooks failingInsert [[("name", VData "a")]]
           _ _ eq_refl ltac:(discriminate)).
  vm_compute. do 3 apply list_elem_of_further. apply list_elem_of_here.
Defined.




(** X8. When the start of the transaction itself fails, [execute] attempts
    no rollback (the transaction is not marked as started here), compiles
    nothing, and sends nothing: it releases the runner if it created it, and
    the caller receives the error of the start, or the error of the release
    if that fails too. *)
Theorem failed_start_is_not_rolled_back (this : InsertQueryBuilder)
  (vss : list ObjectLiteral) (error : Error) :
  getValueSets this = (Ok vss, this) → vss ≠ [] →
  QueryExpressionMap.useTransaction (expressionMap this) = true →
  QueryRunner.isTransactionActive (runnerOf this) = false →
  QueryRunner.startTransaction (runnerOf this) = Throw error →
  events (run this).2
  = (if ownsRunner this then [CreateQueryRunner] else [])
    ++ [StartTransaction]
    ++ (if ownsRunner this then [Release] else [])
  ∧ builder (run this).2 = this
  ∧ (run this).1
    = match (if ownsRunner this then QueryRunner.release (runnerOf this) else Ok tt) with
      | Ok _ => Throw error
      | Throw releaseError => Throw releaseError
      end.
Proof.
  intros Hv Hne Hu Ha Hs. rewrite (run_protected _ _ Hv Hne).
  assert (tryBlock (runnerOf this) vss (entryState this)
          = (Throw error,
             {| builder := this;
                events := (if ownsRunner this then [CreateQueryRunner] else [])
                          ++ [StartTransaction];
                transactionStartedByUs := false |})) as Htry.
  { unfold tryBlock. unfold bind at 1, get at 1. unfold bind at 1.
    cbn [builder entryState]. rewrite Hu, Ha. cbn [andb negb].
    unfold bind, await, emit, modify. cbn. by rewrite Hs. }
  unfold tryFinally, tryCatch. rewrite Htry.
  unfold catchBlock, bind, get, throw, finallyBlock, await, emit, modify. cbn.
  destruct (ownsRunner this); cbn; [|done].
  destruct (QueryRunner.release (runnerOf this)) as [[]|]; cbn; by rewrite <- ?app_assoc.
Qed.

Lemma failed_start_is_not_rolled_back_witness :
  events (run refusedInsert).2 = [CreateQueryRunner; StartTransaction; Release]
  ∧ builder (run refusedInsert).2 = refusedInsert
  ∧ (run refusedInsert).1 = Throw (RuntimeError "cannot begin").
Proof.
  exact (failed_start_is_not_rolled_back refusedInsert
           [[("name", VData "a")]; [("name", VData "b")]] (RuntimeError "cannot begin")
           eq_refl ltac:(discriminate) eq_refl eq_refl eq_refl).
Defined.





(** ** What the compiled statement depends on *)

(** Two builders are compiled side by side: the steps of the compiler take
    builders that compile alike to builders that compile alike, and return
    the same text. *)

Ltac alike_if :=
  repeat match goal with
         | |- alike _ _ _ (if ?c then _ else _) _ => destruct c
         | |- alike _ _ _ (match ?c with Some _ => _ | None => _ end) _ => destruct c
         end.

Section CompilesAlike.
Variable S : Value → Value → Prop.
Variable d : Driver.t.
Hypothesis S_shape : ∀ v w, S v w → sameShape v w.
Hypothesis S_refl : ∀ v, S v v.

Lemma alike_ret {A} (Q : A → A → Prop) a a' : Q a a' → alike S d Q (ret a) (ret a').
Proof. intros H s s' R. by split. Qed.

Lemma alike_throw {A} (Q : A → A → Prop) e : alike S d Q (throw e) (throw e).
Proof. intros s s' R. by split. Qed.

Lemma alike_get : alike S d (compilesAlike S d) get get.
Proof. intros s s' R. by split. Qed.

Lemma alike_bind {A B} (Q : A → A → Prop) (Q' : B → B → Prop) m m' k k' :
  alike S d Q m m' → (∀ a a', Q a a' → alike S d Q' (k a) (k' a')) →
  alike S d Q' (bind m k) (bind m' k').
Proof.
  intros Hm Hk s s' R. unfold bind. specialize (Hm s s' R).
  destruct (m s) as [[a|e] t], (m' s') as [[a'|e'] t']; try done.
  destruct Hm as [Ha Rt]. by apply Hk.
Qed.

Lemma alike_forEachFrom {A} (P : A → A → Prop) (body body' : A → nat → Builder Sql) l l' :
  Forall2 P l l' →
  (∀ x x' idx, P x x' → alike S d eq (body x idx) (body' x' idx)) →
  ∀ idx, alike S d eq (forEachFrom body l idx) (forEachFrom body' l' idx).
Proof.
  intros Hl Hbody. induction Hl as [|x x' l l' Hx Hl IH]; intros idx; simpl.
  - by apply alike_ret.
  - eapply alike_bind; [by apply Hbody|]. intros q ? <-.
    eapply alike_bind; [apply IH|]. intros q' ? <-. by apply alike_ret.
Qed.

Lemma alike_filterM {A} (f f' : A → Builder bool) (l : list A) :
  (∀ x, alike S d eq (f x) (f' x)) → alike S d eq (filterM f l) (filterM f' l).
Proof.
  intros Hf. induction l as [|x l IH]; simpl; [by apply alike_ret|].
  eapply alike_bind; [apply Hf|]. intros b ? <-.
  eapply alike_bind; [apply IH|]. intros r ? <-. by apply alike_ret.
Qed.

Lemma alike_someM {A} (f f' : A → Builder bool) (l : list A) :
  (∀ x, alike S d eq (f x) (f' x)) → alike S d eq (someM f l) (someM f' l).
Proof.
  intros Hf. induction l as [|x l IH]; simpl; [by apply alike_ret|].
  eapply alike_bind; [apply Hf|]. intros b ? <-.
  destruct b; [by apply alike_ret|apply IH].
Qed.

(** Values of the same shape are told apart in the same way. *)
Lemma sameShape_tests v w :
  sameShape v w →
  isUndefined v = isUndefined w ∧ isFunction v = isFunction w ∧ isProvided v = isProvided w.
Proof. destruct v, w; simpl; intros H; try done; by inversion H. Qed.

Lemma sameShape_refl v : sameShape v v.
Proof. by destruct v. Qed.

Lemma recordsAlike_keys o o' : recordsAlike S o o' → Object_keys o = Object_keys o'.
Proof.
  unfold Object_keys. induction 1 as [|[k v] [k' v'] o o' [Hk _] _ IH]; [done|].
  simpl in *. by f_equal.
Qed.

Lemma recordsAlike_getProperty o o' key :
  recordsAlike S o o' → S (getProperty o key) (getProperty o' key).
Proof.
  induction 1 as [|[k v] [k' v'] o o' [Hk Hv] _ IH]; [apply S_refl|].
  simpl in *. subst k'. by destruct (decide (k = key)).
Qed.

Lemma alike_getValueSets : alike S d (Forall2 (recordsAlike S)) getValueSets getValueSets.
Proof.
  intros s s' R. pose proof R as (vs & ps & ig & oc & ou & -> & _ & _ & Hv & _).
  unfold getValueSets, bind, get. simpl.
  destruct (QueryExpressionMap.valuesSet (expressionMap s)), vs; try done; simpl.
  all: split; [|done]. all: try done. by constructor.
Qed.

Lemma existsb_recordsAlike column vss vss' :
  Forall2 (recordsAlike S) vss vss' →
  existsb (λ valueSet, isProvided (getEntityValue column valueSet)) vss
  = existsb (λ valueSet, isProvided (getEntityValue column valueSet)) vss'.
Proof.
  induction 1 as [|o o' l l' Ho _ IH]; [done|]. simpl. rewrite IH. f_equal.
  unfold getEntityValue.
  by destruct (sameShape_tests _ _ (S_shape _ _ (recordsAlike_getProperty _ _
                 (ColumnMetadata.propertyPath column) Ho))) as (_ & _ & ->).
Qed.

Lemma alike_isOverriding column :
  alike S d eq (isOverridingAutoIncrementBehavior column)
           (isOverridingAutoIncrementBehavior column).
Proof.
  unfold isOverridingAutoIncrementBehavior.
  destruct (_ && _ && _); [|by apply alike_ret].
  eapply alike_bind; [apply alike_getValueSets|]. intros vss vss' Hvss.
  apply alike_ret. by apply existsb_recordsAlike.
Qed.

Lemma compilesAlike_fields s s' :
  compilesAlike S d s s' →
  driver s' = driver s ∧ inherited s' = inherited s ∧ uuidsDrawn s' = uuidsDrawn s
  ∧ QueryExpressionMap.mainAlias (expressionMap s')
    = QueryExpressionMap.mainAlias (expressionMap s)
  ∧ QueryExpressionMap.insertColumns (expressionMap s')
    = QueryExpressionMap.insertColumns (expressionMap s)
  ∧ QueryExpressionMap.returning (expressionMap s')
    = QueryExpressionMap.returning (expressionMap s)
  ∧ QueryExpressionMap.extraReturningColumns (expressionMap s')
    = QueryExpressionMap.extraReturningColumns (expressionMap s)
  ∧ QueryExpressionMap.locallyGenerated (expressionMap s')
    = QueryExpressionMap.locallyGenerated (expressionMap s)
  ∧ length (QueryExpressionMap.parameters (expressionMap s'))
    = length (QueryExpressionMap.parameters (expressionMap s)).
Proof.
  intros (vs & ps & ig & oc & ou & -> & _ & _ & _ & Hp & _). simpl.
  repeat split. symmetry. by eapply Forall2_length.
Qed.

Lemma alike_getInsertedColumns : alike S d eq getInsertedColumns getInsertedColumns.
Proof.
  unfold getInsertedColumns.
  eapply alike_bind; [apply alike_get|]. intros s s' R.
  destruct (compilesAlike_fields _ _ R) as (-> & _ & _ & -> & -> & _).
  destruct (Alias.metadata _); [|by apply alike_ret].
  apply alike_filterM. intros column.
  repeat (match goal with |- alike S d _ (if ?c then _ else _) _ => destruct c end);
    try by apply alike_ret.
  apply alike_isOverriding.
Qed.

Lemma alike_createColumnNamesExpression :
  alike S d eq createColumnNamesExpression createColumnNamesExpression.
Proof.
  unfold createColumnNamesExpression.
  eapply alike_bind; [apply alike_getInsertedColumns|]. intros columns ? <-.
  eapply alike_bind; [apply alike_get|]. intros s s' R.
  destruct (compilesAlike_fields _ _ R) as (_ & -> & _ & -> & -> & _).
  destruct (0 <? length columns); [by apply alike_ret|].
  destruct (_ && _); [|by apply alike_ret].
  eapply alike_bind; [apply alike_getValueSets|]. intros vss vss' Hvss.
  destruct Hvss as [|o o' l l' Ho Hl]; [by apply alike_ret|].
  destruct Hl; [|by apply alike_ret].
  apply alike_ret. by rewrite (recordsAlike_keys _ _ Ho).
Qed.

Lemma alike_createParameter v v' :
  S v v' → alike S d eq (createParameter v) (createParameter v').
Proof.
  intros Hv s s' (vs & ps & ig & oc & ou & -> & Hdrv & Hd & Hvs & Hp & Hi & Hc & Hu).
  unfold createParameter. simpl. split.
  - by rewrite (Forall2_length _ _ _ Hp).
  - exists vs, (ps ++ [v']), ig, oc, ou. split; [reflexivity|]. split; [done|]. split; [done|]. split; [done|].
    split; [|done]. simpl. apply Forall2_app; [done|]. by constructor.
Qed.

Lemma alike_uuid4 : alike S d eq RandomGenerator_uuid4 RandomGenerator_uuid4.
Proof.
  intros s s' (vs & ps & ig & oc & ou & -> & Hdrv & Hd & Hvs & Hp & Hi & Hc & Hu).
  unfold RandomGenerator_uuid4. simpl. split; [done|].
  by exists vs, ps, ig, oc, ou.
Qed.

Lemma alike_rememberLocallyGenerated i column v :
  alike S d eq (rememberLocallyGenerated i column v) (rememberLocallyGenerated i column v).
Proof.
  intros s s' (vs & ps & ig & oc & ou & -> & Hdrv & Hd & Hvs & Hp & Hi & Hc & Hu).
  unfold rememberLocallyGenerated, modify. simpl. split; [done|].
  by exists vs, ps, ig, oc, ou.
Qed.

Lemma alike_getMetadata : alike S d eq getMetadata getMetadata.
Proof.
  intros s s' R. destruct (compilesAlike_fields _ _ R) as (_ & _ & _ & Hm & _).
  unfold getMetadata. rewrite Hm. by destruct (Alias.metadata _).
Qed.

Lemma compilesAlike_driver s s' :
  compilesAlike S d s s' → driver s = d ∧ preserves S (driver s).
Proof. by intros (vs & ps & ig & oc & ou & -> & -> & Hd & _). Qed.

Lemma persistentValue_alike driver column vs vs' :
  preserves S driver → recordsAlike S vs vs' →
  S (persistentValue driver column vs) (persistentValue driver column vs').
Proof.
  intros Hd Hvs. unfold persistentValue, getEntityValue.
  pose proof (recordsAlike_getProperty _ _ (ColumnMetadata.propertyPath column) Hvs) as H.
  destruct (sameShape_tests _ _ (S_shape _ _ H)) as (_ & <- & _).
  destruct (isFunction _); simpl; [done|]. by apply Hd.
Qed.

Lemma alike_columnValueExpression len vs vs' i column :
  recordsAlike S vs vs' →
  alike S d eq (columnValueExpression len vs i column)
               (columnValueExpression len vs' i column).
Proof.
  intros Hvs. unfold columnValueExpression.
  eapply alike_bind; [apply alike_get|]. intros s s' R.
  destruct (compilesAlike_fields _ _ R) as (-> & _).
  destruct (compilesAlike_driver _ _ R) as [_ Hd].
  pose proof (persistentValue_alike (driver s) column vs vs' Hd Hvs) as Hv.
  pose proof (S_shape _ _ Hv) as Hs.
  destruct (sameShape_tests _ _ Hs) as (<- & _ & _).
  destruct (ColumnMetadata.isVersion column && isUndefined _); [by apply alike_ret|].
  destruct (ColumnMetadata.isDiscriminator column).
  { eapply alike_bind; [apply alike_getMetadata|]. intros md ? <-.
    apply alike_createParameter, S_refl. }
  destruct (_ && _ && _ && _).
  { eapply alike_bind; [apply alike_uuid4|]. intros u ? <-.
    eapply alike_bind; [apply alike_createParameter, S_refl|]. intros q ? <-.
    eapply alike_bind; [apply alike_rememberLocallyGenerated|]. intros _ _ _.
    by apply alike_ret. }
  destruct (isUndefined (persistentValue (driver s) column vs)) eqn:Eu.
  { alike_if; by apply alike_ret. }
  assert (S (if instanceOf (driver s) SqlServerDriver
             then Driver.parametrizeValue (driver s) column
                    (persistentValue (driver s) column vs)
             else persistentValue (driver s) column vs)
            (if instanceOf (driver s) SqlServerDriver
             then Driver.parametrizeValue (driver s) column
                    (persistentValue (driver s) column vs')
             else persistentValue (driver s) column vs')) as Hp.
  { destruct (instanceOf _ _); [by apply Hd|done]. }
  destruct (persistentValue (driver s) column vs) as [| |f|a] eqn:E1,
           (persistentValue (driver s) column vs') as [| |f'|a'] eqn:E2; try done.
  - eapply alike_bind; [by apply alike_createParameter|]. intros q ? <-.
    alike_if; by apply alike_ret.
  - simpl in Hs. injection Hs as <-. by apply alike_ret.
  - eapply alike_bind; [by apply alike_createParameter|]. intros q ? <-.
    alike_if; by apply alike_ret.
Qed.

Lemma alike_columnCallback len ncols vs vs' i column j :
  recordsAlike S vs vs' →
  alike S d eq (columnCallback len ncols vs i column j) (columnCallback len ncols vs' i column j).
Proof.
  intros Hvs. unfold columnCallback.
  eapply alike_bind; [apply alike_get|]. intros s s' R.
  destruct (compilesAlike_fields _ _ R) as (-> & _).
  eapply alike_bind; [by apply alike_columnValueExpression|]. intros q ? <-.
  by apply alike_ret.
Qed.

Lemma alike_propertyCallback len vs vs' i name j :
  recordsAlike S vs vs' →
  alike S d eq (propertyCallback len vs i name j) (propertyCallback len vs' i name j).
Proof.
  intros Hvs. unfold propertyCallback.
  eapply alike_bind; [apply alike_get|]. intros s s' R.
  destruct (compilesAlike_fields _ _ R) as (-> & _).
  rewrite <- (recordsAlike_keys _ _ Hvs).
  pose proof (recordsAlike_getProperty _ _ name Hvs) as Hv.
  pose proof (S_shape _ _ Hv) as Hs.
  eapply (alike_bind eq).
  - destruct (getProperty vs name) as [| |f|a], (getProperty vs' name) as [| |f'|a'];
      try done.
    + alike_if; by apply alike_ret.
    + by apply alike_createParameter.
    + simpl in Hs. injection Hs as <-. by apply alike_ret.
    + by apply alike_createParameter.
  - intros q ? <-. by apply alike_ret.
Qed.

Lemma alike_createValuesExpression : alike S d eq createValuesExpression createValuesExpression.
Proof.
  unfold createValuesExpression.
  eapply alike_bind; [apply alike_getValueSets|]. intros vss vss' Hvss.
  eapply alike_bind; [apply alike_getInsertedColumns|]. intros columns ? <-.
  rewrite <- (Forall2_length _ _ _ Hvss).
  destruct (0 <? length columns).
  - eapply (alike_bind eq).
    + apply (alike_forEachFrom (recordsAlike S)); [done|]. intros vs vs' i Hvs.
      apply (alike_forEachFrom eq); [apply Forall2_same_length_lookup_2; [done|]|].
      * intros k x y Hx Hy. congruence.
      * intros c ? j <-. by apply alike_columnCallback.
    + intros q ? <-. destruct (String.eqb _ _); by apply alike_ret.
  - eapply (alike_bind eq).
    + apply (alike_forEachFrom (recordsAlike S)); [done|]. intros vs vs' i Hvs.
      rewrite <- (recordsAlike_keys _ _ Hvs).
      apply (alike_forEachFrom eq); [apply Forall2_same_length_lookup_2; [done|]|].
      * intros k x y Hx Hy. congruence.
      * intros c ? j <-. by apply alike_propertyCallback.
    + intros q ? <-. destruct (String.eqb _ _); by apply alike_ret.
Qed.

Lemma alike_upsertExpression : alike S d eq upsertExpression upsertExpression.
Proof.
  unfold upsertExpression.
  eapply alike_bind; [apply alike_get|].
  intros s s' (vs & ps & ig & oc & ou & -> & Hdrv & Hd & Hvs & Hp & Hi & Hc & Hu). simpl.
  rewrite <- Hdrv in Hi, Hc, Hu.
  destruct (Driver.supportedUpsertType (driver s)) as [[|]|] eqn:Eu.
  - destruct Hi as [->|[_ ?]]; [|done].
    destruct (QueryExpressionMap.onIgnore (expressionMap s)) eqn:Ei; [by apply alike_ret|].
    destruct Hc as [->|[?|?]]; [|done|done].
    destruct (truthy (QueryExpressionMap.onConflict (expressionMap s))) eqn:Ec;
      [by apply alike_ret|].
    destruct Hu as [->|[_ [?|?]]]; [|done|done].
    destruct (QueryExpressionMap.onUpdate _) as [u|]; [|by apply alike_ret].
    destruct (OnUpdate.overwrite u), (OnUpdate.columns u); by apply alike_ret.
  - destruct Hu as [->|[? _]]; [|done].
    destruct (QueryExpressionMap.onUpdate _) as [u|]; [|by apply alike_ret].
    destruct (OnUpdate.overwrite u), (OnUpdate.columns u); by apply alike_ret.
  - destruct Hu as [->|[? _]]; [|done].
    destruct (QueryExpressionMap.onUpdate _); [apply alike_throw|by apply alike_ret].
Qed.

Lemma alike_isOracleMultiRow : alike S d eq isOracleMultiRow isOracleMultiRow.
Proof.
  unfold isOracleMultiRow.
  eapply alike_bind; [apply alike_get|]. intros s s' R.
  destruct (compilesAlike_fields _ _ R) as (-> & _).
  destruct (instanceOf _ _); [|by apply alike_ret].
  eapply alike_bind; [apply alike_getValueSets|]. intros vss vss' Hvss.
  apply alike_ret. by rewrite (Forall2_length _ _ _ Hvss).
Qed.

Lemma Forall2_alike_refl (l : list Value) : Forall2 S l l.
Proof. induction l; constructor; [apply S_refl|done]. Qed.

Lemma alike_callCreateReturningExpression :
  alike S d eq callCreateReturningExpression callCreateReturningExpression.
Proof.
  unfold callCreateReturningExpression.
  eapply alike_bind; [apply alike_get|]. intros s s' R.
  assert (Inherited.createReturningExpression (inherited s') (driver s')
            (QueryExpressionMap.mainAlias (expressionMap s'))
            (QueryExpressionMap.returning (expressionMap s'))
            (QueryExpressionMap.extraReturningColumns (expressionMap s'))
          = Inherited.createReturningExpression (inherited s) (driver s)
              (QueryExpressionMap.mainAlias (expressionMap s))
              (QueryExpressionMap.returning (expressionMap s))
              (QueryExpressionMap.extraReturningColumns (expressionMap s))) as ->.
  { by destruct R as (vs & ps & ig & oc & ou & -> & _). }
  unfold forEach. apply (alike_forEachFrom eq).
  - generalize (Inherited.createReturningExpression (inherited s) (driver s)
                (QueryExpressionMap.mainAlias (expressionMap s))
                (QueryExpressionMap.returning (expressionMap s))
                (QueryExpressionMap.extraReturningColumns (expressionMap s))).
    intros l. induction l; by constructor.
  - intros piece ? idx <-. destruct piece; [by apply alike_ret|].
    apply alike_createParameter, S_refl.
Qed.

Lemma alike_needsIdentityInsert : alike S d eq needsIdentityInsert needsIdentityInsert.
Proof.
  unfold needsIdentityInsert.
  eapply alike_bind; [apply alike_get|]. intros s s' R.
  pose proof R as (vs & ps & ig & oc & ou & -> & _). simpl.
  destruct (_ && _); [|by apply alike_ret].
  eapply alike_bind; [apply alike_getMetadata|]. intros md ? <-.
  unfold identityInsertCandidates. simpl.
  apply alike_someM. intros column. apply alike_isOverriding.
Qed.

Lemma alike_createInsertExpression : alike S d eq createInsertExpression createInsertExpression.
Proof.
  unfold createInsertExpression.
  eapply alike_bind; [apply alike_get|]. intros s0 s0' R0.
  destruct (compilesAlike_fields _ _ R0) as (-> & -> & _ & -> & _).
  eapply alike_bind; [apply alike_createValuesExpression|]. intros values ? <-.
  eapply alike_bind; [apply alike_isOracleMultiRow|]. intros multi ? <-.
  eapply (alike_bind eq).
  { destruct multi; [by apply alike_ret|apply alike_callCreateReturningExpression]. }
  intros returning ? <-.
  eapply alike_bind; [apply alike_createColumnNamesExpression|]. intros names ? <-.
  eapply alike_bind; [apply alike_get|]. intros s s' R.
  assert ((if instanceOf (driver s0) MysqlDriver || instanceOf (driver s0) AuroraDataApiDriver
           then [Text (if QueryExpressionMap.onIgnore (expressionMap s')
                       then " IGNORE " else "")]
           else [])
          = (if instanceOf (driver s0) MysqlDriver || instanceOf (driver s0) AuroraDataApiDriver
             then [Text (if QueryExpressionMap.onIgnore (expressionMap s)
                         then " IGNORE " else "")]
             else [])) as ->.
  { destruct R0 as (? & ? & ? & ? & ? & _ & Hd0 & _).
    destruct R as (vs & ps & ig & oc & ou & -> & Hds & _ & _ & _ & Hi & _). simpl.
    destruct Hi as [->|[Hm _]]; [done|].
    unfold isMysqlLike in Hm. by rewrite Hd0, Hm. }
  eapply (alike_bind eq).
  { destruct (truthy (render values)).
    - eapply alike_bind; [apply alike_isOracleMultiRow|]. intros multi' ? <-.
      by apply alike_ret.
    - destruct (_ || _); by apply alike_ret. }
  intros introducer ? <-.
  eapply alike_bind; [apply alike_upsertExpression|]. intros upsert ? <-.
  eapply alike_bind; [apply alike_needsIdentityInsert|]. intros needed ? <-.
  destruct needed; by apply alike_ret.
Qed.

Lemma alike_getQueryAndParameters :
  alike S d (λ r r', r.1 = r'.1 ∧ Forall2 S r.2 r'.2)
        getQueryAndParameters getQueryAndParameters.
Proof.
  unfold getQueryAndParameters, getQuery.
  eapply (alike_bind eq).
  - eapply alike_bind; [apply alike_get|]. intros s s' R.
    destruct (compilesAlike_fields _ _ R) as (_ & -> & _).
    eapply alike_bind; [apply alike_createInsertExpression|]. intros q ? <-.
    by apply alike_ret.
  - intros q ? <-. eapply alike_bind; [apply alike_get|].
    intros s s' (vs & ps & ig & oc & ou & -> & _ & _ & _ & Hp & _).
    apply alike_ret. split; [done|]. simpl.
    induction (placeholders q) as [|p l IH]; [constructor|].
    simpl. destruct p as [text|index|name]; simpl; try exact IH.
    destruct (proj1 (Forall2_lookup _ _ _) Hp index) as [v w Hvw|]; [by constructor|exact IH].
Qed.

Lemma recordsAlike_refl o : recordsAlike S o o.
Proof. induction o as [|[k v] o IH]; constructor; [by split|done]. Qed.

Lemma valuesAlike_refl v : valuesAlike S v v.
Proof.
  destruct v as [|o|l]; simpl; [done|apply recordsAlike_refl|].
  induction l; constructor; [apply recordsAlike_refl|done].
Qed.

Lemma compilesAlike_refl this :
  preserves S (driver this) → driver this = d → compilesAlike S d this this.
Proof.
  intros Hd <-.
  exists (QueryExpressionMap.valuesSet (expressionMap this)),
         (QueryExpressionMap.parameters (expressionMap this)),
         (QueryExpressionMap.onIgnore (expressionMap this)),
         (QueryExpressionMap.onConflict (expressionMap this)),
         (QueryExpressionMap.onUpdate (expressionMap this)).
  split; [by destruct this as [? ? ? [] ? ?]|]. split; [done|]. split; [done|].
  split; [apply valuesAlike_refl|]. split; [apply Forall2_alike_refl|].
  by repeat split; left.
Qed.

End CompilesAlike.

Lemma sampleDriver_preserves kind upsert returning S :
  preserves S (sampleDriver kind upsert returning).
Proof. intros v w column H. by split. Qed.

(** X10. No datum reaches the SQL text. Take a driver whose normalizations
    turn data into data and leave [undefined], [null] and raw SQL expressions
    to themselves. If the values of a builder are replaced by values with
    the same keys that differ only in the data they carry, the statement
    compiles to the same text, with parameters that differ only in those
    data; and if compilation fails, it fails with the same error. *)
Theorem statement_text_independent_of_data (this : InsertQueryBuilder) (other : ValuesSet) :
  preserves sameShape (driver this) →
  valuesAlike sameShape (QueryExpressionMap.valuesSet (expressionMap this)) other →
  (∀ sql parameters this',
     getQueryAndParameters this = (Ok (sql, parameters), this') →
     ∃ parameters' other',
       getQueryAndParameters (values other this).2 = (Ok (sql, parameters'), other')
       ∧ Forall2 sameShape parameters parameters')
  ∧ (∀ error this',
       getQueryAndParameters this = (Throw error, this') →
       ∃ other', getQueryAndParameters (values other this).2 = (Throw error, other')).
Proof.
  intros Hd Hv.
  assert (compilesAlike sameShape (driver this) this (values other this).2) as R.
  { exists other, (QueryExpressionMap.parameters (expressionMap this)),
           (QueryExpressionMap.onIgnore (expressionMap this)),
           (QueryExpressionMap.onConflict (expressionMap this)),
           (QueryExpressionMap.onUpdate (expressionMap this)).
    split; [reflexivity|]. split; [done|]. split; [done|]. split; [done|].
    split; [|by repeat split; left].
    apply Forall2_alike_refl. by intros []. }
  pose proof (alike_getQueryAndParameters sameShape (driver this) (λ _ _ H, H)
                (λ v, ltac:(by destruct v)) _ _ R) as H.
  destruct (getQueryAndParameters this) as [[[sql ps]|e] t],
           (getQueryAndParameters (values other this).2) as [[[sql' ps']|e'] t'];
    try done; simpl in H.
  - split; [|done]. intros ? ? ? [= <- <- <-]. destruct H as [[<- Hp] _]. eauto.
  - split; [done|]. intros ? ? [= <- <-]. destruct H as [<- _]. eauto.
Qed.

Lemma statement_text_independent_of_data_witness :
  ∃ sql parameters this' parameters' other',
    getQueryAndParameters plainInsert = (Ok (sql, parameters), this')
    ∧ getQueryAndParameters
        (values (ValuesArray [[("name", VData "x")];
                              [("name", VData "y'); DROP TABLE post; --")]])
                plainInsert).2
      = (Ok (sql, parameters'), other')
    ∧ Forall2 sameShape parameters parameters'.
Proof.
  destruct (getQueryAndParameters plainInsert) as [[[sql ps]|e] t] eqn:E; [|discriminate E].
  destruct (statement_text_independent_of_data plainInsert
              (ValuesArray [[("name", VData "x")];
                            [("name", VData "y'); DROP TABLE post; --")]])
              (sampleDriver_preserves _ _ _ _)) as [Hok _].
  { repeat constructor. }
  destruct (Hok sql ps t E) as (ps' & t' & E' & Hp).
  exists sql, ps, t, ps', t'. split; [reflexivity|]. split; [exact E'|exact Hp].
Defined.

Lemma Forall2_eq_inv {A} (l l' : list A) : Forall2 eq l l' → l = l'.
Proof. induction 1; congruence. Qed.

Lemma compilesAlike_same_statement this other :
  compilesAlike eq (driver this) this other →
  (getQueryAndParameters other).1 = (getQueryAndParameters this).1.
Proof.
  intros R.
  pose proof (alike_getQueryAndParameters eq (driver this)
                (λ v w H, eq_ind v (sameShape v) ltac:(by destruct v) w H)
                (λ v, eq_refl) _ _ R) as H.
  destruct (getQueryAndParameters this) as [[[sql ps]|e] t],
           (getQueryAndParameters other) as [[[sql' ps']|e'] t']; try done; simpl in *.
  - destruct H as [[<- Hp%Forall2_eq_inv] _]. by subst.
  - by destruct H as [<- _].
Qed.

(** X11. Policies that the dialect has no use for are dropped without a
    word. On a dialect whose upsert style is not on-conflict-do-update, a raw
    conflict clause set by [onConflict] changes nothing in the compiled
    statement or its parameters; if the driver is moreover neither MySQL nor
    Aurora, the ignore policy set by [orIgnore] changes nothing either. *)
Theorem unused_policies_change_nothing (this : InsertQueryBuilder) (statement : string)
  (ignore : IgnoreStatement) :
  Driver.supportedUpsertType (driver this) ≠ Some OnConflictDoUpdate →
  (getQueryAndParameters (onConflict statement this).2).1 = (getQueryAndParameters this).1
  ∧ (isMysqlLike (driver this) = false →
     (getQueryAndParameters (orIgnore ignore this).2).1 = (getQueryAndParameters this).1).
Proof.
  intros Hu.
  assert (preserves eq (driver this)) as Hd by (by intros v w column ->).
  split.
  - apply compilesAlike_same_statement.
    exists (QueryExpressionMap.valuesSet (expressionMap this)),
           (QueryExpressionMap.parameters (expressionMap this)),
           (QueryExpressionMap.onIgnore (expressionMap this)), statement,
           (QueryExpressionMap.onUpdate (expressionMap this)).
    split; [reflexivity|]. split; [done|]. split; [done|].
    split; [by apply valuesAlike_refl|]. split; [by apply Forall2_alike_refl|].
    split; [by left|]. split; [right; by left|by left].
  - intros Hm. apply compilesAlike_same_statement.
    exists (QueryExpressionMap.valuesSet (expressionMap this)),
           (QueryExpressionMap.parameters (expressionMap this)),
           (toBoolean ignore), (QueryExpressionMap.onConflict (expressionMap this)),
           (QueryExpressionMap.onUpdate (expressionMap this)).
    split; [reflexivity|]. split; [done|]. split; [done|].
    split; [by apply valuesAlike_refl|]. split; [by apply Forall2_alike_refl|].
    split; [by right|]. split; by left.
Qed.

Lemma unused_policies_change_nothing_witness :
  (getQueryAndParameters (onConflict "(id) DO NOTHING" explicitId).2).1
  = (getQueryAndParameters explicitId).1
  ∧ (getQueryAndParameters (orIgnore (IgnoreBoolean true) explicitId).2).1
    = (getQueryAndParameters explicitId).1.
Proof.
  destruct (unused_policies_change_nothing explicitId "(id) DO NOTHING" (IgnoreBoolean true)
              ltac:(discriminate)) as [Hconflict Hignore].
  split; [exact Hconflict|exact (Hignore eq_refl)].
Defined.

(** X12. On a dialect whose upsert style is on-conflict-do-update, a policy
    that comes first hides the ones after it entirely. With the ignore
    policy set, neither a raw conflict clause nor a structured update policy
    changes anything in the compiled statement or its parameters; with a
    non-empty raw conflict clause set, a structured update policy changes
    nothing. *)
Theorem earlier_policy_hides_later_ones (this : InsertQueryBuilder) :
  Driver.supportedUpsertType (driver this) = Some OnConflictDoUpdate →
  (QueryExpressionMap.onIgnore (expressionMap this) = true →
   ∀ statement,
     (getQueryAndParameters (onConflict statement this).2).1
     = (getQueryAndParameters this).1)
  ∧ (QueryExpressionMap.onIgnore (expressionMap this) = true
     ∨ QueryExpressionMap.onConflict (expressionMap this) ≠ "" →
     ∀ arguments,
       (getQueryAndParameters (orUpdate arguments this).2).1
       = (getQueryAndParameters this).1).
Proof.
  intros Hu.
  assert (preserves eq (driver this)) as Hd by (by intros v w column ->).
  split.
  - intros Hi statement. apply compilesAlike_same_statement.
    exists (QueryExpressionMap.valuesSet (expressionMap this)),
           (QueryExpressionMap.parameters (expressionMap this)),
           (QueryExpressionMap.onIgnore (expressionMap this)), statement,
           (QueryExpressionMap.onUpdate (expressionMap this)).
    split; [reflexivity|]. split; [done|]. split; [done|].
    split; [by apply valuesAlike_refl|]. split; [by apply Forall2_alike_refl|].
    split; [by left|]. split; [right; by right|by left].
  - intros Hfirst arguments. apply compilesAlike_same_statement.
    assert (∃ policy, (orUpdate arguments this).2
                      = withExpressionMap
                          (QueryExpressionMap.with_onUpdate (Some policy)) this)
      as [policy ->] by (destruct arguments; eexists; reflexivity).
    exists (QueryExpressionMap.valuesSet (expressionMap this)),
           (QueryExpressionMap.parameters (expressionMap this)),
           (QueryExpressionMap.onIgnore (expressionMap this)),
           (QueryExpressionMap.onConflict (expressionMap this)), (Some policy).
    split; [reflexivity|]. split; [done|]. split; [done|].
    split; [by apply valuesAlike_refl|]. split; [by apply Forall2_alike_refl|].
    split; [by left|]. split; [by left|]. right. split; [done|].
    destruct Hfirst as [?|Hc]; [by left|right].
    unfold truthy. apply negb_true_iff.
    destruct (String.eqb _ _) eqn:E; [|done]. by apply String.eqb_eq in E.
Qed.

Lemma earlier_policy_hides_later_ones_witness :
  (getQueryAndParameters (onConflict "(name) DO NOTHING" ignoringPostgres).2).1
  = (getQueryAndParameters ignoringPostgres).1
  ∧ (getQueryAndParameters
       (orUpdate (OrUpdateOverwrite ["name"] ConflictUndefined) ignoringPostgres).2).1
    = (getQueryAndParameters ignoringPostgres).1.
Proof.
  destruct (earlier_policy_hides_later_ones ignoringPostgres eq_refl) as [Hconflict Hupdate].
  split; [exact (Hconflict eq_refl _)|exact (Hupdate (or_introl eq_refl) _)].
Defined.

(** X17. A single object is the array that holds it alone: [values(o)] and
    [values([o])] compile to the same statement with the same parameters, or
    fail with the same error. *)
Theorem single_object_is_array_of_one (this : InsertQueryBuilder) (o : ObjectLiteral) :
  (getQueryAndParameters (values (ValuesObject o) this).2).1
  = (getQueryAndParameters (values (ValuesArray [o]) this).2).1.
Proof.
  apply compilesAlike_same_statement.
  exists (ValuesObject o), (QueryExpressionMap.parameters (expressionMap this)),
         (QueryExpressionMap.onIgnore (expressionMap this)),
         (QueryExpressionMap.onConflict (expressionMap this)),
         (QueryExpressionMap.onUpdate (expressionMap this)).
  split; [reflexivity|]. split; [done|]. split; [by intros v w column ->|].
  split; [simpl; constructor; [by apply recordsAlike_refl|constructor]|].
  split; [by apply Forall2_alike_refl|]. by repeat split; left.
Qed.

(** ** The VALUES body and the column list *)

Lemma propertyCallback_touch this len vs i name j p g n :
  ∃ q, propertyCallback len vs i name j (touch p g n this)
       = (Ok q, touch (p ++ filter (λ v, isBound v = true) [getProperty vs name]) g n this)
       ∧ placeholders q
         = Placeholder <$> seq (length p)
                             (length (filter (λ v, isBound v = true) [getProperty vs name])).
Proof.
  unfold propertyCallback, bind, get. simpl.
  destruct (getProperty vs name) as [| |f|a]; simpl;
    destruct (j =? 0); simpl;
    try destruct (instanceOf (driver this) AbstractSqliteDriver
                  || instanceOf (driver this) SapDriver); simpl;
    eexists; rewrite ?app_nil_r; (split; [reflexivity|]);
    rewrite ?placeholders_app; simpl; by rewrite ?app_nil_r.
Qed.

Lemma propertyCallbacks_touch this len vs i names :
  ∀ j p g n,
    ∃ q, forEachFrom (propertyCallback len vs i) names j (touch p g n this)
         = (Ok q, touch (p ++ filter (λ v, isBound v = true) (getProperty vs <$> names))
                        g n this)
         ∧ placeholders q
           = Placeholder <$> seq (length p)
                               (length (filter (λ v, isBound v = true)
                                               (getProperty vs <$> names))).
Proof.
  induction names as [|name names IH]; intros j p g n.
  - exists []. simpl. by rewrite app_nil_r.
  - destruct (propertyCallback_touch this len vs i name j p g n) as (q & E & Hq).
    destruct (IH (S j) (p ++ filter (λ v, isBound v = true) [getProperty vs name]) g n)
      as (q' & E' & Hq').
    exists (q ++ q'). simpl forEachFrom. unfold bind at 1. rewrite E.
    unfold bind at 1. rewrite E'. unfold ret.
    change (getProperty vs <$> name :: names)
      with ([getProperty vs name] ++ (getProperty vs <$> names)).
    rewrite filter_app, app_assoc. split; [done|].
    rewrite placeholders_app, Hq, Hq', !length_app, seq_app, fmap_app. done.
Qed.

Lemma valueSetsWithoutMetadata_touch this len vss :
  ∀ i p g n,
    ∃ q, forEachFrom (λ valueSet insertionIndex,
                        forEach (propertyCallback len valueSet insertionIndex)
                                (Object_keys valueSet))
                     vss i (touch p g n this)
         = (Ok q, touch (p ++ valuesBound vss) g n this)
         ∧ placeholders q = Placeholder <$> seq (length p) (length (valuesBound vss)).
Proof.
  induction vss as [|vs vss IH]; intros i p g n.
  - exists []. simpl. unfold valuesBound. simpl. by rewrite app_nil_r.
  - destruct (propertyCallbacks_touch this len vs i (Object_keys vs) 0 p g n)
      as (q & E & Hq).
    destruct (IH (S i) (p ++ filter (λ v, isBound v = true)
                                    (getProperty vs <$> Object_keys vs)) g n)
      as (q' & E' & Hq').
    exists (q ++ q'). simpl forEachFrom. unfold bind at 1. unfold forEach at 1. rewrite E.
    unfold bind at 1. rewrite E'. unfold ret.
    assert (valuesBound (vs :: vss)
            = filter (λ v, isBound v = true) (getProperty vs <$> Object_keys vs)
              ++ valuesBound vss) as -> by done.
    rewrite app_assoc. split; [done|].
    rewrite placeholders_app, Hq, Hq', !length_app, seq_app, fmap_app. done.
Qed.

(** X13. For a table without metadata, the VALUES body binds exactly the
    values of the value sets that are neither [undefined] nor raw SQL
    expressions ([null] is bound), row by row and, within a row, in the order
    of the keys; every placeholder of the body refers to one of them, in that
    order. No UUID is generated and nothing is cached. *)
Theorem values_bound_without_metadata (this : InsertQueryBuilder) (vss : list ObjectLiteral) :
  Alias.metadata (QueryExpressionMap.mainAlias (expressionMap this)) = None →
  getValueSets this = (Ok vss, this) →
  ∃ sql,
    createValuesExpression this
    = (Ok sql,
       withExpressionMap
         (λ m, QueryExpressionMap.with_parameters
                 (QueryExpressionMap.parameters m ++ valuesBound vss) m)
         this)
    ∧ placeholders sql
      = Placeholder <$> seq (length (QueryExpressionMap.parameters (expressionMap this)))
                            (length (valuesBound vss)).
Proof.
  intros Hm Hv.
  set (p := QueryExpressionMap.parameters (expressionMap this)).
  set (g := QueryExpressionMap.locallyGenerated (expressionMap this)).
  set (n := uuidsDrawn this).
  assert (insertedColumns this vss = []) as Hc by (unfold insertedColumns; by rewrite Hm).
  destruct (valueSetsWithoutMetadata_touch this (length vss) vss 0 p g n) as (q & E & Hq).
  assert (createValuesExpression (touch p g n this)
          = (Ok (if String.eqb (render q) "()" then [] else q),
             touch (p ++ valuesBound vss) g n this)) as Hcompile.
  { unfold createValuesExpression. unfold bind at 1.
    rewrite getValueSets_touch, Hv. cbn [fst]. unfold bind at 1.
    rewrite (getInsertedColumns_touch _ _ _ _ _ Hv), Hc. cbn [length Nat.ltb Nat.leb].
    unfold bind at 1. unfold forEach at 1. rewrite E. by destruct (String.eqb _ _). }
  subst p g n. rewrite touch_self in Hcompile.
  eexists. split.
  - rewrite Hcompile. f_equal; by destruct this as [? ? ? [] ? ?].
  - destruct (String.eqb (render q) "()") eqn:Eq; [|done].
    apply String.eqb_eq, render_unit_no_placeholders in Eq.
    rewrite Eq in Hq. simpl. rewrite <- Hq. done.
Qed.

Lemma values_bound_without_metadata_witness :
  valuesBound [[("name", VData "a"); ("note", VNull)];
               [("name", VFunction "UPPER('b')"); ("note", VUndefined)]]
  = [VData "a"; VNull]
  ∧ ∃ sql,
      createValuesExpression rawInsert
      = (Ok sql,
         withExpressionMap
           (λ m, QueryExpressionMap.with_parameters
                   (QueryExpressionMap.parameters m ++ [VData "a"; VNull]) m)
           rawInsert)
      ∧ placeholders sql = [Placeholder 0; Placeholder 1].
Proof.
  split; [reflexivity|].
  exact (values_bound_without_metadata rawInsert
           [[("name", VData "a"); ("note", VNull)];
            [("name", VFunction "UPPER('b')"); ("note", VUndefined)]] eq_refl eq_refl).
Defined.

Lemma emptyRecords_loop this len vss :
  Forall (λ vs, vs = []) vss →
  ∀ i, forEachFrom (λ valueSet insertionIndex,
                      forEach (propertyCallback len valueSet insertionIndex)
                              (Object_keys valueSet))
                   vss i this
       = (Ok [], this).
Proof.
  induction 1 as [|vs vss -> _ IH]; intros i; [done|].
  simpl. unfold bind at 1. unfold forEach, Object_keys. simpl. unfold ret at 1.
  unfold bind at 1. by rewrite IH.
Qed.

Lemma emptyRecords_overrides vss column :
  Forall (λ vs, vs = []) vss → overrides vss column = false.
Proof.
  intros H. unfold overrides. apply andb_false_iff. right.
  induction H as [|vs vss -> _ IH]; [done|]. simpl. exact IH.
Qed.

#[local] Arguments afterUpsert : simpl never.
#[local] Arguments returningOf : simpl never.

(** X14. Inserting records for which nothing is to be written. When no
    column is selected for insertion, no column list was given and every
    value set is an empty object, the VALUES body is empty and binds
    nothing, and the statement falls back on the dialect's syntax for a row
    of defaults: [INSERT INTO t DEFAULT VALUES], or [INSERT INTO t() VALUES
    ()] on MySQL and Aurora, followed by the conflict clause and the
    returning clause that the builder is configured with for these value
    sets; it is never wrapped in IDENTITY_INSERT toggles. *)
Theorem empty_records_insert_defaults (this : InsertQueryBuilder) (vss : list ObjectLiteral)
  (upsert : Sql) :
  getValueSets this = (Ok vss, this) →
  Forall (λ vs, vs = []) vss →
  insertedColumns this vss = [] →
  QueryExpressionMap.insertColumns (expressionMap this) = [] →
  upsertExpression this = (Ok upsert, this) →
  createValuesExpression this = (Ok [], this)
  ∧ ∃ sql this',
      createInsertExpression this = (Ok sql, this')
      ∧ let returning :=
          (returningOf this vss (length (QueryExpressionMap.parameters (expressionMap this)))).1
        in
        render sql
        = "INSERT "
          +:+ (if isMysqlLike (driver this)
               then (if QueryExpressionMap.onIgnore (expressionMap this)
                     then " IGNORE " else "")
                    +:+ "INTO " +:+ tableNameOf this +:+ "()"
               else "INTO " +:+ tableNameOf this)
          +:+ (if truthy (render returning) && instanceOf (driver this) SqlServerDriver
               then " OUTPUT " +:+ render returning else "")
          +:+ (if isMysqlLike (driver this) then " VALUES ()" else " DEFAULT VALUES")
          +:+ render upsert +:+ render (afterUpsert this returning).
Proof.
  intros Hv Hempty Hc Hi Hu.
  set (p := QueryExpressionMap.parameters (expressionMap this)).
  set (g := QueryExpressionMap.locallyGenerated (expressionMap this)).
  set (n := uuidsDrawn this).
  assert (createValuesExpression this = (Ok [], this)) as Hvalues.
  { rewrite <- (touch_self this). fold p g n.
    unfold createValuesExpression. unfold bind at 1.
    rewrite getValueSets_touch, Hv. cbn [fst]. unfold bind at 1.
    rewrite (getInsertedColumns_touch _ _ _ _ _ Hv), Hc. cbn [length Nat.ltb Nat.leb].
    unfold bind at 1. unfold forEach at 1. by rewrite emptyRecords_loop. }
  split; [exact Hvalues|].
  destruct (createInsertExpression_touch this vss p g n Hv)
    as (values & added & g' & n' & Ev & _ & E).
  cbv zeta in E. subst p g n. rewrite touch_self in E, Ev.
  rewrite Hvalues in Ev.
  assert (values = []) as -> by congruence.
  assert (QueryExpressionMap.parameters (expressionMap this) ++ added
          = QueryExpressionMap.parameters (expressionMap this)) as Hp.
  { assert (QueryExpressionMap.parameters
              (expressionMap
                 (touch (QueryExpressionMap.parameters (expressionMap this) ++ added)
                        g' n' this))
            = QueryExpressionMap.parameters (expressionMap this)) as H by congruence.
    exact H. }
  rewrite Hp in E. rewrite Hu in E. cbn [fst] in E.
  eexists _, _. split; [exact E|]. cbv zeta.
  assert (identityInsertNeeded this vss = false) as ->.
  { unfold identityInsertNeeded. destruct (Alias.metadata _); [|done].
    apply andb_false_iff. right.
    induction (identityInsertCandidates _ _) as [|c l IH]; [done|].
    simpl. by rewrite (emptyRecords_overrides _ _ Hempty). }
  assert (columnNames this vss = "") as Hnames.
  { unfold columnNames. rewrite Hc, Hi. simpl.
    destruct Hempty as [|vs vss' -> [|]]; simpl; try done.
    by destruct (negb _). }
  unfold identityInsertWrapper, beforeUpsert. rewrite Hnames.
  rewrite !render_app. cbn [truthy String.eqb negb render foldr renderPiece andb].
  destruct (isMysqlLike (driver this)) eqn:Em.
  - assert (instanceOf (driver this) SqlServerDriver = false) as ->.
    { unfold isMysqlLike in Em. unfold instanceOf in *.
      destruct (Driver.kind (driver this)); done. }
    rewrite andb_false_r. cbn [render foldr renderPiece].
    by rewrite !string_app_empty_r, ?string_app_assoc.
  - destruct (truthy (render _) && instanceOf _ _);
      cbn [render foldr renderPiece];
      by rewrite ?render_cons, ?string_app_empty_r, ?string_app_assoc.
Qed.

Lemma empty_records_insert_defaults_witness :
  (∃ sql this',
     createInsertExpression emptyRecords = (Ok sql, this')
     ∧ render sql = "INSERT INTO [post] DEFAULT VALUES")
  ∧ ∃ sql this',
      createInsertExpression emptyRecordsMysql = (Ok sql, this')
      ∧ render sql = "INSERT INTO [log]() VALUES ()".
Proof.
  split.
  - destruct (empty_records_insert_defaults emptyRecords [[]; []] []
                eq_refl ltac:(by repeat constructor) eq_refl eq_refl eq_refl)
      as (_ & sql & this' & E & Hr).
    exists sql, this'. split; [exact E|exact Hr].
  - destruct (empty_records_insert_defaults emptyRecordsMysql [[]] []
                eq_refl ltac:(by repeat constructor) eq_refl eq_refl eq_refl)
      as (_ & sql & this' & E & Hr).
    exists sql, this'. split; [exact E|exact Hr].
Defined.

(** X15. Which columns take part in an INSERT. For a table with metadata,
    [getInsertedColumns] returns columns of the table, in the order of the
    metadata. With an explicit column list these are exactly the columns
    whose property path is listed, whatever their flags. Without one, only
    insertable columns are returned, and a generated increment column among
    them is kept on Oracle, SQLite, MySQL and Aurora, kept on SQL Server
    exactly when it is primary and some value set gives it a value other
    than [undefined] and [null], and left out on every other driver, even if
    a value was supplied for it. *)
Theorem inserted_columns_selection (this : InsertQueryBuilder) (vss : list ObjectLiteral)
  (metadata : EntityMetadata.t) :
  Alias.metadata (QueryExpressionMap.mainAlias (expressionMap this)) = Some metadata →
  getValueSets this = (Ok vss, this) →
  ∃ columns,
    getInsertedColumns this = (Ok columns, this)
    ∧ columns `sublist_of` EntityMetadata.columns metadata
    ∧ (QueryExpressionMap.insertColumns (expressionMap this) ≠ [] →
       ∀ column,
         column ∈ columns
         ↔ column ∈ EntityMetadata.columns metadata
           ∧ ColumnMetadata.propertyPath column
             ∈ QueryExpressionMap.insertColumns (expressionMap this))
    ∧ (QueryExpressionMap.insertColumns (expressionMap this) = [] →
       (∀ column, column ∈ columns → ColumnMetadata.isInsert column = true)
       ∧ ∀ column,
           column ∈ EntityMetadata.columns metadata →
           ColumnMetadata.isInsert column = true →
           ColumnMetadata.isGenerated column = true →
           ColumnMetadata.generationStrategy column = Some Increment →
           match Driver.kind (driver this) with
           | OracleDriver | AbstractSqliteDriver | MysqlDriver | AuroraDataApiDriver =>
               column ∈ columns
           | SqlServerDriver =>
               column ∈ columns
               ↔ ColumnMetadata.isPrimary column = true
                 ∧ ∃ valueSet, valueSet ∈ vss
                               ∧ isProvided (getEntityValue column valueSet) = true
           | _ => column ∉ columns
           end).
Proof.
  intros Hm Hv. exists (insertedColumns this vss).
  split.
  { pose proof (getInsertedColumns_touch this vss
                  (QueryExpressionMap.parameters (expressionMap this))
                  (QueryExpressionMap.locallyGenerated (expressionMap this))
                  (uuidsDrawn this) Hv) as E.
    by rewrite touch_self in E. }
  unfold insertedColumns. rewrite Hm.
  split; [apply sublist_filter|].
  split.
  - intros Hne column. rewrite list_elem_of_filter. unfold selects.
    destruct (QueryExpressionMap.insertColumns (expressionMap this)) as [|x l] eqn:El;
      [done|].
    simpl. unfold includes. rewrite bool_decide_eq_true. tauto.
  - intros He. rewrite He. split.
    + intros column [Hs _]%list_elem_of_filter. unfold selects in Hs. simpl in Hs.
      by destruct (ColumnMetadata.isInsert column).
    + intros column Hin Hins Hgen Hstrategy.
      assert (overrides vss column = true
              ↔ ColumnMetadata.isPrimary column = true
                ∧ ∃ valueSet, valueSet ∈ vss
                              ∧ isProvided (getEntityValue column valueSet) = true) as Ho.
      { unfold overrides. rewrite Hgen, Hstrategy, !andb_true_iff, existsb_exists.
        rewrite bool_decide_eq_true. split.
        - intros [[[? _] _] (vs & Hvs & ?)]. split; [done|].
          exists vs. split; [by apply list_elem_of_In|done].
        - intros [? (vs & Hvs & ?)]. split; [done|].
          exists vs. split; [by apply list_elem_of_In|done]. }
      assert (column ∈ filter (λ c, selects (driver this) [] vss c = true)
                              (EntityMetadata.columns metadata)
              ↔ selects (driver this) [] vss column = true) as Hsel.
      { rewrite list_elem_of_filter. tauto. }
      destruct (Driver.kind (driver this)) eqn:Ek; rewrite Hsel; unfold selects; simpl;
        rewrite Hins, Hgen, Hstrategy; simpl; unfold instanceOf; rewrite Ek; simpl;
        done.
Qed.

Lemma inserted_columns_selection_witness :
  ∃ columns,
    getInsertedColumns plainInsert = (Ok columns, plainInsert)
    ∧ columns `sublist_of` posts
    ∧ (∀ column, column ∈ columns → ColumnMetadata.isInsert column = true)
    ∧ idColumn ∉ columns.
Proof.
  destruct (inserted_columns_selection plainInsert
              [[("name", VData "a")]; [("name", VData "b")]]
              {| EntityMetadata.columns := posts; EntityMetadata.discriminatorValue := VUndefined |}
              eq_refl eq_refl) as (columns & E & Hsub & _ & Hdefault).
  destruct (Hdefault eq_refl) as [Hins Hincrement].
  exists columns. split; [exact E|]. split; [exact Hsub|]. split; [exact Hins|].
  apply (Hincrement idColumn); [apply list_elem_of_here|reflexivity..].
Defined.

Lemma columnCallbacks_tuple this md len ncols vs i cols :
  Alias.metadata (QueryExpressionMap.mainAlias (expressionMap this)) = Some md →
  ∀ j p g n,
    cols ≠ [] → j + length cols = ncols →
    ∃ entries added g' n',
      forEachFrom (columnCallback len ncols vs i) cols j (touch p g n this)
      = (Ok ((if j =? 0
              then [Text (tupleOpening (instanceOf (driver this) OracleDriver && (1 <? len)))]
              else [])
             ++ joinSql ", " entries
             ++ [Text (tupleClosing (instanceOf (driver this) OracleDriver && (1 <? len))
                                    (i =? len - 1))]),
         touch (p ++ added) g' n' this)
      ∧ Forall2 (entryOf this len vs i) cols entries.
Proof.
  intros Hm. induction cols as [|c cols IH]; intros j p g n Hne Hlen; [done|].
  destruct (columnValueExpression_touch this md len vs i c p g n Hm)
    as (q & added & g1 & n1 & E & _ & _).
  assert (entryOf this len vs i c q) as Hentry.
  { exists p, g, n. by rewrite E. }
  assert (columnCallback len ncols vs i c j (touch p g n this)
          = (Ok ((if j =? 0
                  then [Text (tupleOpening
                                (instanceOf (driver this) OracleDriver && (1 <? len)))]
                  else [])
                 ++ q
                 ++ [Text (if j =? ncols - 1
                           then tupleClosing
                                  (instanceOf (driver this) OracleDriver && (1 <? len))
                                  (i =? len - 1)
                           else ", ")]),
             touch (p ++ added) g1 n1 this)) as Hcell.
  { unfold columnCallback. unfold bind at 1, get at 1. unfold bind at 1. rewrite E.
    unfold ret, tupleOpening, tupleClosing. simpl.
    by repeat case_match. }
  simpl forEachFrom. unfold bind at 1. rewrite Hcell.
  destruct cols as [|c' cols].
  - exists [q], added, g1, n1. simpl. unfold ret.
    assert ((j =? ncols - 1) = true) as -> by (apply Nat.eqb_eq; simpl in Hlen; lia).
    unfold bind. split; [by rewrite app_nil_r|]. by repeat constructor.
  - destruct (IH (S j) (p ++ added) g1 n1) as (entries & added' & g2 & n2 & E' & Hl);
      [done|simpl in *; lia|].
    exists (q :: entries), (added ++ added'), g2, n2.
    unfold bind at 1. rewrite E'. unfold ret.
    assert ((j =? ncols - 1) = false) as -> by (apply Nat.eqb_neq; simpl in Hlen; lia).
    split; [|by constructor].
    rewrite <- (app_assoc p). f_equal. f_equal.
    destruct entries as [|e entries]; [by inversion Hl|].
    simpl. by rewrite <- !app_assoc.
Qed.

Lemma valueSets_tuples this md len cols vss :
  Alias.metadata (QueryExpressionMap.mainAlias (expressionMap this)) = Some md →
  cols ≠ [] →
  ∀ i p g n,
    i + length vss = len →
    ∃ rows added g' n',
      forEachFrom (λ valueSet valueSetIndex,
                     forEach (columnCallback len (length cols) valueSet valueSetIndex) cols)
                  vss i (touch p g n this)
      = (Ok (tuples (instanceOf (driver this) OracleDriver && (1 <? len)) rows),
         touch (p ++ added) g' n' this)
      ∧ length rows = length vss
      ∧ ∀ k valueSet entries,
          vss !! k = Some valueSet → rows !! k = Some entries →
          Forall2 (entryOf this len valueSet (i + k)) cols entries.
Proof.
  intros Hm Hne. induction vss as [|vs vss IH]; intros i p g n Hlen.
  - exists [], [], g, n. simpl. by rewrite app_nil_r.
  - destruct (columnCallbacks_tuple this md len (length cols) vs i cols Hm 0 p g n Hne eq_refl)
      as (entries & added & g1 & n1 & E & Hl).
    simpl forEachFrom. unfold bind at 1. unfold forEach at 1. rewrite E.
    destruct vss as [|vs' vss].
    + exists [entries], added, g1, n1. simpl. unfold ret.
      assert ((i =? len - 1) = true) as -> by (apply Nat.eqb_eq; simpl in Hlen; lia).
      unfold bind, tuple. split; [by rewrite app_nil_r|]. split; [done|].
      intros [|k] valueSet row Hk Hrow; [|done].
      simpl in Hk, Hrow. simplify_eq. by rewrite Nat.add_0_r.
    + destruct (IH (S i) (p ++ added) g1 n1) as (rows & added' & g2 & n2 & E' & Hr & Hf);
        [simpl in *; lia|].
      exists (entries :: rows), (added ++ added'), g2, n2.
      unfold bind at 1. rewrite E'. unfold ret.
      assert ((i =? len - 1) = false) as -> by (apply Nat.eqb_neq; simpl in Hlen; lia).
      split; [|split; [simpl; by rewrite Hr|]].
      * rewrite <- (app_assoc p). f_equal. f_equal.
        destruct rows as [|r rows]; [done|]. done.
      * intros [|k] valueSet row Hk Hrow.
        -- simpl in Hk, Hrow. simplify_eq. by rewrite Nat.add_0_r.
        -- replace (i + S k) with (S i + k) by lia. by apply Hf.
Qed.

(** X16. The VALUES body and the column list have the same arity. When
    columns are selected for insertion, the column list names each of them
    once, in order, and the body holds one tuple per value set, in order,
    each with exactly one entry per selected column, in the order of the
    columns: the entry is what the compiler writes for that column and that
    value set. The entries are separated by [, ], tuples are written [(...)]
    and separated by [, ] (on Oracle with several value sets, [SELECT ... FROM
    DUAL] joined by [UNION ALL]). Only a body that reads [()] is replaced by
    the empty text. The placeholders of the body are those of the values that
    compiling it appended to the parameter array, in order. *)
Theorem values_body_has_one_entry_per_column (this : InsertQueryBuilder)
  (vss : list ObjectLiteral) :
  getValueSets this = (Ok vss, this) →
  insertedColumns this vss ≠ [] →
  createColumnNamesExpression this
  = (Ok (String.concat ", "
           ((λ column, Inherited.escape (inherited this) (ColumnMetadata.databaseName column))
              <$> insertedColumns this vss)),
     this)
  ∧ ∃ rows values this',
      createValuesExpression this = (Ok values, this')
      ∧ length rows = length vss
      ∧ Forall (λ entries, length entries = length (insertedColumns this vss)) rows
      ∧ (∀ i valueSet entries,
           vss !! i = Some valueSet → rows !! i = Some entries →
           Forall2 (entryOf this (length vss) valueSet i) (insertedColumns this vss) entries)
      ∧ values = (if String.eqb (render (tuples (oracleMultiRow this vss) rows)) "()"
                  then []
                  else tuples (oracleMultiRow this vss) rows)
      ∧ ∃ added,
          QueryExpressionMap.parameters (expressionMap this')
          = QueryExpressionMap.parameters (expressionMap this) ++ added
          ∧ placeholders values
            = Placeholder <$> seq (length (QueryExpressionMap.parameters (expressionMap this)))
                                  (length added).
Proof.
  intros Hv Hne.
  set (p := QueryExpressionMap.parameters (expressionMap this)).
  set (g := QueryExpressionMap.locallyGenerated (expressionMap this)).
  set (n := uuidsDrawn this).
  destruct (insertedColumns_metadata this vss Hne) as [md Hm].
  assert ((0 <? length (insertedColumns this vss)) = true) as Hpos.
  { apply Nat.ltb_lt. destruct (insertedColumns this vss); [done|simpl; lia]. }
  split.
  - pose proof (createColumnNamesExpression_touch this vss p g n Hv) as E.
    subst p g n. rewrite touch_self in E. rewrite E. unfold columnNames. by rewrite Hpos.
  - destruct (valueSets_tuples this md (length vss) (insertedColumns this vss) vss Hm Hne
                0 p g n eq_refl) as (rows & added & g' & n' & E & Hr & Hf).
    assert (createValuesExpression (touch p g n this)
            = (Ok (if String.eqb (render (tuples (oracleMultiRow this vss) rows)) "()"
                   then [] else tuples (oracleMultiRow this vss) rows),
               touch (p ++ added) g' n' this)) as Hcompile.
    { unfold createValuesExpression. unfold bind at 1.
      rewrite getValueSets_touch, Hv. cbn [fst]. unfold bind at 1.
      rewrite (getInsertedColumns_touch _ _ _ _ _ Hv), Hpos.
      unfold bind at 1. unfold forEach at 1. rewrite E.
      unfold oracleMultiRow. by destruct (String.eqb _ _). }
    destruct (createValuesExpression_pairs this vss Hv p g n)
      as (values & added0 & g0 & n0 & E0 & P).
    rewrite Hcompile in E0.
    assert (p ++ added = p ++ added0) as Hadded.
    { assert (QueryExpressionMap.parameters (expressionMap (touch (p ++ added) g' n' this))
              = QueryExpressionMap.parameters (expressionMap (touch (p ++ added0) g0 n0 this)))
        as H by congruence.
      exact H. }
    apply app_inv_head in Hadded. subst added0.
    assert (values = (if String.eqb (render (tuples (oracleMultiRow this vss) rows)) "()"
                      then [] else tuples (oracleMultiRow this vss) rows)) as Hvalues.
    { pose proof (f_equal fst E0) as H. simpl in H. by injection H. }
    subst p g n. rewrite touch_self in Hcompile.
    exists rows. eexists _, _. split; [exact Hcompile|]. split; [done|].
    split.
    { apply Forall_lookup_2. intros i entries Hrow.
      destruct (lookup_lt_is_Some_2 vss i) as [valueSet Hk].
      { rewrite <- Hr. by apply lookup_lt_Some in Hrow. }
      symmetry. exact (Forall2_length _ _ _ (Hf i valueSet entries Hk Hrow)). }
    split; [exact Hf|]. split; [done|].
    exists added. split; [done|]. subst values. exact P.
Qed.

Lemma values_body_has_one_entry_per_column_witness :
  createColumnNamesExpression explicitId = (Ok "[id], [name]", explicitId)
  ∧ ∃ rows values this',
      createValuesExpression explicitId = (Ok values, this')
      ∧ length rows = 1
      ∧ Forall (λ entries, length entries = 2) rows
      ∧ (∀ i valueSet entries,
           [[("id", VData "7"); ("name", VData "a")]] !! i = Some valueSet →
           rows !! i = Some entries →
           Forall2 (entryOf explicitId 1 valueSet i) [idColumn; plainColumn "name"] entries)
      ∧ values = (if String.eqb (render (tuples false rows)) "()"
                  then [] else tuples false rows)
      ∧ ∃ added,
          QueryExpressionMap.parameters (expressionMap this') = [] ++ added
          ∧ placeholders values = Placeholder <$> seq 0 (length added).
Proof.
  exact (values_body_has_one_entry_per_column explicitId
           [[("id", VData "7"); ("name", VData "a")]] eq_refl ltac:(discriminate)).
Defined.
